(** * Rangeland production: point-process functions and RouteDEM argument check

    A shallow embedding of the scalar ("point") versions of the forage model's
    mechanistic equations, as they are written in [tests/test_forage.py], and
    of the algorithm check of [natcap/invest/routedem.py].

    Number model.  The Python code computes on IEEE doubles.  Functions that
    use only [+ - * /] and comparisons are embedded over the exact rationals
    [Q] (executable; rounding is not modelled, so an equation proved here
    holds in the program up to floating tolerance).  Functions that call
    [math.exp] or [numpy.arctan] are embedded over the reals [R].
    A Python float division by zero raises [ZeroDivisionError]; over [Q] it is
    modelled by the checked division [//] in the error monad [res]. *)

From Stdlib Require Import QArith Qminmax Qabs Reals Psatz Lia Bool List String Ascii.
Import ListNotations.

(** ** Error monad for the fallible point functions *)

Inductive exn : Type :=
| ZeroDivisionError.

Inductive res (A : Type) : Type :=
| Ret (a : A)
| Raise (e : exn).

Arguments Ret {A} a.
Arguments Raise {A} e.

Definition bind {A B : Type} (m : res A) (k : A -> res B) : res B :=
  match m with
  | Ret a => k a
  | Raise e => Raise e
  end.

Notation "x <- m ;; k" := (bind m (fun x => k))
  (at level 61, m at next level, right associativity).

Definition returns {A : Type} (m : res A) : Prop := exists a, m = Ret a.

Module Forage.

Open Scope Q_scope.

(** Python's [x / y] on floats: raises when [y == 0]. *)
Definition qdiv (x y : Q) : res Q :=
  if Qeq_bool y 0 then Raise ZeroDivisionError else Ret (x / y).

Infix "//" := qdiv (at level 40, left associativity).

(** Python's [x > y] on numbers. *)
Definition Qgtb (x y : Q) : bool := negb (Qle_bool x y).

(** *** [esched_point] (test_forage.py, lines 385-456) *)

Inductive esched_return_type : Type :=
| material_leaving_a
| material_arriving_b
| mineral_flow.

(** The three local variables [_esched] selects its return value from. *)
Record esched_flows : Type := mk_esched {
  e_leaving_a : Q;
  e_arriving_b : Q;
  e_mnrflo : Q
}.

Definition esched_body (cflow tca rcetob anps labile : Q) : res esched_flows :=
  q <- cflow // tca ;;
  let outofa := anps * q in
  ratio <- cflow // outofa ;;
  if Qgtb ratio rcetob then
    (* immobilization occurs *)
    need <- cflow // rcetob ;;
    let immflo := need - outofa in
    if Qgtb (labile - immflo) 0 then
      Ret (mk_esched outofa (outofa + immflo) (- immflo))
    else
      Ret (mk_esched 0 0 0)
  else
    (* mineralization *)
    atob <- cflow // rcetob ;;
    Ret (mk_esched outofa atob (outofa - atob)).

Definition esched_point (return_type : esched_return_type)
    (cflow tca rcetob anps labile : Q) : res Q :=
  fl <- esched_body cflow tca rcetob anps labile ;;
  match return_type with
  | material_leaving_a => Ret (e_leaving_a fl)
  | material_arriving_b => Ret (e_arriving_b fl)
  | mineral_flow => Ret (e_mnrflo fl)
  end.

(** *** [declig_point] (test_forage.py, lines 459-685) *)

Inductive declig_return_type : Type :=
| d_strucc | d_struce_1 | d_struce_2
| d_minerl_1_1 | d_minerl_1_2 | d_gromin_1
| d_som2c | d_som2e_1 | d_som2e_2
| d_som1c | d_som1e_1 | d_som1e_2.

(** The twelve deltas [_declig] selects its return value from. *)
Record declig_deltas : Type := mk_declig {
  dl_strucc_lyr : Q;
  dl_struce_lyr_1 : Q;
  dl_struce_lyr_2 : Q;
  dl_minerl_1_1 : Q;
  dl_minerl_1_2 : Q;
  dl_gromin_1 : Q;
  dl_som2c_lyr : Q;
  dl_som2e_lyr_1 : Q;
  dl_som2e_lyr_2 : Q;
  dl_som1c_lyr : Q;
  dl_som1e_lyr_1 : Q;
  dl_som1e_lyr_2 : Q
}.

(** [decompose_mask] is built with the eager operators [|] and [&]: both
    quotients are computed whatever the value of [aminrl]. *)
Definition decompose_mask
    (aminrl_1 aminrl_2 strucc_lyr struce_lyr_1 struce_lyr_2
     rnew_lyr_1_1 rnew_lyr_2_1 : Q) : res bool :=
  cn <- strucc_lyr // struce_lyr_1 ;;
  cp <- strucc_lyr // struce_lyr_2 ;;
  Ret ((Qgtb aminrl_1 0.0000001 || Qle_bool cn rnew_lyr_1_1) &&
       (Qgtb aminrl_2 0.0000001 || Qle_bool cp rnew_lyr_2_1)).

Definition declig_body
    (aminrl_1 aminrl_2 ligcon rsplig ps1co2_lyr strucc_lyr tcflow
     struce_lyr_1 struce_lyr_2 rnew_lyr_1_1 rnew_lyr_2_1
     rnew_lyr_1_2 rnew_lyr_2_2 minerl_1_1 minerl_1_2 : Q)
    : res declig_deltas :=
  (* initialize change (delta, d) in state variables *)
  let d_strucc_lyr := 0 in
  let d_struce_lyr_1 := 0 in
  let d_struce_lyr_2 := 0 in
  let d_minerl_1_1 := 0 in
  let d_minerl_1_2 := 0 in
  let d_gromin_1 := 0 in
  let d_som2c_lyr := 0 in
  let d_som2e_lyr_1 := 0 in
  let d_som2e_lyr_2 := 0 in
  let d_som1c_lyr := 0 in
  let d_som1e_lyr_1 := 0 in
  let d_som1e_lyr_2 := 0 in
  mask <- decompose_mask aminrl_1 aminrl_2 strucc_lyr struce_lyr_1
            struce_lyr_2 rnew_lyr_1_1 rnew_lyr_2_1 ;;
  if mask then
    let d_strucc_lyr := - tcflow in
    (* material decomposes first to som2 *)
    let tosom2 := tcflow * ligcon in
    (* respiration associated with decomposition to som2 *)
    let co2los := tosom2 * rsplig in
    mnrflo_1 <- (co2los * struce_lyr_1) // strucc_lyr ;;
    let d_struce_lyr_1 := d_struce_lyr_1 - mnrflo_1 in
    let d_minerl_1_1 := d_minerl_1_1 + mnrflo_1 in
    let d_gromin_1 :=
      if Qgtb mnrflo_1 0 then d_gromin_1 + mnrflo_1 else d_gromin_1 in
    mnrflo_2 <- (co2los * struce_lyr_2) // strucc_lyr ;;
    let d_struce_lyr_2 := d_struce_lyr_2 - mnrflo_2 in
    let d_minerl_1_2 := d_minerl_1_2 + mnrflo_2 in
    let net_tosom2 := tosom2 - co2los in
    let d_som2c_lyr := d_som2c_lyr + net_tosom2 in
    (* N and P flows from struce_lyr to som2e_lyr; N first *)
    leaving <- esched_point material_leaving_a
                 net_tosom2 strucc_lyr rnew_lyr_1_2 struce_lyr_1 minerl_1_1 ;;
    arriving <- esched_point material_arriving_b
                 net_tosom2 strucc_lyr rnew_lyr_1_2 struce_lyr_1 minerl_1_1 ;;
    mflow <- esched_point mineral_flow
                 net_tosom2 strucc_lyr rnew_lyr_1_2 struce_lyr_1 minerl_1_1 ;;
    let d_struce_lyr_1 := d_struce_lyr_1 - leaving in
    let d_som2e_lyr_1 := d_som2e_lyr_1 + arriving in
    let d_minerl_1_1 := d_minerl_1_1 + mflow in
    let d_gromin_1 :=
      if Qgtb mflow 0 then d_gromin_1 + mflow else d_gromin_1 in
    (* P second *)
    leaving <- esched_point material_leaving_a
                 net_tosom2 strucc_lyr rnew_lyr_2_2 struce_lyr_2 minerl_1_2 ;;
    arriving <- esched_point material_arriving_b
                 net_tosom2 strucc_lyr rnew_lyr_2_2 struce_lyr_2 minerl_1_2 ;;
    mflow <- esched_point mineral_flow
                 net_tosom2 strucc_lyr rnew_lyr_2_2 struce_lyr_2 minerl_1_2 ;;
    let d_struce_lyr_2 := d_struce_lyr_2 - leaving in
    let d_som2e_lyr_2 := d_som2e_lyr_2 + arriving in
    let d_minerl_1_2 := d_minerl_1_2 + mflow in
    (* what's left decomposes to som1 *)
    let tosom1 := tcflow - tosom2 in
    let co2los := tosom1 * ps1co2_lyr in
    (* respiration associated with decomposition to som1 *)
    mnrflo_1 <- (co2los * struce_lyr_1) // strucc_lyr ;;
    let d_struce_lyr_1 := d_struce_lyr_1 - mnrflo_1 in
    let d_minerl_1_1 := d_minerl_1_1 + mnrflo_1 in
    let d_gromin_1 :=
      if Qgtb mnrflo_1 0 then d_gromin_1 + mnrflo_1 else d_gromin_1 in
    mnrflo_2 <- (co2los * struce_lyr_2) // strucc_lyr ;;
    let d_struce_lyr_2 := d_struce_lyr_2 - mnrflo_2 in
    let d_minerl_1_2 := d_minerl_1_2 + mnrflo_2 in
    let net_tosom1 := tosom1 - co2los in
    let d_som1c_lyr := d_som1c_lyr + net_tosom1 in
    (* N and P flows from struce_lyr to som1e_lyr; N first *)
    leaving <- esched_point material_leaving_a
                 net_tosom1 strucc_lyr rnew_lyr_1_1 struce_lyr_1 minerl_1_1 ;;
    arriving <- esched_point material_arriving_b
                 net_tosom1 strucc_lyr rnew_lyr_1_1 struce_lyr_1 minerl_1_1 ;;
    mflow <- esched_point mineral_flow
                 net_tosom1 strucc_lyr rnew_lyr_1_1 struce_lyr_1 minerl_1_1 ;;
    let d_struce_lyr_1 := d_struce_lyr_1 - leaving in
    let d_som1e_lyr_1 := d_som1e_lyr_1 + arriving in
    let d_minerl_1_1 := d_minerl_1_1 + mflow in
    let d_gromin_1 :=
      if Qgtb mflow 0 then d_gromin_1 + mflow else d_gromin_1 in
    (* P *)
    leaving <- esched_point material_leaving_a
                 net_tosom1 strucc_lyr rnew_lyr_2_1 struce_lyr_2 minerl_1_2 ;;
    arriving <- esched_point material_arriving_b
                 net_tosom1 strucc_lyr rnew_lyr_2_1 struce_lyr_2 minerl_1_2 ;;
    mflow <- esched_point mineral_flow
                 net_tosom1 strucc_lyr rnew_lyr_2_1 struce_lyr_2 minerl_1_2 ;;
    let d_struce_lyr_2 := d_struce_lyr_2 - leaving in
    let d_som1e_lyr_2 := d_som1e_lyr_2 + arriving in
    let d_minerl_1_2 := d_minerl_1_2 + mflow in
    Ret (mk_declig d_strucc_lyr d_struce_lyr_1 d_struce_lyr_2
           d_minerl_1_1 d_minerl_1_2 d_gromin_1
           d_som2c_lyr d_som2e_lyr_1 d_som2e_lyr_2
           d_som1c_lyr d_som1e_lyr_1 d_som1e_lyr_2)
  else
    Ret (mk_declig d_strucc_lyr d_struce_lyr_1 d_struce_lyr_2
           d_minerl_1_1 d_minerl_1_2 d_gromin_1
           d_som2c_lyr d_som2e_lyr_1 d_som2e_lyr_2
           d_som1c_lyr d_som1e_lyr_1 d_som1e_lyr_2).

Definition declig_select (return_type : declig_return_type)
    (d : declig_deltas) : Q :=
  match return_type with
  | d_strucc => dl_strucc_lyr d
  | d_struce_1 => dl_struce_lyr_1 d
  | d_struce_2 => dl_struce_lyr_2 d
  | d_minerl_1_1 => dl_minerl_1_1 d
  | d_minerl_1_2 => dl_minerl_1_2 d
  | d_gromin_1 => dl_gromin_1 d
  | d_som2c => dl_som2c_lyr d
  | d_som2e_1 => dl_som2e_lyr_1 d
  | d_som2e_2 => dl_som2e_lyr_2 d
  | d_som1c => dl_som1c_lyr d
  | d_som1e_1 => dl_som1e_lyr_1 d
  | d_som1e_2 => dl_som1e_lyr_2 d
  end.

Definition declig_point (return_type : declig_return_type)
    (aminrl_1 aminrl_2 ligcon rsplig ps1co2_lyr strucc_lyr tcflow
     struce_lyr_1 struce_lyr_2 rnew_lyr_1_1 rnew_lyr_2_1
     rnew_lyr_1_2 rnew_lyr_2_2 minerl_1_1 minerl_1_2 : Q) : res Q :=
  d <- declig_body aminrl_1 aminrl_2 ligcon rsplig ps1co2_lyr strucc_lyr
         tcflow struce_lyr_1 struce_lyr_2 rnew_lyr_1_1 rnew_lyr_2_1
         rnew_lyr_1_2 rnew_lyr_2_2 minerl_1_1 minerl_1_2 ;;
  Ret (declig_select return_type d).

(** The decompose mask in the words of the specification: for N (index 1)
    and for P (index 2), either the averaged mineral element is above 1e-7
    or the C/element ratio of the donating pool is at most the ratio required
    for decomposition to SOM1. *)
Definition mask_holds
    (aminrl_1 aminrl_2 strucc_lyr struce_lyr_1 struce_lyr_2
     rnew_lyr_1_1 rnew_lyr_2_1 : Q) : Prop :=
  (0.0000001 < aminrl_1 \/ strucc_lyr / struce_lyr_1 <= rnew_lyr_1_1) /\
  (0.0000001 < aminrl_2 \/ strucc_lyr / struce_lyr_2 <= rnew_lyr_2_1).

(** All twelve deltas at their initial value. *)
Definition no_change : declig_deltas := mk_declig 0 0 0 0 0 0 0 0 0 0 0 0.

(** *** [calc_nutrient_limitation_point] (test_forage.py, lines 742-873) *)

(** The dictionary the function returns. *)
Record nutrient_limitation : Type := mk_nutrlm {
  c_production : Q;
  eup_above_1 : Q;
  eup_below_1 : Q;
  eup_above_2 : Q;
  eup_below_2 : Q;
  plantNfix : Q
}.

(** Local variables of the function the properties below speak about,
    next to the returned dictionary. *)
Record nutrlm_locals : Type := mk_locals {
  l_cfrac_below : Q;
  l_cfrac_above : Q;
  l_demand_1 : Q;
  l_demand_2 : Q;
  l_cpbe_1 : Q;
  l_cpbe_2 : Q;
  l_eprodl_1 : Q;       (* after the precision cap *)
  l_result : nutrient_limitation
}.

(** The block that sets [(ecfor_above, ecfor_below)] from supply and demand;
    the source has it once for N (lines 807-822) and once for P (lines
    828-843), the same but for the index. *)
Definition ecfor_block (eavail demand maxeci_above mineci_above
    maxeci_below mineci_below : Q) : res (Q * Q) :=
  if Qgtb eavail demand then
    (* if supply is sufficient, E/C ratio of new production is the max
       demanded *)
    Ret (maxeci_above, maxeci_below)
  else
    (* supply is insufficient; E/C ratio of new production is proportional
       to the ratio of supply to demand *)
    a <- ((maxeci_above - mineci_above) * eavail) // demand ;;
    b <- ((maxeci_below - mineci_below) * eavail) // demand ;;
    Ret (mineci_above + a, mineci_below + b).

Definition nutrlm_body
    (potenc rtsh eavail_1 eavail_2 snfxmx_1
     cerat_max_above_1 cerat_max_below_1 cerat_max_above_2
     cerat_max_below_2 cerat_min_above_1 cerat_min_below_1
     cerat_min_above_2 cerat_min_below_2 : Q) : res nutrlm_locals :=
  cfrac_below <- rtsh // (rtsh + 1) ;;
  let cfrac_above := 1 - cfrac_below in
  (* min/max eci is indexed to aboveground only or belowground only *)
  maxeci_above_1 <- 1 // cerat_min_above_1 ;;
  mineci_above_1 <- 1 // cerat_max_above_1 ;;
  maxeci_below_1 <- 1 // cerat_min_below_1 ;;
  mineci_below_1 <- 1 // cerat_max_below_1 ;;
  maxeci_above_2 <- 1 // cerat_min_above_2 ;;
  mineci_above_2 <- 1 // cerat_max_above_2 ;;
  maxeci_below_2 <- 1 // cerat_min_below_2 ;;
  mineci_below_2 <- 1 // cerat_max_below_2 ;;
  (* maxec is average e/c ratio across aboveground and belowground *)
  let maxec_1 := cfrac_below * maxeci_below_1 + cfrac_above * maxeci_above_1 in
  let maxec_2 := cfrac_below * maxeci_below_2 + cfrac_above * maxeci_above_2 in
  (* calculate cpbe_1, N/C ratio according to demand and supply *)
  let demand_1 := potenc * maxec_1 in
  ecfor_1 <- ecfor_block eavail_1 demand_1 maxeci_above_1 mineci_above_1
               maxeci_below_1 mineci_below_1 ;;
  let ecfor_above_1 := fst ecfor_1 in
  let ecfor_below_1 := snd ecfor_1 in
  let cpbe_1 := cfrac_below * ecfor_below_1 + cfrac_above * ecfor_above_1 in
  c_constrained_1 <- eavail_1 // cpbe_1 ;;
  (* calculate cpbe_2, P/C ratio according to demand and supply *)
  let demand_2 := potenc * maxec_2 in
  ecfor_2 <- ecfor_block eavail_2 demand_2 maxeci_above_2 mineci_above_2
               maxeci_below_2 mineci_below_2 ;;
  let ecfor_above_2 := fst ecfor_2 in
  let ecfor_below_2 := snd ecfor_2 in
  let cpbe_2 := cfrac_below * ecfor_below_2 + cfrac_above * ecfor_above_2 in
  c_constrained_2 <- eavail_2 // cpbe_2 ;;
  (* C production limited by nutrient availability *)
  let cprodl := Qmin (Qmin potenc c_constrained_1) c_constrained_2 in
  let eup_above_1 := cprodl * cfrac_above * ecfor_above_1 in
  let eup_below_1 := cprodl * cfrac_below * ecfor_below_1 in
  let eprodl_1 := eup_above_1 + eup_below_1 in
  let eup_above_2 := cprodl * cfrac_above * ecfor_above_2 in
  let eup_below_2 := cprodl * cfrac_below * ecfor_below_2 in
  (* "prevent precision error" *)
  let maxNfix := snfxmx_1 * cprodl in
  let eprodl_1 :=
    if Qgtb (eprodl_1 - (eavail_1 + maxNfix)) 0.05
    then eavail_1 + maxNfix else eprodl_1 in
  let plantNfix := Qmax (eprodl_1 - eavail_1) 0 in
  Ret (mk_locals cfrac_below cfrac_above demand_1 demand_2 cpbe_1 cpbe_2
         eprodl_1
         (mk_nutrlm cprodl eup_above_1 eup_below_1 eup_above_2 eup_below_2
            plantNfix)).

Definition calc_nutrient_limitation_point
    (potenc rtsh eavail_1 eavail_2 snfxmx_1
     cerat_max_above_1 cerat_max_below_1 cerat_max_above_2
     cerat_max_below_2 cerat_min_above_1 cerat_min_below_1
     cerat_min_above_2 cerat_min_below_2 : Q) : res nutrient_limitation :=
  l <- nutrlm_body potenc rtsh eavail_1 eavail_2 snfxmx_1
         cerat_max_above_1 cerat_max_below_1 cerat_max_above_2
         cerat_max_below_2 cerat_min_above_1 cerat_min_below_1
         cerat_min_above_2 cerat_min_below_2 ;;
  Ret (l_result l).

(** The element/carbon ratio of new production in the words of the
    specification: the minimum and maximum ratios, each averaged over above-
    and belowground production with the carbon fractions derived from [rtsh],
    blended by the ratio of supply to demand (at most one). *)
Definition cpbe_blend (potenc rtsh eavail
    cerat_max_above cerat_max_below cerat_min_above cerat_min_below : Q) : Q :=
  let cfrac_below := rtsh / (rtsh + 1) in
  let cfrac_above := 1 / (rtsh + 1) in
  let minec := cfrac_below / cerat_max_below + cfrac_above / cerat_max_above in
  let maxec := cfrac_below / cerat_min_below + cfrac_above / cerat_min_above in
  let supply_ratio := Qmin 1 (eavail / (potenc * maxec)) in
  minec + (maxec - minec) * supply_ratio.

(** *** [update_gross_mineralization] *)

(** Modelled from the spec: [forage.update_gross_mineralization] is defined in
    the model module, of which only the tests are among the sources.  The
    specification gives it cell by cell: "returns [g + flow] if [flow > 0],
    else returns [g] unchanged". *)
Definition update_gross_mineralization (gross_mineralization flow : Q) : Q :=
  if Qgtb flow 0 then gross_mineralization + flow else gross_mineralization.

(** *** [calc_c_leach] *)

(** Modelled from the spec: [forage.calc_c_leach] is defined in the model
    module, of which only the tests are among the sources.  The specification
    gives the leaching intensity as "derived from the ratio of layer
    percolation ([amov]) to a leaching-threshold parameter, clipped to [0,1]",
    and leaching in proportion to it.  The threshold [omlech_3] is a positive
    parameter; the quotient is the total one of [Q]. *)
Definition linten (amov omlech_3 : Q) : Q :=
  Qmax 0 (Qmin (amov / omlech_3) 1).

(** Modelled from the spec: see [linten]; leached carbon is the carbon flow
    times the leaching fraction [orglch] times the intensity. *)
Definition calc_c_leach (amov_2 tcflow omlech_3 orglch : Q) : Q :=
  tcflow * orglch * linten amov_2 omlech_3.

(** *** [monthly_N_fixation_point] (test_forage.py, lines 217-241) *)

Definition monthly_N_fixation_point
    (precip annual_precip baseNdep epnfs_2 prev_minerl_1_1 : Q) : res Q :=
  share <- precip // annual_precip ;;
  share' <- precip // annual_precip ;;
  let wdfxm :=
    baseNdep * share + epnfs_2 * Qmin annual_precip 100 * share' in
  Ret (prev_minerl_1_1 + wdfxm).

(** The function applied month after month, each month to the mineral N the
    month before left. *)
Fixpoint N_fixation_over (months : list Q)
    (annual_precip baseNdep epnfs_2 minerl_1_1 : Q) : res Q :=
  match months with
  | [] => Ret minerl_1_1
  | precip :: rest =>
      m <- monthly_N_fixation_point precip annual_precip baseNdep epnfs_2
             minerl_1_1 ;;
      N_fixation_over rest annual_precip baseNdep epnfs_2 m
  end.

Definition Qsum (l : list Q) : Q := fold_right Qplus 0 l.

(** *** [calc_anerb_point] (test_forage.py, lines 315-351) *)

Definition calc_anerb_point
    (rprpet pevap drain aneref_1 aneref_2 aneref_3 : Q) : res Q :=
  let anerb := 1 in
  if Qgtb rprpet aneref_1 then
    let xh2o := (rprpet - aneref_1) * pevap * (1 - drain) in
    anerb <-
      (if Qgtb xh2o 0 then
         q <- xh2o // pevap ;;
         let newrat := aneref_1 + q in
         slope <- (1 - aneref_3) // (aneref_1 - aneref_2) ;;
         Ret (1 + slope * (newrat - aneref_1))
       else Ret anerb) ;;
    Ret (Qmax anerb aneref_3)
  else Ret anerb.

(** *** [bgdrat_point] (test_forage.py, lines 354-382) *)

Definition bgdrat_point (aminrl varat_1_iel varat_2_iel varat_3_iel : Q)
    : res Q :=
  if Qle_bool aminrl 0 then Ret varat_1_iel
  else if Qgtb aminrl varat_3_iel then Ret varat_2_iel
  else
    q <- aminrl // varat_3_iel ;;
    Ret ((1 - q) * (varat_1_iel - varat_2_iel) + varat_2_iel).

(** *** [agdrat_point] (test_forage.py, lines 688-715) *)

Definition agdrat_point (anps tca pcemic_1_iel pcemic_2_iel pcemic_3_iel : Q)
    : res Q :=
  cemicb <- (pcemic_2_iel - pcemic_1_iel) // pcemic_3_iel ;;
  econt <-
    (if Qle_bool (tca * 2.5) 0.0000000001 then Ret 0
     else anps // (tca * 2.5)) ;;
  if Qgtb econt pcemic_3_iel then Ret pcemic_2_iel
  else Ret (pcemic_1_iel + econt * cemicb).

(** *** [calc_tcflow_surface_point] and [calc_tcflow_soil_point]
    (test_forage.py, lines 6480-6494 and 6620-6635) *)

(** [numpy.clip(a, a_min, a_max)]: [minimum(a_max, maximum(a, a_min))]. *)
Definition clip (a a_min a_max : Q) : Q := Qmin a_max (Qmax a a_min).

Definition calc_tcflow_surface_point
    (aminrl_1 aminrl_2 metabc_1 metabe_1_1 metabe_1_2 rceto1_1 rceto1_2
     defac dec2_1 pheff_metab : Q) : res Q :=
  mask <- decompose_mask aminrl_1 aminrl_2 metabc_1 metabe_1_1 metabe_1_2
            rceto1_1 rceto1_2 ;;
  if mask then
    Ret (clip (metabc_1 * defac * dec2_1 * 0.020833 * pheff_metab) 0 metabc_1)
  else Ret 0.

Definition calc_tcflow_soil_point
    (aminrl_1 aminrl_2 metabc_2 metabe_2_1 metabe_2_2 rceto1_1 rceto1_2
     defac dec2_2 pheff_metab anerb : Q) : res Q :=
  mask <- decompose_mask aminrl_1 aminrl_2 metabc_2 metabe_2_1 metabe_2_2
            rceto1_1 rceto1_2 ;;
  if mask then
    Ret (clip (metabc_2 * defac * dec2_2 * 0.020833 * pheff_metab * anerb)
           0 metabc_2)
  else Ret 0.

(** *** [snow_point] (test_forage.py, lines 3290-3354) *)

Record snow_result : Type := mk_snow {
  sn_snowmelt : Q;
  sn_snow : Q;
  sn_snlq : Q;
  sn_pet : Q;
  sn_inputs_after_snow : Q
}.

Definition snow_point
    (precip max_temp min_temp snow snlq pet tmelt_1 tmelt_2 shwave : Q)
    : res snow_result :=
  let tave := (max_temp + min_temp) / 2 in
  let inputs_after_snow := precip in
  (* precip falls as snow when temperature is below freezing *)
  let '(snow, snlq, inputs_after_snow) :=
    if Qle_bool tave 0 then (snow + precip, snlq, 0)
    else if Qgtb snow 0 then (snow, snlq + precip, 0)
    else (snow, snlq, inputs_after_snow) in
  let snowmelt := 0 in
  if Qgtb snow 0 then
    let snowtot := snow + snlq in
    let evsnow := Qmin snowtot (pet * 0.87) in
    fsnow <- snow // snowtot ;;
    let snow := Qmax (snow - evsnow * fsnow) 0 in
    fsnlq <- snlq // snowtot ;;
    let snlq := Qmax (snlq - evsnow * fsnlq) 0 in
    let pet := Qmax (pet - evsnow / 0.87) 0 in
    if Qle_bool tmelt_1 tave then
      let snowmelt := tmelt_2 * (tave - tmelt_1) * shwave in
      let snowmelt := Qmax snowmelt 0 in
      let snowmelt := Qmin snowmelt snow in
      let snow := snow - snowmelt in
      let snlq := snlq + snowmelt in
      if Qgtb snlq (0.5 * snow) then
        let add := snlq - 0.5 * snow in
        let snlq := snlq - add in
        let inputs_after_snow := add in
        Ret (mk_snow snowmelt snow snlq pet inputs_after_snow)
      else Ret (mk_snow snowmelt snow snlq pet inputs_after_snow)
    else Ret (mk_snow snowmelt snow snlq pet inputs_after_snow)
  else Ret (mk_snow snowmelt snow snlq pet inputs_after_snow).

(** *** [partit_point] (test_forage.py, lines 7146-7272) *)

Record partit_result : Type := mk_partit {
  mod_minerl_1_1 : Q;
  mod_minerl_1_2 : Q;
  mod_metabc_lyr : Q;
  mod_strucc_lyr : Q;
  mod_struce_lyr_1 : Q;
  mod_metabe_lyr_1 : Q;
  mod_struce_lyr_2 : Q;
  mod_metabe_lyr_2 : Q;
  mod_strlig_lyr : Q
}.

(** Direct absorption of one mineral element by the residue; the source has
    the block once for N (lines 7207-7218) and once for P (lines 7220-7231),
    the same but for the index. *)
Definition dirabs_block (minerl damr_lyr cpart pabres epart damrmn : Q)
    : res Q :=
  dirabs <-
    (if Qgtb 0 minerl then Ret 0
     else
       q <- cpart // pabres ;;
       Ret (damr_lyr * minerl * Qmax q 1)) ;;
  (* rcetot: C/E ratio of incoming material *)
  rcetot <-
    (if Qle_bool (epart + dirabs) 0 then Ret 0
     else cpart // (epart + dirabs)) ;;
  if Qgtb damrmn rcetot then
    q <- cpart // damrmn ;;
    Ret (Qmax (q - epart) 0)
  else Ret dirabs.

Definition partit_point
    (cpart epart_1 epart_2 damr_lyr_1 damr_lyr_2 minerl_1_1 minerl_1_2
     damrmn_1 damrmn_2 pabres frlign spl_1 spl_2 rcestr_1 rcestr_2
     strlig_lyr strucc_lyr metabc_lyr struce_lyr_1 metabe_lyr_1
     struce_lyr_2 metabe_lyr_2 : Q) : res partit_result :=
  dirabs_1 <- dirabs_block minerl_1_1 damr_lyr_1 cpart pabres epart_1
                damrmn_1 ;;
  dirabs_2 <- dirabs_block minerl_1_2 damr_lyr_2 cpart pabres epart_2
                damrmn_2 ;;
  (* rlnres: ratio of lignin to N in the incoming material *)
  econc <- (epart_1 + dirabs_1) // (cpart * 2.5) ;;
  rlnres <- frlign // econc ;;
  (* frmet: fraction of incoming C that goes to metabolic *)
  let frmet := spl_1 - spl_2 * rlnres in
  let frmet := if Qgtb frlign (1 - frmet) then 1 - frlign else frmet in
  let d_metabc_lyr := cpart * frmet in
  let d_strucc_lyr := cpart - d_metabc_lyr in
  d_struce_lyr_1 <- d_strucc_lyr // rcestr_1 ;;
  let d_metabe_lyr_1 := epart_1 + dirabs_1 - d_struce_lyr_1 in
  d_struce_lyr_2 <- d_strucc_lyr // rcestr_2 ;;
  let d_metabe_lyr_2 := epart_2 + dirabs_2 - d_struce_lyr_2 in
  (* fligst: fraction of material to structural which is lignin *)
  sfrac <- d_strucc_lyr // cpart ;;
  lfrac <- frlign // sfrac ;;
  let fligst := Qmin lfrac 1 in
  strlig_lyr_mod <-
    (strlig_lyr * strucc_lyr + fligst * d_strucc_lyr) //
    (strucc_lyr + d_strucc_lyr) ;;
  let d_strlig_lyr := strlig_lyr_mod - strlig_lyr in
  Ret (mk_partit (minerl_1_1 - dirabs_1) (minerl_1_2 - dirabs_2)
         (metabc_lyr + d_metabc_lyr) (strucc_lyr + d_strucc_lyr)
         (struce_lyr_1 + d_struce_lyr_1) (metabe_lyr_1 + d_metabe_lyr_1)
         (struce_lyr_2 + d_struce_lyr_2) (metabe_lyr_2 + d_metabe_lyr_2)
         (strlig_lyr + d_strlig_lyr)).

(** *** [assert_all_values_in_array_within_range]
    (test_forage.py, lines 1102-1133) *)

(** [numpy.amin] and [numpy.amax] of a non-empty array. *)
Definition amin (x : Q) (l : list Q) : Q := fold_left Qmin l x.
Definition amax (x : Q) (l : list Q) : Q := fold_left Qmax l x.

(** The array is given flattened; [true] when no assertion fails. *)
Definition assert_all_values_in_array_within_range
    (array_to_test : list Q)
    (minimum_acceptable_value maximum_acceptable_value nodata_value : Q)
    : bool :=
  match filter (fun v => negb (Qeq_bool v nodata_value)) array_to_test with
  | [] => true
  | v :: valid =>
      Qle_bool minimum_acceptable_value (amin v valid) &&
      Qle_bool (amax v valid) maximum_acceptable_value
  end.

End Forage.


(** ** Point functions that call [math.exp] and [numpy.arctan] *)

Module Climate.

Open Scope R_scope.

(** *** [defac_point] (test_forage.py, lines 269-312) *)

(** Water term: [agwfunc]. *)
Definition agwfunc (rprpet : R) : R :=
  if Rgt_dec rprpet 9 then 1
  else 1 / (1 + 30 * exp (-8.5 * rprpet)).

(** Soil temperature: [stemp]. *)
Definition stemp (snow min_temp max_temp : R) : R :=
  if Rgt_dec snow 0 then 0
  else (min_temp + max_temp) / 2.

(** The arctangent curve that is evaluated at [stemp] and at 30 degrees. *)
Definition tcurve (teff_1 teff_2 teff_3 teff_4 t : R) : R :=
  teff_2 + (teff_3 / PI) * atan (PI * teff_4 * (t - teff_1)).

Definition tfunc (snow min_temp max_temp teff_1 teff_2 teff_3 teff_4 : R) : R :=
  Rmax 0.01
    (tcurve teff_1 teff_2 teff_3 teff_4 (stemp snow min_temp max_temp) /
     tcurve teff_1 teff_2 teff_3 teff_4 30).

Definition defac_point
    (snow min_temp max_temp rprpet teff_1 teff_2 teff_3 teff_4 : R) : R :=
  Rmax 0
    (tfunc snow min_temp max_temp teff_1 teff_2 teff_3 teff_4 *
     agwfunc rprpet).

(** *** [potential_transpiration_point] (test_forage.py, lines 4059-4098) *)

Record transpiration : Type := mk_transpiration {
  trap : R;
  pevp : R;
  modified_moisture_inputs : R
}.

(** Potential transpiration from the saturation curve: [pttr]. *)
Definition pttr (pet_rem tave aliv : R) : R :=
  if Rlt_dec tave 2 then 0
  else pet_rem * 0.65 * (1 - exp (-0.02 * aliv)).

(** Transpiration demand [trap] as it stands before water inputs are set
    against it. *)
Definition trap_demand (pet_rem evap_losses tave aliv : R) : R :=
  let trap := pet_rem - evap_losses in
  let trap := if Rle_dec (pttr pet_rem tave aliv) trap
              then pttr pet_rem tave aliv else trap in
  if Rle_dec trap 0 then 0.01 else trap.

(** Water taken from the inputs to meet the demand: [tran]. *)
Definition tran (pet_rem evap_losses tave aliv current_moisture_inputs : R) : R :=
  Rmin (trap_demand pet_rem evap_losses tave aliv - 0.01)
       current_moisture_inputs.

Definition potential_transpiration_point
    (pet_rem evap_losses tave aliv current_moisture_inputs : R)
    : transpiration :=
  let trap := trap_demand pet_rem evap_losses tave aliv in
  let pevp := Rmax (pet_rem - trap - evap_losses) 0 in
  let tran := tran pet_rem evap_losses tave aliv current_moisture_inputs in
  let trap := trap - tran in
  let modified_moisture_inputs := current_moisture_inputs - tran in
  mk_transpiration trap pevp modified_moisture_inputs.

(** *** [fsfunc_point] (test_forage.py, lines 718-739) *)

(** [sqrt] is the real square root; the properties below keep its argument
    non-negative, where [numpy.sqrt] agrees with it. *)

Definition fsfunc_point (minerl_1_2 pslsrb sorpmx : R) : R :=
  if Req_dec_T minerl_1_2 0 then 0
  else
    let c := sorpmx * (2 - pslsrb) / 2 in
    let b := sorpmx - minerl_1_2 + c in
    let labile := (- b + sqrt (b * b + 4 * c * minerl_1_2)) / 2 in
    let fsol := labile / minerl_1_2 in
    fsol.

(** *** [surface_losses_point] (test_forage.py, lines 3737-3786) *)

Record surface_losses : Type := mk_surface_losses {
  inputs_after_surface : R;
  absevap : R;
  evap_losses : R
}.

Definition runoff (inputs_after_snow fracro precro : R) : R :=
  Rmax (fracro * (inputs_after_snow - precro)) 0.

Definition surface_losses_point
    (inputs_after_snow fracro precro snow alit sd fwloss_1 fwloss_2
     pet_rem : R) : surface_losses :=
  let runoff := runoff inputs_after_snow fracro precro in
  let inputs_after_runoff := inputs_after_snow - runoff in
  if Req_dec_T snow 0 then
    let aint := (0.0003 * alit + 0.0006 * sd) * fwloss_1 in
    let absevap :=
      0.5 * exp ((-0.002 * alit) - (0.004 * sd)) * fwloss_2 in
    let evap_losses :=
      Rmin ((absevap + aint) * inputs_after_runoff) (0.4 * pet_rem) in
    let inputs_after_surface := inputs_after_runoff - evap_losses in
    mk_surface_losses inputs_after_surface absevap evap_losses
  else
    let absevap := 0 in
    let evap_losses := 0 in
    let inputs_after_surface := inputs_after_runoff - evap_losses in
    mk_surface_losses inputs_after_surface absevap evap_losses.

End Climate.

(** ** Nutrient uptake and leaching: reals, dictionaries and exceptions *)

Module Soil.
Local Open Scope R_scope.

Inductive error : Type :=
| ZeroDivision
| KeyError (key : string) (lyr : nat)      (* key pattern and layer *)
| UnboundLocalError (name : string)
| ValueError.                     (* [max()] of an empty sequence *)

Inductive outcome (A : Type) : Type :=
| Ok (a : A)
| Err (e : error).
Arguments Ok {A} a.
Arguments Err {A} e.

Definition obind {A B : Type} (m : outcome A) (k : A -> outcome B)
    : outcome B :=
  match m with
  | Ok a => k a
  | Err e => Err e
  end.

Notation "x <-- m ;; k" := (obind m (fun x => k))
  (at level 61, m at next level, right associativity).

(** Float division: a zero divisor raises. *)
Definition rdiv (x y : R) : outcome R :=
  if Req_dec_T y 0 then Err ZeroDivision else Ok (x / y).

(** The dictionaries hold one value per soil layer; [d lyr] is the entry
    under the key made from the layer number ([minerl_<lyr>_iel] for
    [nutrient_uptake_point]). *)
Definition layer_dict : Type := nat -> option R.

Definition lookup (key : string) (d : layer_dict) (lyr : nat) : outcome R :=
  match d lyr with
  | Some x => Ok x
  | None => Err (KeyError key lyr)
  end.

Definition update (d : layer_dict) (lyr : nat) (x : R) : layer_dict :=
  fun l => if Nat.eqb l lyr then Some x else d l.

(** *** [nutrient_uptake_point] (test_forage.py, lines 876-998) *)

Record uptake : Type := mk_uptake {
  up_delta_aglive_iel : R;
  up_aglive_iel : R;
  up_bglive_iel : R;
  up_storage_iel : R;
  up_minerl_1_iel : R;
  up_minerl_2_iel : R;
  up_minerl_3_iel : R;
  up_minerl_4_iel : R;
  up_minerl_5_iel : R;
  up_minerl_6_iel : R;
  up_minerl_7_iel : R
}.

(** What the function carries from one step to the next. *)
Record uptake_state : Type := mk_ustate {
  st_delta_aglive_iel : R;
  st_bglive_iel : R;
  st_minerl_dict_copy : layer_dict
}.

(** Lines 935-947; [uptake_Nfix] is [None] where no branch assigns it. *)
Definition uptake_sources (iel : Z)
    (eprodl_iel eavail_iel storage_iel plantNfix : R)
    : R * R * option R :=
  if Rlt_dec eprodl_iel storage_iel then
    (eprodl_iel, 0, None)
  else if Z.eqb iel 1 then
    (storage_iel,
     Rmin (eprodl_iel - storage_iel - plantNfix)
          (eavail_iel - storage_iel - plantNfix),
     Some plantNfix)
  else
    (storage_iel, eprodl_iel - storage_iel, None).

(** Lines 960-977: one pass of the loop over the layers. *)
Definition uptake_layer (iel : Z)
    (availm pft_percent_cover eup_above_iel eup_below_iel eprodl_iel
     uptake_soil pslsrb sorpmx : R) (minerl_dict : layer_dict)
    (s : uptake_state) (lyr : nat) : outcome uptake_state :=
  m <-- lookup "minerl_{}_iel" minerl_dict lyr ;;
  if Rgt_dec m 0 then
    fsol <-- (if Z.eqb iel 2 then
                m1 <-- lookup "minerl_{}_iel" minerl_dict 1 ;;
                Ok (Climate.fsfunc_point m1 pslsrb sorpmx)
              else Ok 1) ;;
    minerl_uptake_lyr <-- rdiv (uptake_soil * m * fsol) availm ;;
    let copy := update (st_minerl_dict_copy s) lyr
                  (m - minerl_uptake_lyr * pft_percent_cover) in
    above <-- rdiv eup_above_iel eprodl_iel ;;
    let uptake_minerl_lyr_above := minerl_uptake_lyr * above in
    below <-- rdiv eup_below_iel eprodl_iel ;;
    let uptake_minerl_lyr_below := minerl_uptake_lyr * below in
    Ok (mk_ustate (st_delta_aglive_iel s + uptake_minerl_lyr_above)
                  (st_bglive_iel s + uptake_minerl_lyr_below) copy)
  else Ok s.

(** [for lyr in range(1, nlay + 1)], over the list of layers. *)
Fixpoint uptake_layers (step : uptake_state -> nat -> outcome uptake_state)
    (layers : list nat) (s : uptake_state) : outcome uptake_state :=
  match layers with
  | [] => Ok s
  | lyr :: rest => s' <-- step s lyr ;; uptake_layers step rest s'
  end.

Definition nutrient_uptake_point (iel : Z) (nlay : nat)
    (availm eavail_iel pft_percent_cover eup_above_iel eup_below_iel
     storage_iel plantNfix pslsrb sorpmx aglive_iel bglive_iel : R)
    (minerl_dict : layer_dict) : outcome uptake :=
  let delta_aglive_iel := 0 in
  let eprodl_iel := eup_above_iel + eup_below_iel in
  let '(uptake_storage, uptake_soil, uptake_Nfix) :=
    uptake_sources iel eprodl_iel eavail_iel storage_iel plantNfix in
  (* uptake from crop storage into aboveground and belowground live *)
  st <-- (if Rgt_dec storage_iel 0 then
            above <-- rdiv eup_above_iel eprodl_iel ;;
            let uptake_storage_above := uptake_storage * above in
            below <-- rdiv eup_below_iel eprodl_iel ;;
            let uptake_storage_below := uptake_storage * below in
            Ok (storage_iel - uptake_storage,
                mk_ustate (delta_aglive_iel + uptake_storage_above)
                          (bglive_iel + uptake_storage_below) minerl_dict)
          else Ok (storage_iel,
                   mk_ustate delta_aglive_iel bglive_iel minerl_dict)) ;;
  (* uptake from each soil layer in proportion to its contribution to
     availm *)
  s <-- uptake_layers
          (uptake_layer iel availm pft_percent_cover eup_above_iel
             eup_below_iel eprodl_iel uptake_soil pslsrb sorpmx minerl_dict)
          (seq 1 nlay) (snd st) ;;
  (* uptake from N fixation *)
  s <-- (if Z.eqb iel 1 && (if Rgt_dec plantNfix 0 then true else false)
         then
           match uptake_Nfix with
           | None => Err (UnboundLocalError "uptake_Nfix")
           | Some uptake_Nfix =>
               above <-- rdiv eup_above_iel eprodl_iel ;;
               let uptake_Nfix_above := uptake_Nfix * above in
               below <-- rdiv eup_below_iel eprodl_iel ;;
               let uptake_Nfix_below := uptake_Nfix * below in
               Ok (mk_ustate (st_delta_aglive_iel s + uptake_Nfix_above)
                             (st_bglive_iel s + uptake_Nfix_below)
                             (st_minerl_dict_copy s))
           end
         else Ok s) ;;
  m1 <-- lookup "minerl_{}_iel" (st_minerl_dict_copy s) 1 ;;
  m2 <-- lookup "minerl_{}_iel" (st_minerl_dict_copy s) 2 ;;
  m3 <-- lookup "minerl_{}_iel" (st_minerl_dict_copy s) 3 ;;
  m4 <-- lookup "minerl_{}_iel" (st_minerl_dict_copy s) 4 ;;
  m5 <-- lookup "minerl_{}_iel" (st_minerl_dict_copy s) 5 ;;
  m6 <-- lookup "minerl_{}_iel" (st_minerl_dict_copy s) 6 ;;
  m7 <-- lookup "minerl_{}_iel" (st_minerl_dict_copy s) 7 ;;
  Ok (mk_uptake (st_delta_aglive_iel s) aglive_iel (st_bglive_iel s)
                (fst st) m1 m2 m3 m4 m5 m6 m7).

(** The part of a layer the loop draws on: its content where positive. *)
Definition positive_part (d : layer_dict) (lyr : nat) : R :=
  match d lyr with
  | Some m => if Rgt_dec m 0 then m else 0
  | None => 0
  end.

Definition positive_sum (d : layer_dict) (layers : list nat) : R :=
  fold_right (fun lyr acc => positive_part d lyr + acc) 0 layers.

(** A dictionary with the keys of layers 1 to [length ms]. *)
Definition dict_of (ms : list R) : layer_dict :=
  fun lyr => match lyr with O => None | S i => nth_error ms i end.

(** *** [leach_point] (test_forage.py, lines 8796-8835) *)

(** The mineral dictionary has one entry per layer and element;
    [d lyr iel] is the entry under [minerl_<lyr>_<iel>]. *)
Definition minerl_dict : Type := nat -> nat -> option R.

Definition lookup2 (d : minerl_dict) (lyr iel : nat) : outcome R :=
  match d lyr iel with
  | Some x => Ok x
  | None => Err (KeyError "minerl_{}_{}" lyr)
  end.

Definition update2 (d : minerl_dict) (lyr iel : nat) (x : R) : minerl_dict :=
  fun l i => if Nat.eqb l lyr && Nat.eqb i iel then Some x else d l i.

(** [numpy.clip(x, 0., 1.)] *)
Definition clip01 (x : R) : R := Rmin 1 (Rmax x 0).

(** Lines 8815-8834: one layer of one element. *)
(** A dictionary with the keys of layers 1 to [length ns] for element 1
    and 1 to [length ps] for element 2. *)
Definition minerl_dict_of (ns ps : list R) : minerl_dict :=
  fun lyr iel =>
    match iel with
    | 1%nat => dict_of ns lyr
    | 2%nat => dict_of ps lyr
    | _ => None
    end.

Definition leach_layer (amov_dict : layer_dict) (minlch frlech : R)
    (iel : nat) (ending_minerl_dict : minerl_dict) (lyr : nat)
    : outcome minerl_dict :=
  amov <-- lookup "amov_{}" amov_dict lyr ;;
  q <-- rdiv (minlch - amov) minlch ;;
  let linten := clip01 (1 - q) in
  cur <-- lookup2 ending_minerl_dict lyr iel ;;
  let amount_leached := frlech * cur * linten in
  let ending_minerl_dict :=
    update2 ending_minerl_dict lyr iel (cur - amount_leached) in
  match ending_minerl_dict (S lyr) iel with
  | Some below =>
      Ok (update2 ending_minerl_dict (S lyr) iel (below + amount_leached))
  | None =>
      (* nutrient leaving bottom layer does not need to be tracked *)
      Ok ending_minerl_dict
  end.

Fixpoint leach_layers (step : minerl_dict -> nat -> outcome minerl_dict)
    (layers : list nat) (d : minerl_dict) : outcome minerl_dict :=
  match layers with
  | [] => Ok d
  | lyr :: rest => d' <-- step d lyr ;; leach_layers step rest d'
  end.

(** [starting_minerl_dict] is the variable of the enclosing test that the
    body reads; the parameter [starting_mineral_dict] is not used. *)
Definition leach_point (starting_minerl_dict : minerl_dict)
    (starting_mineral_dict : minerl_dict) (amov_dict : layer_dict)
    (sand minlch fleach_1 fleach_2 fleach_3 fleach_4 pslsrb sorpmx : R)
    : outcome minerl_dict :=
  let ending_minerl_dict := starting_minerl_dict in
  minerl_1_2 <-- lookup2 starting_minerl_dict 1 2 ;;
  let fsol := Climate.fsfunc_point minerl_1_2 pslsrb sorpmx in
  (* iel = 1 *)
  let frlech := (fleach_1 + fleach_2 * sand) * fleach_3 in
  ending_minerl_dict <--
    leach_layers (leach_layer amov_dict minlch frlech 1) [1; 2; 3; 4]%nat
      ending_minerl_dict ;;
  (* iel = 2 *)
  let frlech := (fleach_1 + fleach_2 * sand) * fleach_4 * fsol in
  ending_minerl_dict <--
    leach_layers (leach_layer amov_dict minlch frlech 2) [1; 2; 3; 4]%nat
      ending_minerl_dict ;;
  Ok ending_minerl_dict.

(** *** [soil_water_point] (test_forage.py, lines 4719-4902) *)

(** One plant functional type of [pft_dict], with the entries the function
    reads; [nlaypg] is a count of layers. *)
Record pft : Type := mk_pft {
  cover : R;
  aglivc : R;
  stdedc : R;
  tgprod : R;
  nlaypg : nat
}.

(** [pft_dict], in the order of its keys. *)
Definition pft_dict : Type := list (nat * pft).

(** The dictionaries keyed by the layers [1 .. nlaypg_max] are lists, the
    entry of layer [lyr] at position [lyr - 1]. *)
Definition layer (key : string) (d : list R) (lyr : nat) : outcome R :=
  match lyr with
  | O => Err (KeyError key lyr)
  | S i => match nth_error d i with
           | Some x => Ok x
           | None => Err (KeyError key lyr)
           end
  end.

(** [sum([... for pft_i in pft_dict])] *)
Definition cover_weighted (f : pft -> R) (d : pft_dict) : R :=
  fold_left (fun acc p => acc + f (snd p) * cover (snd p)) d 0.

(** [max(pft_dict[pft_i]['nlaypg'] for pft_i in pft_dict)] *)
Definition nlaypg_max (d : pft_dict) : outcome nat :=
  match d with
  | [] => Err ValueError
  | p :: rest =>
      Ok (fold_left (fun m q => Nat.max m (nlaypg (snd q))) rest
            (nlaypg (snd p)))
  end.

(** Lines 4769-4797: snowfall, sublimation and melt; gives [snow], [snlq],
    [inputs_after_snow] and [pet_rem]. *)
Definition soil_water_snow
    (precip max_temp min_temp snow snlq pet tmelt_1 tmelt_2 shwave : R)
    : outcome (R * R * R * R) :=
  let tave := (max_temp + min_temp) / 2 in
  let inputs_after_snow := precip in
  let '(snow, snlq, inputs_after_snow) :=
    if Rle_dec tave 0 then (snow + precip, snlq, 0)
    else if Rgt_dec snow 0 then (snow, snlq + precip, 0)
    else (snow, snlq, inputs_after_snow) in
  if Rgt_dec snow 0 then
    let snowtot := snow + snlq in
    let evsnow := Rmin snowtot (pet * 0.87) in
    share <-- rdiv snow snowtot ;;
    let snow := Rmax (snow - evsnow * share) 0 in
    share <-- rdiv snlq snowtot ;;
    let snlq := Rmax (snlq - evsnow * share) 0 in
    let pet_rem := Rmax (pet - evsnow / 0.87) 0 in
    if Rge_dec tave tmelt_1 then
      let snowmelt := tmelt_2 * (tave - tmelt_1) * shwave in
      let snowmelt := Rmax snowmelt 0 in
      let snowmelt := Rmin snowmelt snow in
      let snow := snow - snowmelt in
      let snlq := snlq + snowmelt in
      if Rgt_dec snlq (0.5 * snow) then
        let add := snlq - 0.5 * snow in
        let snlq := snlq - add in
        let inputs_after_snow := add in
        Ok (snow, snlq, inputs_after_snow, pet_rem)
      else Ok (snow, snlq, inputs_after_snow, pet_rem)
    else Ok (snow, snlq, inputs_after_snow, pet_rem)
  else
    let pet_rem := pet in
    Ok (snow, snlq, inputs_after_snow, pet_rem).

(** Lines 4799-4837: canopy and litter, surface losses and potential
    transpiration; gives [trap], [pevp], [absevap] and
    [modified_moisture_inputs]. *)
Definition soil_water_surface
    (tave snow inputs_after_snow pet_rem strucc_1 metabc_1 fracro precro
     fwloss_1 fwloss_2 : R) (d : pft_dict) : R * R * R * R :=
  let sum_aglivc := cover_weighted aglivc d in
  let sum_stdedc := cover_weighted stdedc d in
  let sum_tgprod := cover_weighted tgprod d in
  let alit := Rmin ((strucc_1 + metabc_1) * 2.5) 400 in
  let aliv := sum_aglivc * 2.5 + (0.25 * sum_tgprod) in
  let sd := Rmin (aliv + (sum_stdedc * 2.5)) 800 in
  (* surface losses *)
  let runoff := Rmax (fracro * (inputs_after_snow - precro)) 0 in
  let inputs_after_surface := inputs_after_snow - runoff in
  let '(absevap, evap_losses) :=
    if Req_dec_T snow 0 then
      let aint := (0.0003 * alit + 0.0006 * sd) * fwloss_1 in
      let absevap :=
        0.5 * exp ((-0.002 * alit) - (0.004 * sd)) * fwloss_2 in
      (absevap,
       Rmin ((absevap + aint) * inputs_after_surface) (0.4 * pet_rem))
    else (0, 0) in
  let inputs_after_surface := inputs_after_surface - evap_losses in
  (* potential transpiration *)
  let current_moisture_inputs := inputs_after_surface in
  let trap := pet_rem - evap_losses in
  let trap :=
    if Rlt_dec tave 2 then 0
    else Rmax (Rmin trap (pet_rem * 0.65 * (1 - exp (-0.02 * aliv)))) 0 in
  let pevp := Rmax (pet_rem - trap - evap_losses) 0 in
  let tran := Rmin (trap - 0.01) current_moisture_inputs in
  let trap := trap - tran in
  let modified_moisture_inputs := current_moisture_inputs - tran in
  (trap, pevp, absevap, modified_moisture_inputs).

(** Lines 4844-4852: moisture is handed down the layers; gives
    [asmos_dict] and [amov_dict]. *)
Fixpoint distribute (afl current_moisture_inputs : R) (asmos_dict : list R)
    : list R * list R :=
  match asmos_dict with
  | [] => ([], [])
  | asmos_lyr :: rest =>
      let asmos_lyr := asmos_lyr + current_moisture_inputs in
      let '(asmos_lyr, amov_lyr) :=
        if Rgt_dec asmos_lyr afl then (afl, asmos_lyr)
        else (asmos_lyr, 0) in
      let '(asmos_rest, amov_rest) := distribute afl amov_lyr rest in
      (asmos_lyr :: asmos_rest, amov_lyr :: amov_rest)
  end.

(** Lines 4868-4872: transpiration from each layer; gives [avinj_dict] and
    [asmos_dict]. *)
Fixpoint transpire (trap tot2 awilt adep awtl : R) (asmos_dict : list R)
    : outcome (list R * list R) :=
  match asmos_dict with
  | [] => Ok ([], [])
  | asmos_lyr :: rest =>
      let avinj_lyr := Rmax (asmos_lyr - awilt * adep) 0 in
      let awwt_lyr := Rmax (asmos_lyr - awilt * adep) 0 * awtl in
      q <-- rdiv (trap * awwt_lyr) tot2 ;;
      let trl := Rmin q avinj_lyr in
      r <-- transpire trap tot2 awilt adep awtl rest ;;
      Ok ((avinj_lyr - trl) :: fst r, (asmos_lyr - trl) :: snd r)
  end.

Record soil_water : Type := mk_soil_water {
  sw_snow : R;
  sw_snlq : R;
  sw_amov_2 : R;
  sw_avh2o_3 : R;
  sw_asmos : list R;
  sw_avh2o_1 : list (nat * R)
}.

(** [asmos] is the variable of the enclosing test that the body reads when
    it fills [asmos_dict]. *)
Definition soil_water_point (asmos : R)
    (precip max_temp min_temp snow snlq pet tmelt_1 tmelt_2 shwave strucc_1
     metabc_1 fracro precro fwloss_1 fwloss_2 : R) (d : pft_dict)
    (adep afiel awilt awtl : R) : outcome soil_water :=
  let tave := (max_temp + min_temp) / 2 in
  sn <-- soil_water_snow precip max_temp min_temp snow snlq pet tmelt_1
           tmelt_2 shwave ;;
  let '(snow, snlq, inputs_after_snow, pet_rem) := sn in
  let '(trap, pevp, absevap, modified_moisture_inputs) :=
    soil_water_surface tave snow inputs_after_snow pet_rem strucc_1 metabc_1
      fracro precro fwloss_1 fwloss_2 d in
  (* distribute moisture to soil layers prior to transpiration *)
  let current_moisture_inputs := modified_moisture_inputs in
  n <-- nlaypg_max d ;;
  let asmos_dict := repeat asmos n in
  let '(asmos_dict, amov_dict) :=
    distribute (adep * afiel) current_moisture_inputs asmos_dict in
  (* avw: available water for transpiration *)
  let avw := map (fun a => Rmax (a - awilt * adep) 0) asmos_dict in
  let awwt_dict := map (fun w => w * awtl) avw in
  let tot := fold_left Rplus avw 0 in
  let tot2 := fold_left Rplus awwt_dict 0 in
  (* revise total potential transpiration *)
  let trap := Rmin trap tot in
  (* remove water via transpiration *)
  tr <-- transpire trap tot2 awilt adep awtl asmos_dict ;;
  let '(avinj_dict, asmos_dict) := tr in
  (* relative water content of soil layer 1 *)
  asmos_1 <-- layer "asmos_dict" asmos_dict 1 ;;
  per_depth <-- rdiv asmos_1 adep ;;
  rwcf_1 <-- rdiv (per_depth - awilt) (afiel - awilt) ;;
  (* evaporation from soil layer 1 *)
  let evmt := Rmax ((rwcf_1 - 0.25) / (1 - 0.25)) 0.01 in
  let evlos :=
    Rmin (evmt * pevp * absevap * 0.1)
         (Rmax (asmos_1 - awilt * adep) 0) in
  (* remove evaporation from total moisture in soil layer 1 *)
  let asmos_dict := (asmos_1 - evlos) :: tl asmos_dict in
  (* line 4884 is an expression without effect: [avinj_dict] stays *)
  (* soil water available for growth, for each PFT *)
  let avh2o_1_dict :=
    map (fun p =>
           (fst p,
            fold_left Rplus (firstn (nlaypg (snd p)) avinj_dict) 0 *
            cover (snd p))) d in
  avinj_1 <-- layer "avinj_dict" avinj_dict 1 ;;
  avinj_2 <-- layer "avinj_dict" avinj_dict 2 ;;
  let avh2o_3 := 0 + avinj_1 + avinj_2 in
  amov_2 <-- layer "amov_dict" amov_dict 2 ;;
  Ok (mk_soil_water snow snlq amov_2 avh2o_3 asmos_dict avh2o_1_dict).

End Soil.


(** ** [routedem.execute] (natcap/invest/routedem.py, lines 62-220) *)

Module RouteDEM.

Open Scope string_scope.

(** Values found in the [args] dictionary. *)
Inductive value : Type :=
| VStr (s : string)
| VBool (b : bool)
| VInt (n : Z)
| VNone.

Definition args : Type := list (string * value).

Fixpoint get (d : args) (k : string) : option value :=
  match d with
  | [] => None
  | (k', v) :: d' => if String.eqb k k' then Some v else get d' k
  end.

(** [bool(v)] *)
Definition truthy (v : value) : bool :=
  match v with
  | VStr s => negb (String.eqb s "")
  | VBool b => b
  | VInt n => negb (Z.eqb n 0)
  | VNone => false
  end.

(** [str.upper] on ASCII letters. *)
Definition upper_ascii (c : ascii) : ascii :=
  let n := nat_of_ascii c in
  if (97 <=? n)%nat && (n <=? 122)%nat then ascii_of_nat (n - 32) else c.

Fixpoint upper (s : string) : string :=
  match s with
  | EmptyString => EmptyString
  | String c s' => String (upper_ascii c) (upper s')
  end.

(** [sorted] on a list of strings. *)
Fixpoint insert_sorted (x : string) (l : list string) : list string :=
  match l with
  | [] => [x]
  | y :: l' => if String.leb x y then x :: l else y :: insert_sorted x l'
  end.

Definition sorted (l : list string) : list string :=
  fold_right insert_sorted [] l.

(** The routing functions of one algorithm, by the names of the library
    functions the table holds. *)
Record routing_funcs : Type := mk_routing {
  flow_accumulation : string;
  flow_direction : string;
  threshold_flow : option string;
  distance_to_channel : string
}.

Definition _ROUTING_FUNCS : list (string * routing_funcs) :=
  [ ("D8", mk_routing "flow_accumulation_d8" "flow_dir_d8"
             None "distance_to_channel_d8");
    ("MFD", mk_routing "flow_accumulation_mfd" "flow_dir_mfd"
             (Some "extract_streams_mfd") "distance_to_channel_mfd") ].

Fixpoint find_funcs (t : list (string * routing_funcs)) (k : string)
    : option routing_funcs :=
  match t with
  | [] => None
  | (k', f) :: t' => if String.eqb k k' then Some f else find_funcs t' k
  end.

Inductive py_exn : Type :=
| KeyError (key : string)
| AttributeError
| TypeError
| ValueError
| RuntimeError (msg : string)
| LibraryError.          (* raised inside a call to an external library *)

(** What [graph.add_task] is given, as far as scheduling is concerned. *)
Record task : Type := mk_task {
  task_func : string;
  task_name : list string;       (* a name, or the list the MFD branch passes *)
  target_path_list : list string;
  dependent_task_list : list string;
  dependent_path_list : list string
}.

(** Calls that leave the function, in the order they are made. *)
Inductive event : Type :=
| MakeDirectories (dirs : list string)
| GetRasterInfo (path : string)
| LogWarn
| LogInfo (msg : string)
| NewTaskGraph (cache_dir : string)
| AddTask (t : task)
| JoinTask (name : string)
| JoinGraph.

(** The events by which routing work is scheduled. *)
Definition is_scheduling (ev : event) : bool :=
  match ev with
  | NewTaskGraph _ | AddTask _ | JoinTask _ | JoinGraph => true
  | _ => false
  end.

(** What the external calls answer. *)
Record environment : Type := mk_env {
  make_suffix_string : args -> string;         (* utils.make_suffix_string *)
  make_directories : list string -> bool;      (* false: the call raises *)
  raster_n_bands : string -> option nat;       (* None: get_raster_info raises *)
  parse_float : string -> option Q             (* None: float(s) raises *)
}.

(** State (the trace of events) and exceptions. *)
Definition M (A : Type) : Type := list event -> (py_exn + A) * list event.

Definition mret {A : Type} (a : A) : M A := fun tr => (inr a, tr).

Definition mraise {A : Type} (e : py_exn) : M A := fun tr => (inl e, tr).

Definition mbind {A B : Type} (m : M A) (k : A -> M B) : M B :=
  fun tr =>
    match m tr with
    | (inr a, tr') => k a tr'
    | (inl e, tr') => (inl e, tr')
    end.

Definition emit (ev : event) : M unit :=
  fun tr => (inr tt, (tr ++ [ev])%list).

Notation "x <~ m ;; k" := (mbind m (fun x => k))
  (at level 61, m at next level, right associativity).
Notation "m ;;; k" := (mbind m (fun _ => k))
  (at level 61, right associativity).

(** [args[k]] *)
Definition getitem (a : args) (k : string) : M value :=
  match get a k with
  | Some v => mret v
  | None => mraise (KeyError k)
  end.

(** A value used where the library needs a path. *)
Definition as_path (v : value) : M string :=
  match v with
  | VStr s => mret s
  | _ => mraise TypeError
  end.

(** [float(v)] *)
Definition float (e : environment) (v : value) : M Q :=
  match v with
  | VStr s =>
      match parse_float e s with
      | Some q => mret q
      | None => mraise ValueError
      end
  | VBool b => mret (if b then 1%Q else 0%Q)
  | VInt n => mret (inject_Z n)
  | VNone => mraise TypeError
  end.

(** [os.path.join] *)
Definition path_join (a b : string) : string := a ++ "/" ++ b.

(** [k in args and bool(args[k])] *)
Definition flag (a : args) (k : string) : bool :=
  match get a k with
  | Some v => truthy v
  | None => false
  end.

(** Lines 93-100: suffix, work directories, DEM information. *)
Definition set_up (e : environment) (a : args) : M (string * string) :=
  let file_suffix := make_suffix_string e a in
  w <~ getitem a "workspace_dir" ;;
  workspace_dir <~ as_path w ;;
  let task_cache_dir := path_join workspace_dir "_tmp_work_tokens" in
  emit (MakeDirectories [workspace_dir; task_cache_dir]) ;;;
  (if make_directories e [workspace_dir; task_cache_dir]
   then mret tt else mraise LibraryError) ;;;
  d <~ getitem a "dem_path" ;;
  dem_path <~ as_path d ;;
  emit (GetRasterInfo dem_path) ;;;
  match raster_n_bands e dem_path with
  | None => mraise LibraryError
  | Some n_bands =>
      (if (1 <? n_bands)%nat then emit LogWarn else mret tt) ;;;
      mret (file_suffix, task_cache_dir)
  end.

(** Lines 102-110: "Check the algorithm early so we can fail quickly." *)
Definition check_algorithm (a : args) : M (string * routing_funcs) :=
  v <~ getitem a "algorithm" ;;
  match v with
  | VStr s =>
      let algorithm := upper s in
      match find_funcs _ROUTING_FUNCS algorithm with
      | Some funcs => mret (algorithm, funcs)
      | None =>
          mraise (RuntimeError
            ("Invalid algorithm specified (" ++ s ++ "). Must be one of " ++
             String.concat ", " (sorted (map fst _ROUTING_FUNCS))))
      end
  | _ => mraise AttributeError
  end.

Definition add_task (t : task) : M unit := emit (AddTask t).

(** Lines 112-219: the task graph. *)
Definition schedule (e : environment) (a : args)
    (file_suffix task_cache_dir algorithm : string) (funcs : routing_funcs)
    : M unit :=
  emit (NewTaskGraph task_cache_dir) ;;;
  (* Calculate slope *)
  (if flag a "calculate_slope" then
     w <~ getitem a "workspace_dir" ;;
     workspace_dir <~ as_path w ;;
     let target_slope_path :=
       path_join workspace_dir ("slope" ++ file_suffix ++ ".tif") in
     add_task (mk_task "calculate_slope" ["calculate_slope"]
                 [target_slope_path] [] [])
   else mret tt) ;;;
  let dem_filled_pits_path := "filled" ++ file_suffix ++ ".tif" in
  add_task (mk_task "fill_pits" ["fill_pits"] [dem_filled_pits_path] [] []) ;;;
  (* Calculate flow accumulation *)
  emit (LogInfo "calculating flow direction") ;;;
  w <~ getitem a "workspace_dir" ;;
  workspace_dir <~ as_path w ;;
  let flow_dir_path :=
    path_join workspace_dir ("flow_direction" ++ file_suffix ++ ".tif") in
  let flow_direction_task := "flow_dir_" ++ algorithm in
  add_task (mk_task (flow_direction funcs) [flow_direction_task]
              [flow_dir_path] [] []) ;;;
  (if flag a "calculate_flow_accumulation" then
     emit (LogInfo "calculating flow accumulation") ;;;
     let flow_accumulation_path :=
       path_join workspace_dir
         ("flow_accumulation" ++ file_suffix ++ ".tif") in
     let flow_accum_task := "flow_accumulation_" ++ algorithm in
     add_task (mk_task (flow_accumulation funcs) [flow_accum_task]
                 [flow_accumulation_path] [flow_direction_task] []) ;;;
     (if flag a "calculate_stream_threshold" then
        let stream_mask_path := "stream_mask" ++ file_suffix ++ ".tif" in
        stream_threshold_task <~
          (if String.eqb algorithm "D8" then
             emit (JoinTask flow_accum_task) ;;;
             emit (GetRasterInfo flow_accumulation_path) ;;;
             (match raster_n_bands e flow_accumulation_path with
              | None => mraise LibraryError
              | Some _ => mret tt
              end) ;;;
             t <~ getitem a "threshold_flow_accumulation" ;;
             _ <~ float e t ;;
             add_task (mk_task "raster_calculator" ["stream_thresholding_D8"]
                         [stream_mask_path] [flow_accum_task] []) ;;;
             mret "stream_thresholding_D8"
           else (* MFD *)
             t <~ getitem a "stream_threshold" ;;
             _ <~ float e t ;;
             add_task (mk_task
                         (match threshold_flow funcs with
                          | Some f => f | None => "None" end)
                         ["stream_extraction_MFD"]
                         [stream_mask_path] [] [flow_accum_task]) ;;;
             mret "stream_extraction_MFD") ;;
        (if flag a "calculate_downstream_distance" then
           let distance_path :=
             path_join workspace_dir
               ("downstream_distance" ++ file_suffix ++ ".tif") in
           add_task (mk_task (distance_to_channel funcs)
                       ["downstream_distance_" ++ algorithm]
                       [distance_path] [stream_threshold_task] [])
         else mret tt)
      else mret tt)
   else mret tt) ;;;
  emit JoinGraph.

Definition execute (e : environment) (a : args) : M unit :=
  su <~ set_up e a ;;
  af <~ check_algorithm a ;;
  schedule e a (fst su) (snd su) (fst af) (snd af).


(** A computation that adds to the trace only events satisfying [P]. *)
Definition emits_only {A : Type} (P : event -> Prop) (m : M A) : Prop :=
  forall (tr tr' : list event) (r : py_exn + A),
    m tr = (r, tr') -> exists evs, tr' = (tr ++ evs)%list /\ Forall P evs.

(** An environment in which every library call succeeds, and arguments that
    ask for every output, for running the model on examples. *)
Definition sample_env : environment :=
  mk_env (fun _ => "") (fun _ => true) (fun _ => Some 1%nat)
         (fun _ => Some 1000%Q).

Definition sample_args (algorithm : string) : args :=
  [ ("workspace_dir", VStr "ws");
    ("dem_path", VStr "dem.tif");
    ("algorithm", VStr algorithm);
    ("calculate_slope", VBool true);
    ("calculate_flow_accumulation", VBool true);
    ("calculate_stream_threshold", VBool true);
    ("threshold_flow_accumulation", VInt 1000);
    ("calculate_downstream_distance", VBool true) ].

(** *** [_threshold_flow] (routedem.py, lines 45-52) *)




(** *** [validate] (routedem.py, lines 227-298) *)

(** What the file system answers. *)
Record filesystem : Type := mk_fs {
  path_exists : string -> bool;        (* os.path.exists *)
  gdal_opens : string -> bool          (* gdal.OpenEx(path) is not None *)
}.

(** [key in args] *)
Definition has_key (a : args) (k : string) : bool :=
  match get a k with Some _ => true | None => false end.

(** [args[key] in ['', None]], for a key that is present. *)
Definition has_no_value (a : args) (k : string) : bool :=
  match get a k with
  | Some (VStr s) => String.eqb s ""
  | Some VNone => true
  | _ => false
  end.

Definition required_keys (a : args) : list string :=
  (["workspace_dir"; "dem_path"] ++
   (if flag a "calculate_stream_threshold"
    then ["threshold_flow_accumulation"] else []))%list.

(** [limit_to is None or limit_to == key] *)
Definition within_limit (limit_to : option string) (key : string) : bool :=
  match limit_to with
  | None => true
  | Some k => String.eqb k key
  end.

Definition missing_key_list (a : args) (limit_to : option string)
    : list string :=
  filter (fun key => within_limit limit_to key && negb (has_key a key))
    (required_keys a).

Definition no_value_list (a : args) (limit_to : option string)
    : list string :=
  filter (fun key => within_limit limit_to key && has_key a key &&
                     has_no_value a key)
    (required_keys a).

(** The body of [validate], as it stands under its decorator
    [validation.invest_validator], which is not among the sources.  A
    [dem_path] that is not a string makes [os.path.exists] raise a
    [TypeError]. *)
Definition validate (fs : filesystem) (a : args) (limit_to : option string)
    : py_exn + list (list string * string) :=
  let missing := missing_key_list a limit_to in
  let no_value := no_value_list a limit_to in
  if negb (Nat.eqb (List.length missing) 0) then
    (* if there are missing keys, we have raise KeyError to stop hard *)
    inl (KeyError
           ("The following keys were expected in `args` but were missing " ++
            String.concat ", " missing))
  else
    let validation_error_list :=
      if negb (Nat.eqb (List.length no_value) 0)
      then [(no_value, "parameter has no value")] else [] in
    (* check that existing/optional files are the correct types *)
    if within_limit limit_to "dem_path" then
      match get a "dem_path" with
      | None => inl (KeyError "dem_path")
      | Some (VStr path) =>
          if negb (path_exists fs path) then
            inr (validation_error_list ++
                 [(["dem_path"], "not found on disk")])%list
          else if negb (gdal_opens fs path) then
            inr (validation_error_list ++
                 [(["dem_path"], "not a raster")])%list
          else inr validation_error_list
      | Some _ => inl TypeError
      end
    else inr validation_error_list.

(** The dependencies a task names were added before it. *)
Fixpoint dependencies_scheduled (seen : list string) (tr : list event)
    : Prop :=
  match tr with
  | [] => True
  | AddTask t :: tr' =>
      (forall d, In d (dependent_task_list t) -> In d seen) /\
      dependencies_scheduled (task_name t ++ seen)%list tr'
  | _ :: tr' => dependencies_scheduled seen tr'
  end.

(** A computation that never ends in a [KeyError]. *)
Definition no_key_error {A : Type} (m : M A) : Prop :=
  forall (tr tr' : list event) (k : string),
    m tr <> (inl (KeyError k), tr').

(** A computation whose last call, when it returns, is [graph.join()], and
    which makes that call nowhere else. *)
Definition ends_in_join {A : Type} (m : M A) : Prop :=
  forall (tr tr' : list event) (r : py_exn + A),
    m tr = (r, tr') ->
    exists evs, tr' = (tr ++ evs)%list /\
      match r with
      | inr _ => exists evs0, evs = (evs0 ++ [JoinGraph])%list /\
                              ~ In JoinGraph evs0
      | inl _ => ~ In JoinGraph evs
      end.

(** The names of the tasks added, in the order of the calls. *)
Definition task_names (tr : list event) : list string :=
  flat_map (fun ev => match ev with AddTask t => task_name t | _ => [] end) tr.

End RouteDEM.

(** * Properties *)

(** ** Checked division and comparisons *)

Section Arith.
Import Forage.
Local Open Scope Q_scope.

Lemma Qgtb_true (x y : Q) : Qgtb x y = true <-> y < x.
Proof.
  unfold Qgtb. rewrite negb_true_iff. split; intro H.
  - apply Qnot_le_lt. intro Hle. apply Qle_bool_iff in Hle. congruence.
  - destruct (Qle_bool x y) eqn:E; [|reflexivity].
    apply Qle_bool_iff in E. lra.
Qed.

Lemma Qgtb_false (x y : Q) : Qgtb x y = false <-> x <= y.
Proof.
  unfold Qgtb. rewrite negb_false_iff. apply Qle_bool_iff.
Qed.

Lemma qdiv_ret (x y : Q) : ~ y == 0 -> x // y = Ret (x / y).
Proof.
  intro H. unfold qdiv. destruct (Qeq_bool y 0) eqn:E; [|reflexivity].
  apply Qeq_bool_eq in E. contradiction.
Qed.

Lemma qdiv_raise (x y : Q) : y == 0 -> x // y = Raise ZeroDivisionError.
Proof.
  intro H. unfold qdiv. now rewrite (Qeq_eq_bool _ _ H).
Qed.

Lemma qdiv_inv (x y r : Q) : x // y = Ret r -> ~ y == 0 /\ r = x / y.
Proof.
  unfold qdiv. destruct (Qeq_bool y 0) eqn:E; [discriminate|].
  intro H. inversion H. split; [|reflexivity].
  intro H0. apply Qeq_eq_bool in H0. congruence.
Qed.

Lemma bind_inv {A B : Type} (m : res A) (k : A -> res B) (b : B) :
  bind m k = Ret b -> exists a, m = Ret a /\ k a = Ret b.
Proof.
  destruct m; simpl; [eauto | discriminate].
Qed.

End Arith.

(** Takes apart a hypothesis [m >>= k = Ret b]. *)
Tactic Notation "bind_inv" hyp(H) :=
  let x := fresh "x" in
  let Hx := fresh "Hx" in
  apply bind_inv in H; destruct H as (x & Hx & H).

Tactic Notation "bind_inv" hyp(H) "as" ident(x) ident(Hx) :=
  apply bind_inv in H; destruct H as (x & Hx & H).

(** ** [esched] *)

Section Esched.
Import Forage.
Local Open Scope Q_scope.


Lemma esched_body_raises (cflow tca rcetob anps labile : Q) :
  tca == 0 \/ anps == 0 \/ rcetob == 0 \/ cflow == 0 ->
  esched_body cflow tca rcetob anps labile = Raise ZeroDivisionError.
Proof.
  intro H. unfold esched_body.
  destruct (Qeq_dec tca 0) as [Ht|Ht]; [now rewrite (qdiv_raise _ _ Ht)|].
  rewrite (qdiv_ret cflow tca Ht). cbn [bind].
  destruct (Qeq_dec (anps * (cflow / tca)) 0) as [Ho|Ho];
    [now rewrite (qdiv_raise _ _ Ho)|].
  rewrite (qdiv_ret cflow _ Ho). cbn [bind].
  assert (Hr : rcetob == 0).
  { destruct H as [H|[H|[H|H]]]; [contradiction| |assumption| ];
      exfalso; apply Ho; rewrite H; unfold Qdiv; ring. }
  rewrite (qdiv_raise _ _ Hr).
  destruct (Qgtb _ rcetob); reflexivity.
Qed.

Lemma esched_point_body (rt : esched_return_type)
    (cflow tca rcetob anps labile v : Q) :
  esched_point rt cflow tca rcetob anps labile = Ret v ->
  exists fl, esched_body cflow tca rcetob anps labile = Ret fl /\
    v = match rt with
        | material_leaving_a => e_leaving_a fl
        | material_arriving_b => e_arriving_b fl
        | mineral_flow => e_mnrflo fl
        end.
Proof.
  unfold esched_point. intro H. bind_inv H. exists x. split; [assumption|].
  destruct rt; inversion H; reflexivity.
Qed.


(** What [esched_body] returns, branch by branch. *)
Lemma esched_body_cases (cflow tca rcetob anps labile : Q) (fl : esched_flows) :
  esched_body cflow tca rcetob anps labile = Ret fl ->
  let outofa := anps * (cflow / tca) in
  let immflo := cflow / rcetob - outofa in
  (rcetob < cflow / outofa /\ 0 < labile - immflo /\
     fl = mk_esched outofa (outofa + immflo) (- immflo)) \/
  (rcetob < cflow / outofa /\ labile - immflo <= 0 /\
     fl = mk_esched 0 0 0) \/
  (cflow / outofa <= rcetob /\
     fl = mk_esched outofa (cflow / rcetob) (outofa - cflow / rcetob)).
Proof.
  unfold esched_body. intro H.
  bind_inv H. apply qdiv_inv in Hx as [_ ->].
  bind_inv H. apply qdiv_inv in Hx as [_ ->].
  cbv zeta.
  destruct (Qgtb _ rcetob) eqn:E.
  - apply Qgtb_true in E.
    bind_inv H. apply qdiv_inv in Hx as [_ ->].
    destruct (Qgtb _ 0) eqn:E'.
    + apply Qgtb_true in E'. inversion H. left. auto.
    + apply Qgtb_false in E'. inversion H. right. left. auto.
  - apply Qgtb_false in E.
    bind_inv H. apply qdiv_inv in Hx as [_ ->].
    inversion H. right. right. auto.
Qed.

(** C1, as amended.  Whenever [esched] returns its three outputs, the
    element leaving box A is the element arriving in box B plus the flow to
    the mineral pool: [material_leaving_a - mineral_flow ==
    material_arriving_b] (a negative [mineral_flow] is immobilization, drawn
    from the mineral pool into B).  When immobilization is required
    ([cflow/outofa > rcetob]) and the mineral pool cannot supply it
    ([labile - immflo <= 0]), the three outputs are exactly zero. *)
Theorem esched_conservation (cflow tca rcetob anps labile a b m : Q) :
  esched_point material_leaving_a cflow tca rcetob anps labile = Ret a ->
  esched_point material_arriving_b cflow tca rcetob anps labile = Ret b ->
  esched_point mineral_flow cflow tca rcetob anps labile = Ret m ->
  a - m == b /\
  (let outofa := anps * (cflow / tca) in
   let immflo := cflow / rcetob - outofa in
   rcetob < cflow / outofa -> labile - immflo <= 0 ->
   a = 0 /\ b = 0 /\ m = 0).
Proof.
  intros Ha Hb Hm.
  apply esched_point_body in Ha as (fl & Hfl & ->).
  apply esched_point_body in Hb as (fl' & Hfl' & ->).
  apply esched_point_body in Hm as (fl'' & Hfl'' & ->).
  assert (fl' = fl) by congruence. assert (fl'' = fl) by congruence.
  subst fl' fl''. clear Hfl' Hfl''.
  apply esched_body_cases in Hfl. cbv zeta in *.
  destruct Hfl as [(H1 & H2 & ->) | [(H1 & H2 & ->) | (H1 & ->)]]; cbn.
  - split; [ring|]. intros _ H3. lra.
  - split; [ring|]. auto.
  - split; [ring|]. intros H3 _. lra.
Qed.

Lemma esched_conservation_witness :
  exists a b m : Q,
    esched_point material_leaving_a 2 4 1 2 1 = Ret a /\
    esched_point material_arriving_b 2 4 1 2 1 = Ret b /\
    esched_point mineral_flow 2 4 1 2 1 = Ret m /\
    a - m == b /\ a = 0 /\ b = 0 /\ m = 0.
Proof.
  eexists _, _, _.
  split; [reflexivity|]. split; [reflexivity|]. split; [reflexivity|].
  destruct (esched_conservation 2 4 1 2 1 _ _ _ eq_refl eq_refl eq_refl)
    as [Hc Hz].
  split; [exact Hc|]. apply Hz; reflexivity || discriminate.
Defined.

(** C1 as stated fails: in the immobilization case of the test suite the
    three outputs are not all zero, and [material_leaving_a + mineral_flow]
    misses [material_arriving_b] by more than 0.007. *)
Lemma esched_sign_counterexample :
  exists a b m : Q,
    esched_point material_leaving_a 15.2006 155.5253 190.3 0.7776 6.01 = Ret a /\
    esched_point material_arriving_b 15.2006 155.5253 190.3 0.7776 6.01 = Ret b /\
    esched_point mineral_flow 15.2006 155.5253 190.3 0.7776 6.01 = Ret m /\
    ~ a == 0 /\ ~ b == 0 /\ ~ m == 0 /\
    0.007 < b - (a + m).
Proof.
  eexists _, _, _.
  split; [reflexivity|]. split; [reflexivity|]. split; [reflexivity|].
  repeat split; try (intro H; vm_compute in H; discriminate).
Qed.




End Esched.

(** ** [declig] *)

Section Declig.
Import Forage.
Local Open Scope Q_scope.

Lemma decompose_mask_spec
    (aminrl_1 aminrl_2 strucc_lyr struce_lyr_1 struce_lyr_2
     rnew_lyr_1_1 rnew_lyr_2_1 : Q) (b : bool) :
  decompose_mask aminrl_1 aminrl_2 strucc_lyr struce_lyr_1 struce_lyr_2
    rnew_lyr_1_1 rnew_lyr_2_1 = Ret b ->
  (b = true <->
   mask_holds aminrl_1 aminrl_2 strucc_lyr struce_lyr_1 struce_lyr_2
     rnew_lyr_1_1 rnew_lyr_2_1).
Proof.
  unfold decompose_mask, mask_holds. intro H.
  bind_inv H. apply qdiv_inv in Hx as [_ ->].
  bind_inv H. apply qdiv_inv in Hx as [_ ->].
  inversion H as [Hb]. clear H Hb.
  rewrite andb_true_iff, !orb_true_iff, !Qgtb_true, !Qle_bool_iff.
  reflexivity.
Qed.

Lemma decompose_mask_returns
    (aminrl_1 aminrl_2 strucc_lyr struce_lyr_1 struce_lyr_2
     rnew_lyr_1_1 rnew_lyr_2_1 : Q) :
  ~ struce_lyr_1 == 0 -> ~ struce_lyr_2 == 0 ->
  returns (decompose_mask aminrl_1 aminrl_2 strucc_lyr struce_lyr_1
             struce_lyr_2 rnew_lyr_1_1 rnew_lyr_2_1).
Proof.
  intros H1 H2. unfold returns, decompose_mask.
  rewrite (qdiv_ret _ _ H1), (qdiv_ret _ _ H2). cbn [bind]. eauto.
Qed.

Lemma declig_body_masked
    (aminrl_1 aminrl_2 ligcon rsplig ps1co2_lyr strucc_lyr tcflow
     struce_lyr_1 struce_lyr_2 rnew_lyr_1_1 rnew_lyr_2_1
     rnew_lyr_1_2 rnew_lyr_2_2 minerl_1_1 minerl_1_2 : Q) :
  decompose_mask aminrl_1 aminrl_2 strucc_lyr struce_lyr_1 struce_lyr_2
    rnew_lyr_1_1 rnew_lyr_2_1 = Ret false ->
  declig_body aminrl_1 aminrl_2 ligcon rsplig ps1co2_lyr strucc_lyr tcflow
    struce_lyr_1 struce_lyr_2 rnew_lyr_1_1 rnew_lyr_2_1
    rnew_lyr_1_2 rnew_lyr_2_2 minerl_1_1 minerl_1_2 = Ret no_change.
Proof.
  intro H. unfold declig_body. rewrite H. reflexivity.
Qed.

Lemma declig_select_no_change (rt : declig_return_type) :
  declig_select rt no_change = 0.
Proof. destruct rt; reflexivity. Qed.

(** C2.  [declig] moves material only when its decompose mask holds: an
    output delta that is not zero implies the mask; when the mask fails (and
    the two quotients it computes are defined) each of the twelve deltas is
    returned as exactly zero; so it is in the scenario of the test suite
    ([aminrl_1 = aminrl_2 = 0], observed ratios 200.0 and 499.9 against
    required 190 and 300). *)
Theorem declig_gated_by_mask
    (aminrl_1 aminrl_2 ligcon rsplig ps1co2_lyr strucc_lyr tcflow
     struce_lyr_1 struce_lyr_2 rnew_lyr_1_1 rnew_lyr_2_1
     rnew_lyr_1_2 rnew_lyr_2_2 minerl_1_1 minerl_1_2 : Q) :
  (forall (rt : declig_return_type) (v : Q),
     declig_point rt aminrl_1 aminrl_2 ligcon rsplig ps1co2_lyr strucc_lyr
       tcflow struce_lyr_1 struce_lyr_2 rnew_lyr_1_1 rnew_lyr_2_1
       rnew_lyr_1_2 rnew_lyr_2_2 minerl_1_1 minerl_1_2 = Ret v ->
     ~ v == 0 ->
     mask_holds aminrl_1 aminrl_2 strucc_lyr struce_lyr_1 struce_lyr_2
       rnew_lyr_1_1 rnew_lyr_2_1) /\
  (~ struce_lyr_1 == 0 -> ~ struce_lyr_2 == 0 ->
   ~ mask_holds aminrl_1 aminrl_2 strucc_lyr struce_lyr_1 struce_lyr_2
       rnew_lyr_1_1 rnew_lyr_2_1 ->
   forall rt : declig_return_type,
     declig_point rt aminrl_1 aminrl_2 ligcon rsplig ps1co2_lyr strucc_lyr
       tcflow struce_lyr_1 struce_lyr_2 rnew_lyr_1_1 rnew_lyr_2_1
       rnew_lyr_1_2 rnew_lyr_2_2 minerl_1_1 minerl_1_2 = Ret 0) /\
  (forall rt : declig_return_type,
     declig_point rt 0 0 0.3779 0.0146 0.0883 155.5253 40.82
       0.7776 0.3111 190 300 0 0 0 0 = Ret 0).
Proof.
  split; [|split].
  - intros rt v H Hv. unfold declig_point in H. bind_inv H.
    inversion H as [Hsel]. clear H.
    destruct (decompose_mask aminrl_1 aminrl_2 strucc_lyr struce_lyr_1
                struce_lyr_2 rnew_lyr_1_1 rnew_lyr_2_1) as [[|]|e] eqn:E.
    + apply (decompose_mask_spec _ _ _ _ _ _ _ _ E). reflexivity.
    + exfalso. apply Hv.
      rewrite (declig_body_masked _ _ ligcon rsplig ps1co2_lyr _ tcflow
                 _ _ _ _ rnew_lyr_1_2 rnew_lyr_2_2 minerl_1_1 minerl_1_2 E)
        in Hx.
      inversion Hx; subst x. rewrite <- Hsel, declig_select_no_change.
      reflexivity.
    + unfold declig_body in Hx. rewrite E in Hx. discriminate.
  - intros H1 H2 Hm rt.
    destruct (decompose_mask_returns aminrl_1 aminrl_2 strucc_lyr
                struce_lyr_1 struce_lyr_2 rnew_lyr_1_1 rnew_lyr_2_1 H1 H2)
      as [b E].
    destruct b.
    + exfalso. apply Hm. apply (decompose_mask_spec _ _ _ _ _ _ _ _ E).
      reflexivity.
    + unfold declig_point. rewrite (declig_body_masked _ _ _ _ _ _ _ _ _ _ _
                                      _ _ _ _ E).
      cbn [bind]. now rewrite declig_select_no_change.
  - intro rt. destruct rt; reflexivity.
Qed.

Lemma declig_gated_by_mask_witness :
  Forall
    (fun rt : declig_return_type =>
       declig_point rt 0 0 0.3779 0.0146 0.0883 155.5253 40.82
         0.7776 0.3111 190 300 0 0 0 0 = Ret 0)
    [d_strucc; d_struce_1; d_struce_2; d_minerl_1_1; d_minerl_1_2;
     d_gromin_1; d_som2c; d_som2e_1; d_som2e_2; d_som1c; d_som1e_1;
     d_som1e_2].
Proof.
  destruct (declig_gated_by_mask 0 0 0.3779 0.0146 0.0883 155.5253 40.82
              0.7776 0.3111 190 300 0 0 0 0) as (_ & Hgate & _).
  assert (Hall : forall rt : declig_return_type,
            declig_point rt 0 0 0.3779 0.0146 0.0883 155.5253 40.82
              0.7776 0.3111 190 300 0 0 0 0 = Ret 0).
  { apply Hgate.
    - discriminate.
    - discriminate.
    - unfold mask_holds. intros [[H|H] _]; vm_compute in H; congruence. }
  repeat constructor; apply Hall.
Defined.

(** The second case of [test_declig_point] (decomposition subsidized by
    mineral N and P): the twelve values calculated by hand, to 10 places. *)
Lemma declig_regression :
  Forall
    (fun '(rt, known) =>
       exists v : Q,
         declig_point rt 6.4944 33.2791 0.3779 0.0146 0.0883 155.5253 40.82
           0.7776 0.3111 210.8 540.2 190.3 520.8 6.01 32.87 = Ret v /\
         Qabs (v - known) <= 0.00000000005)
    [ (d_strucc, -40.82);
      (d_struce_1, -0.204093044668617);
      (d_struce_2, -0.08165296578756);
      (d_minerl_1_1, 0.014387319170996);
      (d_minerl_1_2, 0.00960796090459662);
      (d_gromin_1, 0.0182639608121622);
      (d_som2c, 15.2006601812);
      (d_som2e_1, 0.0798773525023647);
      (d_som2e_2, 0.029187135524578);
      (d_som1c, 23.1518210274);
      (d_som1e_1, 0.109828372995256);
      (d_som1e_2, 0.0428578693583858) ].
Proof.
  repeat constructor;
    (eexists; split; [vm_compute; reflexivity | vm_compute; discriminate]).
Qed.

End Declig.

(** ** Gross mineralization *)

Section GrossMineralization.
Import Forage.
Local Open Scope Q_scope.

Lemma update_gross_mineralization_ge (g flow : Q) :
  g <= update_gross_mineralization g flow.
Proof.
  unfold update_gross_mineralization.
  destruct (Qgtb flow 0) eqn:E; [apply Qgtb_true in E|]; lra.
Qed.

Lemma fold_update_ge (flows : list Q) :
  forall g : Q, g <= fold_left update_gross_mineralization flows g.
Proof.
  induction flows as [|flow flows IH]; intro g; simpl.
  - lra.
  - eapply Qle_trans; [apply (update_gross_mineralization_ge g flow)|].
    apply IH.
Qed.

(** C4.  [update_gross_mineralization g flow] is [g + flow] when [flow > 0]
    and [g] when [flow <= 0]; hence the accumulator never decreases, whatever
    the sequence of flows it is updated with. *)
Theorem update_gross_mineralization_spec (g flow : Q) (flows : list Q) :
  (0 < flow -> update_gross_mineralization g flow = g + flow) /\
  (flow <= 0 -> update_gross_mineralization g flow = g) /\
  g <= update_gross_mineralization g flow /\
  g <= fold_left update_gross_mineralization flows g.
Proof.
  unfold update_gross_mineralization at 1 2.
  repeat split.
  - intro H. apply Qgtb_true in H. now rewrite H.
  - intro H. apply Qgtb_false in H. now rewrite H.
  - apply update_gross_mineralization_ge.
  - apply fold_update_ge.
Qed.

Lemma update_gross_mineralization_spec_witness :
  update_gross_mineralization 0.0481 0.00044 = 0.0481 + 0.00044 /\
  update_gross_mineralization 0.048881 (-0.00674) = 0.048881.
Proof.
  split.
  - apply (update_gross_mineralization_spec 0.0481 0.00044 []). reflexivity.
  - apply (update_gross_mineralization_spec 0.048881 (-0.00674) []).
    discriminate.
Defined.

(** The point code of [declig] accumulates [d_gromin_1] in the same way,
    only from positive mineral flows: the change in gross N mineralization is
    never negative and never below the net change in mineral N. *)
Lemma declig_gross_mineralization
    (aminrl_1 aminrl_2 ligcon rsplig ps1co2_lyr strucc_lyr tcflow
     struce_lyr_1 struce_lyr_2 rnew_lyr_1_1 rnew_lyr_2_1
     rnew_lyr_1_2 rnew_lyr_2_2 minerl_1_1 minerl_1_2 : Q)
    (d : declig_deltas) :
  declig_body aminrl_1 aminrl_2 ligcon rsplig ps1co2_lyr strucc_lyr tcflow
    struce_lyr_1 struce_lyr_2 rnew_lyr_1_1 rnew_lyr_2_1
    rnew_lyr_1_2 rnew_lyr_2_2 minerl_1_1 minerl_1_2 = Ret d ->
  0 <= dl_gromin_1 d /\ dl_minerl_1_1 d <= dl_gromin_1 d.
Proof.
  unfold declig_body. cbv zeta. intro H. bind_inv H.
  destruct x as [|].
  - do 16 (bind_inv H).
    inversion H as [Hd]. cbn [dl_gromin_1 dl_minerl_1_1].
    repeat match goal with
           | |- context [Qgtb ?f 0] =>
               let E := fresh "E" in
               destruct (Qgtb f 0) eqn:E;
               [apply Qgtb_true in E | apply Qgtb_false in E]
           end; lra.
  - inversion H. cbn. lra.
Qed.

End GrossMineralization.

(** ** Leaching of carbon *)

Section Leaching.
Import Forage.
Local Open Scope Q_scope.

Lemma linten_bounds (amov omlech_3 : Q) :
  0 <= linten amov omlech_3 <= 1.
Proof.
  unfold linten. split.
  - apply Q.le_max_l.
  - apply Q.max_lub; [lra | apply Q.le_min_r].
Qed.

Lemma linten_nonneg_ratio (amov omlech_3 : Q) :
  0 <= amov -> 0 < omlech_3 ->
  linten amov omlech_3 == Qmin (amov / omlech_3) 1.
Proof.
  intros Ha Ho. unfold linten. apply Q.max_r.
  apply Q.min_glb; [|lra].
  apply Qle_shift_div_l; lra.
Qed.

Lemma linten_zero (amov omlech_3 : Q) :
  amov == 0 -> linten amov omlech_3 == 0.
Proof.
  intro H. unfold linten.
  assert (Hr : amov / omlech_3 == 0) by (rewrite H; unfold Qdiv; ring).
  rewrite Hr. rewrite (Q.min_l 0 1) by lra. apply Q.max_id.
Qed.

(** C6.  The leaching intensity lies in [0,1]; with percolation
    [amov >= 0] and threshold [omlech_3 > 0] leached carbon is
    [tcflow * orglch * min(amov/omlech_3, 1)]; with [amov = 0] the intensity,
    and with it the leached carbon, is zero. *)
Theorem leaching_intensity_clamped (amov tcflow omlech_3 orglch : Q) :
  0 <= linten amov omlech_3 <= 1 /\
  (0 <= amov -> 0 < omlech_3 ->
   calc_c_leach amov tcflow omlech_3 orglch ==
   tcflow * orglch * Qmin (amov / omlech_3) 1) /\
  (amov == 0 ->
   linten amov omlech_3 == 0 /\
   calc_c_leach amov tcflow omlech_3 orglch == 0).
Proof.
  split; [apply linten_bounds|]. split.
  - intros Ha Ho. unfold calc_c_leach.
    now rewrite (linten_nonneg_ratio amov omlech_3 Ha Ho).
  - intro H. pose proof (linten_zero amov omlech_3 H) as Hl.
    split; [exact Hl|]. unfold calc_c_leach. rewrite Hl. ring.
Qed.

Lemma leaching_intensity_clamped_witness :
  calc_c_leach 63.1 40.38 60 0.07 == 40.38 * 0.07 * Qmin (63.1 / 60) 1 /\
  linten 0 60 == 0 /\ calc_c_leach 0 40.38 60 0.07 == 0.
Proof.
  split.
  - apply (leaching_intensity_clamped 63.1 40.38 60 0.07); reflexivity
      || discriminate.
  - apply (leaching_intensity_clamped 0 40.38 60 0.07). reflexivity.
Defined.

(** The two regression values of [test_calc_c_leach] (tolerance 1e-5). *)
Lemma calc_c_leach_regression :
  Qabs (calc_c_leach 63.1 40.38 60 0.07 - 2.8266) <= 0.00001 /\
  Qabs (calc_c_leach 10.5 40.38 60 0.07 - 0.494655) <= 0.00001.
Proof.
  split; vm_compute; discriminate.
Qed.

End Leaching.

(** ** Nutrient limitation *)

Section NutrientLimitation.
Import Forage.
Local Open Scope Q_scope.

Lemma Qmin_one_gt (t : Q) : 1 < t -> Qmin 1 t == 1.
Proof. intro H. apply Q.min_l. lra. Qed.

Lemma Qmin_one_le (t : Q) : t <= 1 -> Qmin 1 t == t.
Proof. intro H. apply Q.min_r. assumption. Qed.

Lemma convex_pos (m M t : Q) :
  0 < m -> 0 < M -> 0 <= t -> t <= 1 -> 0 < m + (M - m) * t.
Proof.
  intros Hm HM Ht0 Ht1.
  assert (H1 : 0 <= m * (1 - t)) by (apply Qmult_le_0_compat; lra).
  assert (H2 : 0 <= M * t) by (apply Qmult_le_0_compat; lra).
  destruct (Qlt_le_dec t (1 # 2)) as [Hlt|Hge].
  - assert (H3 : m * (1 # 2) <= m * (1 - t))
      by (apply Qmult_le_l; lra).
    lra.
  - assert (H3 : M * (1 # 2) <= M * t)
      by (apply Qmult_le_l; lra).
    lra.
Qed.

Lemma ecfor_block_blend (eavail demand maxa mina maxb minb cb ca : Q) :
  0 < demand -> 0 <= eavail ->
  0 < mina -> 0 < maxa -> 0 < minb -> 0 < maxb ->
  0 <= cb -> 0 < ca ->
  exists ea eb : Q,
    ecfor_block eavail demand maxa mina maxb minb = Ret (ea, eb) /\
    0 < cb * eb + ca * ea /\
    cb * eb + ca * ea ==
      (cb * minb + ca * mina) +
      ((cb * maxb + ca * maxa) - (cb * minb + ca * mina)) *
      Qmin 1 (eavail / demand).
Proof.
  intros Hd He Hmina Hmaxa Hminb Hmaxb Hcb Hca.
  assert (Hd0 : ~ demand == 0) by lra.
  unfold ecfor_block. destruct (Qgtb eavail demand) eqn:E.
  - apply Qgtb_true in E. exists maxa, maxb. split; [reflexivity|].
    assert (Ht : 1 < eavail / demand)
      by (apply Qlt_shift_div_l; lra).
    rewrite (Qmin_one_gt _ Ht). split; [nra | ring].
  - apply Qgtb_false in E.
    rewrite !(qdiv_ret _ _ Hd0). cbn [bind].
    eexists _, _. split; [reflexivity|].
    assert (Ht : eavail / demand <= 1)
      by (apply Qle_shift_div_r; lra).
    assert (Ht0 : 0 <= eavail / demand)
      by (apply Qle_shift_div_l; lra).
    rewrite (Qmin_one_le _ Ht).
    assert (Heq : cb * (minb + (maxb - minb) * eavail / demand) +
                  ca * (mina + (maxa - mina) * eavail / demand) ==
                  (cb * minb + ca * mina) +
                  ((cb * maxb + ca * maxa) - (cb * minb + ca * mina)) *
                  (eavail / demand))
      by (field; assumption).
    split; [|exact Heq]. rewrite Heq.
    apply convex_pos; try assumption; nra.
Qed.

Lemma cfrac_bounds (rtsh : Q) :
  0 <= rtsh ->
  0 <= rtsh / (rtsh + 1) /\ 0 < 1 - rtsh / (rtsh + 1) /\
  1 - rtsh / (rtsh + 1) == 1 / (rtsh + 1).
Proof.
  intro H.
  assert (H1 : 0 <= rtsh / (rtsh + 1)) by (apply Qle_shift_div_l; lra).
  assert (H2 : rtsh / (rtsh + 1) < 1) by (apply Qlt_shift_div_r; lra).
  repeat split; try lra. field. lra.
Qed.

Lemma weighted_pos (cb ca x y : Q) :
  0 <= cb -> 0 < ca -> 0 < x -> 0 < y -> 0 < cb * x + ca * y.
Proof. intros. nra. Qed.

Lemma Qinv_pos' (c : Q) : 0 < c -> 0 < 1 / c.
Proof. intro H. apply Qlt_shift_div_l; lra. Qed.

Section Inputs.

Variables potenc rtsh eavail_1 eavail_2 snfxmx_1 : Q.
Variables cerat_max_above_1 cerat_max_below_1 : Q.
Variables cerat_max_above_2 cerat_max_below_2 : Q.
Variables cerat_min_above_1 cerat_min_below_1 : Q.
Variables cerat_min_above_2 cerat_min_below_2 : Q.

Let body :=
  nutrlm_body potenc rtsh eavail_1 eavail_2 snfxmx_1
    cerat_max_above_1 cerat_max_below_1 cerat_max_above_2
    cerat_max_below_2 cerat_min_above_1 cerat_min_below_1
    cerat_min_above_2 cerat_min_below_2.

(** Whenever the function returns: the minimum, the cap and the clamp. *)
Lemma nutrlm_body_result (l : nutrlm_locals) :
  body = Ret l ->
  c_production (l_result l) ==
    Qmin (Qmin potenc (eavail_1 / l_cpbe_1 l)) (eavail_2 / l_cpbe_2 l) /\
  l_eprodl_1 l - (eavail_1 + snfxmx_1 * c_production (l_result l)) <= 0.05 /\
  plantNfix (l_result l) == Qmax (l_eprodl_1 l - eavail_1) 0 /\
  0 <= plantNfix (l_result l).
Proof.
  unfold body, nutrlm_body. cbv zeta. intro H.
  bind_inv H. do 8 (bind_inv H).
  bind_inv H. bind_inv H as c1 Hc1. apply qdiv_inv in Hc1 as [_ Hc1].
  bind_inv H. bind_inv H as c2 Hc2. apply qdiv_inv in Hc2 as [_ Hc2].
  inversion H as [Hl]. clear H Hl. cbn.
  split; [rewrite Hc1, Hc2; reflexivity|].
  split.
  - match goal with
    | |- context [Qgtb ?f 0.05] => destruct (Qgtb f 0.05) eqn:E
    end.
    + lra.
    + apply Qgtb_false in E. exact E.
  - split; [reflexivity | apply Q.le_max_r].
Qed.

Hypothesis potenc_pos : 0 < potenc.
Hypothesis cerat_max_above_1_pos : 0 < cerat_max_above_1.
Hypothesis cerat_max_below_1_pos : 0 < cerat_max_below_1.
Hypothesis cerat_max_above_2_pos : 0 < cerat_max_above_2.
Hypothesis cerat_max_below_2_pos : 0 < cerat_max_below_2.
Hypothesis cerat_min_above_1_pos : 0 < cerat_min_above_1.
Hypothesis cerat_min_below_1_pos : 0 < cerat_min_below_1.
Hypothesis cerat_min_above_2_pos : 0 < cerat_min_above_2.
Hypothesis cerat_min_below_2_pos : 0 < cerat_min_below_2.

Lemma blend_code_form (eavail cxa cxb cma cmb : Q) :
  0 <= rtsh -> 0 < cxa -> 0 < cxb -> 0 < cma -> 0 < cmb ->
  let cb := rtsh / (rtsh + 1) in
  let ca := 1 - cb in
  (cb * (1 / cxb) + ca * (1 / cxa)) +
  ((cb * (1 / cmb) + ca * (1 / cma)) - (cb * (1 / cxb) + ca * (1 / cxa))) *
  Qmin 1 (eavail / (potenc * (cb * (1 / cmb) + ca * (1 / cma)))) ==
  cpbe_blend potenc rtsh eavail cxa cxb cma cmb.
Proof.
  intros Hr Hxa Hxb Hma Hmb cb ca.
  destruct (cfrac_bounds rtsh Hr) as (_ & _ & Hca). fold cb ca in Hca.
  unfold cpbe_blend. cbv zeta. fold cb. rewrite <- Hca.
  assert (Hmin : cb / cxb + ca / cxa == cb * (1 / cxb) + ca * (1 / cxa))
    by (field; split; lra).
  assert (Hmax : cb / cmb + ca / cma == cb * (1 / cmb) + ca * (1 / cma))
    by (field; split; lra).
  rewrite Hmin, Hmax. reflexivity.
Qed.

(** With a root:shoot ratio and supplies that are not negative the function
    returns, and each [cpbe] is the blend of the specification. *)
Lemma nutrlm_body_total :
  0 <= rtsh -> 0 <= eavail_1 -> 0 <= eavail_2 ->
  exists l : nutrlm_locals,
    body = Ret l /\
    0 < l_cpbe_1 l /\ 0 < l_cpbe_2 l /\
    l_cpbe_1 l ==
      cpbe_blend potenc rtsh eavail_1 cerat_max_above_1 cerat_max_below_1
        cerat_min_above_1 cerat_min_below_1 /\
    l_cpbe_2 l ==
      cpbe_blend potenc rtsh eavail_2 cerat_max_above_2 cerat_max_below_2
        cerat_min_above_2 cerat_min_below_2.
Proof.
  intros Hr He1 He2.
  destruct (cfrac_bounds rtsh Hr) as (Hcb & Hca & _).
  pose proof (blend_code_form eavail_1 _ _ _ _ Hr cerat_max_above_1_pos
                cerat_max_below_1_pos cerat_min_above_1_pos
                cerat_min_below_1_pos) as Hblend1.
  pose proof (blend_code_form eavail_2 _ _ _ _ Hr cerat_max_above_2_pos
                cerat_max_below_2_pos cerat_min_above_2_pos
                cerat_min_below_2_pos) as Hblend2.
  cbv zeta in Hblend1, Hblend2.
  set (cb := rtsh / (rtsh + 1)) in *. set (ca := 1 - cb) in *.
  pose proof (Qinv_pos' _ cerat_max_above_1_pos).
  pose proof (Qinv_pos' _ cerat_max_below_1_pos).
  pose proof (Qinv_pos' _ cerat_max_above_2_pos).
  pose proof (Qinv_pos' _ cerat_max_below_2_pos).
  pose proof (Qinv_pos' _ cerat_min_above_1_pos).
  pose proof (Qinv_pos' _ cerat_min_below_1_pos).
  pose proof (Qinv_pos' _ cerat_min_above_2_pos).
  pose proof (Qinv_pos' _ cerat_min_below_2_pos).
  assert (Hd1 : 0 < potenc * (cb * (1 / cerat_min_below_1) +
                              ca * (1 / cerat_min_above_1)))
    by (apply Qmult_lt_0_compat; [|apply weighted_pos]; assumption).
  assert (Hd2 : 0 < potenc * (cb * (1 / cerat_min_below_2) +
                              ca * (1 / cerat_min_above_2)))
    by (apply Qmult_lt_0_compat; [|apply weighted_pos]; assumption).
  destruct (ecfor_block_blend eavail_1 _ (1 / cerat_min_above_1)
              (1 / cerat_max_above_1) (1 / cerat_min_below_1)
              (1 / cerat_max_below_1) cb ca Hd1)
    as (ea1 & eb1 & Hb1 & Hp1 & Hq1); try assumption.
  destruct (ecfor_block_blend eavail_2 _ (1 / cerat_min_above_2)
              (1 / cerat_max_above_2) (1 / cerat_min_below_2)
              (1 / cerat_max_below_2) cb ca Hd2)
    as (ea2 & eb2 & Hb2 & Hp2 & Hq2); try assumption.
  unfold body, nutrlm_body.
  rewrite (qdiv_ret rtsh (rtsh + 1)) by lra. cbn [bind].
  rewrite (qdiv_ret 1 cerat_min_above_1) by lra. cbn [bind].
  rewrite (qdiv_ret 1 cerat_max_above_1) by lra. cbn [bind].
  rewrite (qdiv_ret 1 cerat_min_below_1) by lra. cbn [bind].
  rewrite (qdiv_ret 1 cerat_max_below_1) by lra. cbn [bind].
  rewrite (qdiv_ret 1 cerat_min_above_2) by lra. cbn [bind].
  rewrite (qdiv_ret 1 cerat_max_above_2) by lra. cbn [bind].
  rewrite (qdiv_ret 1 cerat_min_below_2) by lra. cbn [bind].
  rewrite (qdiv_ret 1 cerat_max_below_2) by lra. cbn [bind].
  cbv zeta. fold cb. fold ca.
  rewrite Hb1. cbn [bind fst snd].
  rewrite (qdiv_ret eavail_1 (cb * eb1 + ca * ea1)) by lra. cbn [bind].
  rewrite Hb2. cbn [bind fst snd].
  rewrite (qdiv_ret eavail_2 (cb * eb2 + ca * ea2)) by lra. cbn [bind].
  eexists. split; [reflexivity|]. cbn [l_cpbe_1 l_cpbe_2].
  split; [exact Hp1|]. split; [exact Hp2|].
  split.
  - rewrite Hq1. exact Hblend1.
  - rewrite Hq2. exact Hblend2.
Qed.

(** C3.  For positive potential production and positive C/element ratios:
    whenever [calc_nutrient_limitation_point] returns, [c_production] is the
    minimum of [potenc], [eavail_1 / cpbe_1] and [eavail_2 / cpbe_2]; total N
    in new production, as capped, exceeds [eavail_1 + snfxmx_1 *
    c_production] by at most 0.05; [plantNfix] is that total less
    [eavail_1], clamped at zero, hence never negative.  With [rtsh] and the
    two supplies not negative the function does return, and each [cpbe] is
    the blend of minimum and maximum element/carbon ratios weighted by the
    carbon fractions derived from [rtsh]. *)
Theorem calc_nutrient_limitation_spec :
  (forall r : nutrient_limitation,
     calc_nutrient_limitation_point potenc rtsh eavail_1 eavail_2 snfxmx_1
       cerat_max_above_1 cerat_max_below_1 cerat_max_above_2
       cerat_max_below_2 cerat_min_above_1 cerat_min_below_1
       cerat_min_above_2 cerat_min_below_2 = Ret r ->
     exists l : nutrlm_locals,
       body = Ret l /\ r = l_result l /\
       c_production r ==
         Qmin (Qmin potenc (eavail_1 / l_cpbe_1 l)) (eavail_2 / l_cpbe_2 l) /\
       l_eprodl_1 l - (eavail_1 + snfxmx_1 * c_production r) <= 0.05 /\
       plantNfix r == Qmax (l_eprodl_1 l - eavail_1) 0 /\
       0 <= plantNfix r) /\
  (0 <= rtsh -> 0 <= eavail_1 -> 0 <= eavail_2 ->
   exists r : nutrient_limitation,
     calc_nutrient_limitation_point potenc rtsh eavail_1 eavail_2 snfxmx_1
       cerat_max_above_1 cerat_max_below_1 cerat_max_above_2
       cerat_max_below_2 cerat_min_above_1 cerat_min_below_1
       cerat_min_above_2 cerat_min_below_2 = Ret r /\
     c_production r ==
       Qmin (Qmin potenc
               (eavail_1 /
                cpbe_blend potenc rtsh eavail_1 cerat_max_above_1
                  cerat_max_below_1 cerat_min_above_1 cerat_min_below_1))
            (eavail_2 /
             cpbe_blend potenc rtsh eavail_2 cerat_max_above_2
               cerat_max_below_2 cerat_min_above_2 cerat_min_below_2) /\
     plantNfix r <= Qmax (snfxmx_1 * c_production r + 0.05) 0 /\
     0 <= plantNfix r).
Proof.
  split.
  - intros r H. unfold calc_nutrient_limitation_point in H.
    bind_inv H as l Hl. inversion H as [Hr]. clear H.
    exists l. split; [exact Hl|]. split; [reflexivity|].
    exact (nutrlm_body_result l Hl).
  - intros Hr He1 He2.
    destruct (nutrlm_body_total Hr He1 He2)
      as (l & Hl & _ & _ & Hb1 & Hb2).
    destruct (nutrlm_body_result l Hl) as (Hmin & Hcap & Hfix & Hpos).
    exists (l_result l). split.
    + unfold calc_nutrient_limitation_point. fold body. now rewrite Hl.
    + split; [rewrite <- Hb1, <- Hb2; exact Hmin|].
      split; [|exact Hpos].
      rewrite Hfix. apply Q.max_le_compat_r. lra.
Qed.

End Inputs.

Lemma calc_nutrient_limitation_spec_witness :
  exists r : nutrient_limitation,
    calc_nutrient_limitation_point 200.1 0.59 200.5 62 0.03
      8 11 7 6 3 5 2 2.5 = Ret r /\
    c_production r ==
      Qmin (Qmin 200.1 (200.5 / cpbe_blend 200.1 0.59 200.5 8 11 3 5))
           (62 / cpbe_blend 200.1 0.59 62 7 6 2 2.5) /\
    plantNfix r <= Qmax (0.03 * c_production r + 0.05) 0 /\
    0 <= plantNfix r.
Proof.
  apply (calc_nutrient_limitation_spec 200.1 0.59 200.5 62 0.03
           8 11 7 6 3 5 2 2.5); reflexivity || discriminate.
Defined.

(** The regression values of [test_calc_nutrient_limitation] (7 places). *)
Lemma calc_nutrient_limitation_regression :
  exists r : nutrient_limitation,
    calc_nutrient_limitation_point 200.1 0.59 200.5 62 0.03
      8 11 7 6 3 5 2 2.5 = Ret r /\
    Qabs (c_production r - 172.222418488863) <= 0.00000005 /\
    Qabs (eup_above_2 r - 41.367670329147) <= 0.00000005 /\
    Qabs (eup_below_2 r - 20.632329670853) <= 0.00000005.
Proof.
  eexists. split; [reflexivity|].
  repeat split; vm_compute; discriminate.
Qed.

End NutrientLimitation.

(** ** Decomposition factor *)

Section Defac.
Import Climate.
Local Open Scope R_scope.

Lemma atan_le (x y : R) : x <= y -> atan x <= atan y.
Proof.
  intros [H|H].
  - left. apply atan_increasing. assumption.
  - right. now rewrite H.
Qed.

Lemma Rdiv_le_one (a b : R) : 0 < b -> a <= b -> a / b <= 1.
Proof.
  intros Hb Hab. replace 1 with (b / b) by (field; lra).
  unfold Rdiv. apply Rmult_le_compat_r; [|assumption].
  left. apply Rinv_0_lt_compat. assumption.
Qed.

Lemma Rdiv_gt_one (a b : R) : 0 < b -> b < a -> 1 < a / b.
Proof.
  intros Hb Hab. replace 1 with (b / b) by (field; lra).
  unfold Rdiv. apply Rmult_lt_compat_r; [|assumption].
  apply Rinv_0_lt_compat. assumption.
Qed.

Lemma agwfunc_bounds (rprpet : R) : 0 < agwfunc rprpet <= 1.
Proof.
  unfold agwfunc. destruct (Rgt_dec rprpet 9) as [_|_]; [lra|].
  pose proof (exp_pos (-8.5 * rprpet)) as He.
  assert (Hd : 1 < 1 + 30 * exp (-8.5 * rprpet)) by lra.
  split.
  - apply Rdiv_lt_0_compat; lra.
  - apply Rdiv_le_one; lra.
Qed.

(** The temperature curve does not decrease with temperature. *)
Lemma tcurve_le (teff_1 teff_2 teff_3 teff_4 s t : R) :
  0 <= teff_3 -> 0 <= teff_4 -> s <= t ->
  tcurve teff_1 teff_2 teff_3 teff_4 s <= tcurve teff_1 teff_2 teff_3 teff_4 t.
Proof.
  intros H3 H4 Hst. unfold tcurve.
  pose proof PI_RGT_0 as Hpi.
  assert (Harg : PI * teff_4 * (s - teff_1) <= PI * teff_4 * (t - teff_1)).
  { apply Rmult_le_compat_l; [|lra].
    apply Rmult_le_pos; lra. }
  apply atan_le in Harg.
  assert (Hk : 0 <= teff_3 / PI) by (apply Rle_mult_inv_pos; lra).
  apply Rplus_le_compat_l. apply Rmult_le_compat_l; assumption.
Qed.

Lemma tcurve_lt (teff_1 teff_2 teff_3 teff_4 s t : R) :
  0 < teff_3 -> 0 < teff_4 -> s < t ->
  tcurve teff_1 teff_2 teff_3 teff_4 s < tcurve teff_1 teff_2 teff_3 teff_4 t.
Proof.
  intros H3 H4 Hst. unfold tcurve.
  pose proof PI_RGT_0 as Hpi.
  assert (Harg : PI * teff_4 * (s - teff_1) < PI * teff_4 * (t - teff_1)).
  { apply Rmult_lt_compat_l; [|lra].
    apply Rmult_lt_0_compat; lra. }
  apply atan_increasing in Harg.
  assert (Hk : 0 < teff_3 / PI) by (apply Rdiv_lt_0_compat; lra).
  apply Rplus_lt_compat_l. apply Rmult_lt_compat_l; assumption.
Qed.

Lemma tcurve_30_pos (teff_1 teff_2 teff_3 teff_4 : R) :
  0 < teff_2 -> 0 <= teff_3 -> 0 <= teff_4 -> teff_1 <= 30 ->
  0 < tcurve teff_1 teff_2 teff_3 teff_4 30.
Proof.
  intros H2 H3 H4 H1. unfold tcurve.
  pose proof PI_RGT_0 as Hpi.
  assert (Harg : 0 <= PI * teff_4 * (30 - teff_1)).
  { apply Rmult_le_pos; [apply Rmult_le_pos|]; lra. }
  apply atan_le in Harg. rewrite atan_0 in Harg.
  assert (Hk : 0 <= teff_3 / PI) by (apply Rle_mult_inv_pos; lra).
  pose proof (Rmult_le_pos _ _ Hk Harg). lra.
Qed.

(** Above 30 degrees of soil temperature, with enough water, the factor is
    above one. *)
Lemma defac_above_one
    (snow min_temp max_temp rprpet teff_1 teff_2 teff_3 teff_4 : R) :
  snow <= 0 -> 30 < (min_temp + max_temp) / 2 -> 9 < rprpet ->
  0 < teff_3 -> 0 < teff_4 ->
  0 < tcurve teff_1 teff_2 teff_3 teff_4 30 ->
  1 < defac_point snow min_temp max_temp rprpet teff_1 teff_2 teff_3 teff_4.
Proof.
  intros Hs Ht Hr H3 H4 Hn.
  unfold defac_point, tfunc, stemp, agwfunc.
  destruct (Rgt_dec snow 0) as [Hs'|_]; [lra|].
  destruct (Rgt_dec rprpet 9) as [_|Hr']; [|lra].
  pose proof (tcurve_lt teff_1 teff_2 teff_3 teff_4 _ _ H3 H4 Ht) as Hlt.
  assert (Hq : 1 < tcurve teff_1 teff_2 teff_3 teff_4
                     ((min_temp + max_temp) / 2) /
                   tcurve teff_1 teff_2 teff_3 teff_4 30).
  { apply Rdiv_gt_one; lra. }
  eapply Rlt_le_trans; [|apply Rmax_r].
  rewrite Rmult_1_r.
  eapply Rlt_le_trans; [exact Hq|apply Rmax_r].
Qed.

(** C5, as amended.  The decomposition factor is never negative; it is at
    most one when the soil temperature [stemp] (zero under snow, else the
    mean of minimum and maximum temperature) is at most 30 degrees, [teff_3]
    and [teff_4] are not negative and the curve is positive at 30 degrees. *)
Theorem defac_bounds
    (snow min_temp max_temp rprpet teff_1 teff_2 teff_3 teff_4 : R) :
  0 <= defac_point snow min_temp max_temp rprpet teff_1 teff_2 teff_3 teff_4 /\
  (0 <= teff_3 -> 0 <= teff_4 ->
   0 < tcurve teff_1 teff_2 teff_3 teff_4 30 ->
   stemp snow min_temp max_temp <= 30 ->
   defac_point snow min_temp max_temp rprpet teff_1 teff_2 teff_3 teff_4 <= 1).
Proof.
  split; [apply Rmax_l|].
  intros H3 H4 Hn Hs. unfold defac_point, tfunc.
  pose proof (agwfunc_bounds rprpet) as [Ha0 Ha1].
  pose proof (tcurve_le teff_1 teff_2 teff_3 teff_4 _ _ H3 H4 Hs) as Hle.
  set (num := tcurve teff_1 teff_2 teff_3 teff_4
                (stemp snow min_temp max_temp)) in *.
  set (den := tcurve teff_1 teff_2 teff_3 teff_4 30) in *.
  assert (Hq : num / den <= 1) by (apply Rdiv_le_one; lra).
  assert (Ht : 0 < Rmax 0.01 (num / den) <= 1).
  { split.
    - eapply Rlt_le_trans; [|apply Rmax_l]. lra.
    - apply Rmax_lub; lra. }
  apply Rmax_lub; [lra|]. nra.
Qed.

Lemma defac_bounds_witness :
  defac_point 0 10 20 10 15.4 11.75 29.7 0.031 <= 1.
Proof.
  apply (defac_bounds 0 10 20 10 15.4 11.75 29.7 0.031); try lra.
  - apply tcurve_30_pos; lra.
  - unfold stemp. destruct (Rgt_dec 0 0); lra.
Defined.

(** C5 as stated fails: a month without snow, with minimum and maximum
    temperature 28 and 40 degrees and [rprpet = 10], gives a factor above
    one. *)
Lemma defac_hot_month_counterexample :
  1 < defac_point 0 28 40 10 15.4 11.75 29.7 0.031.
Proof.
  apply defac_above_one; try lra. apply tcurve_30_pos; lra.
Qed.

End Defac.

(** ** Potential transpiration *)

Section Transpiration.
Import Climate.
Local Open Scope R_scope.


(** The demand is the smaller of [pttr] and the evapotranspiration that
    remains, raised to 0.01 when that is not positive. *)
Lemma trap_demand_min (pet_rem evap_losses tave aliv : R) :
  let d := Rmin (pttr pet_rem tave aliv) (pet_rem - evap_losses) in
  trap_demand pet_rem evap_losses tave aliv =
  if Rle_dec d 0 then 0.01 else d.
Proof.
  cbv zeta. unfold trap_demand, Rmin.
  destruct (Rle_dec (pttr pet_rem tave aliv) (pet_rem - evap_losses));
    reflexivity.
Qed.




End Transpiration.

(** ** RouteDEM: the algorithm check *)

Section RouteDEMCheck.
Import RouteDEM.
Local Open Scope string_scope.





Lemma eo_ret {A : Type} (P : event -> Prop) (a : A) : emits_only P (mret a).
Proof.
  intros tr tr' r H. inversion H. exists []. now rewrite app_nil_r.
Qed.

Lemma eo_raise {A : Type} (P : event -> Prop) (e : py_exn) :
  emits_only P (@mraise A e).
Proof.
  intros tr tr' r H. inversion H. exists []. now rewrite app_nil_r.
Qed.

Lemma eo_emit (P : event -> Prop) (ev : event) : P ev -> emits_only P (emit ev).
Proof.
  intros Hev tr tr' r H. inversion H. exists [ev]. auto.
Qed.

Lemma eo_bind {A B : Type} (P : event -> Prop) (m : M A) (k : A -> M B) :
  emits_only P m -> (forall a, emits_only P (k a)) ->
  emits_only P (mbind m k).
Proof.
  intros Hm Hk tr tr' r. unfold mbind.
  destruct (m tr) as [[e|a] tr1] eqn:E; intro H.
  - inversion H; subst. exact (Hm _ _ _ E).
  - destruct (Hm _ _ _ E) as (evs1 & -> & H1).
    destruct (Hk a _ _ _ H) as (evs2 & -> & H2).
    exists (evs1 ++ evs2)%list. rewrite app_assoc. split; [reflexivity|].
    apply Forall_app. auto.
Qed.







(** The set-up adds no scheduling event to the trace. *)
Lemma set_up_trace (e : environment) (a : args) :
  emits_only (fun ev => is_scheduling ev = false) (set_up e a).
Proof.
  unfold set_up, getitem, as_path.
  repeat first
    [ apply eo_bind; [|intros ?]
    | apply eo_ret
    | apply eo_raise
    | apply eo_emit; reflexivity
    | match goal with
      | |- emits_only _ (if ?b then _ else _) => destruct b
      | |- emits_only _ (match ?x with _ => _ end) => destruct x
      end ].
Qed.



(** The steps before the check complete when [args] holds the two paths and
    the library calls on them succeed. *)
Lemma set_up_completes (e : environment) (a : args)
    (workspace_dir dem_path : string) (n_bands : nat) :
  get a "workspace_dir" = Some (VStr workspace_dir) ->
  get a "dem_path" = Some (VStr dem_path) ->
  make_directories e
    [workspace_dir; path_join workspace_dir "_tmp_work_tokens"] = true ->
  raster_n_bands e dem_path = Some n_bands ->
  exists tr, set_up e a [] =
    (inr (make_suffix_string e a,
          path_join workspace_dir "_tmp_work_tokens"), tr).
Proof.
  intros Hw Hd Hm Hn. unfold set_up, getitem, mbind.
  rewrite Hw. cbn. rewrite Hm. cbn. rewrite Hd. cbn. rewrite Hn.
  destruct n_bands as [|[|n]]; eexists; reflexivity.
Qed.




(** What a D8 run schedules, by task name. *)
Lemma execute_d8_tasks :
  exists tr : list event,
    execute sample_env (sample_args "d8") [] = (inr tt, tr) /\
    flat_map (fun ev => match ev with AddTask t => task_name t | _ => [] end)
      tr =
    ["calculate_slope"; "fill_pits"; "flow_dir_D8"; "flow_accumulation_D8";
     "stream_thresholding_D8"; "downstream_distance_D8"].
Proof.
  eexists. split; [vm_compute; reflexivity | reflexivity].
Qed.

End RouteDEMCheck.

(** * Further properties of the point functions *)

(** ** [esched]: what moves, moves at the required ratio *)

Section EschedRatio.
Import Forage.
Local Open Scope Q_scope.

Lemma esched_body_defined (cflow tca rcetob anps labile : Q)
    (fl : esched_flows) :
  esched_body cflow tca rcetob anps labile = Ret fl ->
  ~ tca == 0 /\ ~ anps == 0 /\ ~ rcetob == 0 /\ ~ cflow == 0.
Proof.
  intro H.
  repeat split; intro H0;
    rewrite esched_body_raises in H by tauto; discriminate.
Qed.

(** The three outputs of one call, from the three calls that select them. *)
Lemma esched_point_triple (cflow tca rcetob anps labile a b m : Q) :
  esched_point material_leaving_a cflow tca rcetob anps labile = Ret a ->
  esched_point material_arriving_b cflow tca rcetob anps labile = Ret b ->
  esched_point mineral_flow cflow tca rcetob anps labile = Ret m ->
  esched_body cflow tca rcetob anps labile = Ret (mk_esched a b m).
Proof.
  intros Ha Hb Hm.
  apply esched_point_body in Ha as (fl & Hfl & ->).
  apply esched_point_body in Hb as (fl' & Hfl' & ->).
  apply esched_point_body in Hm as (fl'' & Hfl'' & ->).
  assert (fl' = fl) by congruence. assert (fl'' = fl) by congruence.
  subst fl' fl''. destruct fl. exact Hfl.
Qed.

Lemma esched_point_balance (cflow tca rcetob anps labile a b m : Q) :
  esched_point material_leaving_a cflow tca rcetob anps labile = Ret a ->
  esched_point material_arriving_b cflow tca rcetob anps labile = Ret b ->
  esched_point mineral_flow cflow tca rcetob anps labile = Ret m ->
  b == a - m.
Proof.
  intros Ha Hb Hm.
  pose proof (esched_point_triple _ _ _ _ _ _ _ _ Ha Hb Hm) as H.
  apply esched_body_cases in H. cbv zeta in H.
  destruct H as [(_ & _ & H) | [(_ & _ & H) | (_ & H)]];
    inversion H; subst; ring.
Qed.

(** X1.  Either nothing moves, or the element arrives in box B at exactly the
    required ratio ([cflow / material_arriving_b = rcetob]) and leaves box A
    in proportion to the carbon that leaves it
    ([material_leaving_a / anps = cflow / tca]). *)
Theorem esched_required_ratio (cflow tca rcetob anps labile a b m : Q) :
  esched_point material_leaving_a cflow tca rcetob anps labile = Ret a ->
  esched_point material_arriving_b cflow tca rcetob anps labile = Ret b ->
  esched_point mineral_flow cflow tca rcetob anps labile = Ret m ->
  (a = 0 /\ b = 0 /\ m = 0) \/
  (b * rcetob == cflow /\ a * tca == anps * cflow).
Proof.
  intros Ha Hb Hm.
  pose proof (esched_point_triple _ _ _ _ _ _ _ _ Ha Hb Hm) as H.
  destruct (esched_body_defined _ _ _ _ _ _ H) as (Ht & _ & Hr & _).
  apply esched_body_cases in H. cbv zeta in H.
  destruct H as [(H1 & H2 & H) | [(_ & _ & H) | (H1 & H)]];
    inversion H; subst; clear H.
  - right. split; field; auto.
  - left. auto.
  - right. split; field; auto.
Qed.

Lemma esched_required_ratio_witness :
  exists a b m : Q,
    esched_point material_leaving_a 2 4 1 2 5 = Ret a /\
    esched_point material_arriving_b 2 4 1 2 5 = Ret b /\
    esched_point mineral_flow 2 4 1 2 5 = Ret m /\
    ((a = 0 /\ b = 0 /\ m = 0) \/
     (b * 1 == 2 /\ a * 4 == 2 * 2)).
Proof.
  eexists _, _, _.
  split; [reflexivity|]. split; [reflexivity|]. split; [reflexivity|].
  apply (esched_required_ratio 2 4 1 2 5); reflexivity.
Defined.

End EschedRatio.

(** ** [declig]: what leaves the structural pool is accounted for *)

Section DecligBalance.
Import Forage.
Local Open Scope Q_scope.

Variables aminrl_1 aminrl_2 ligcon rsplig ps1co2_lyr strucc_lyr tcflow : Q.
Variables struce_lyr_1 struce_lyr_2 rnew_lyr_1_1 rnew_lyr_2_1 : Q.
Variables rnew_lyr_1_2 rnew_lyr_2_2 minerl_1_1 minerl_1_2 : Q.

(** X2.  N and P are conserved across the structural pool, the mineral pool,
    SOM2 and SOM1.  Carbon leaving the structural pool arrives in SOM2 and
    SOM1 but for the two respiration losses. *)
Theorem declig_conserves_elements (d : declig_deltas) :
  declig_body aminrl_1 aminrl_2 ligcon rsplig ps1co2_lyr strucc_lyr tcflow
    struce_lyr_1 struce_lyr_2 rnew_lyr_1_1 rnew_lyr_2_1
    rnew_lyr_1_2 rnew_lyr_2_2 minerl_1_1 minerl_1_2 = Ret d ->
  dl_struce_lyr_1 d + dl_minerl_1_1 d + dl_som2e_lyr_1 d + dl_som1e_lyr_1 d
    == 0 /\
  dl_struce_lyr_2 d + dl_minerl_1_2 d + dl_som2e_lyr_2 d + dl_som1e_lyr_2 d
    == 0 /\
  (let flow := - dl_strucc_lyr d in
   let tosom2 := flow * ligcon in
   let tosom1 := flow - tosom2 in
   dl_som2c_lyr d + dl_som1c_lyr d + tosom2 * rsplig + tosom1 * ps1co2_lyr
     == flow).
Proof.
  unfold declig_body. cbv zeta. intro H. bind_inv H as mask Hmask.
  destruct mask.
  - bind_inv H as r1 Hr1. bind_inv H as r2 Hr2.
    bind_inv H as aN2 HaN2. bind_inv H as bN2 HbN2. bind_inv H as mN2 HmN2.
    bind_inv H as aP2 HaP2. bind_inv H as bP2 HbP2. bind_inv H as mP2 HmP2.
    bind_inv H as r3 Hr3. bind_inv H as r4 Hr4.
    bind_inv H as aN1 HaN1. bind_inv H as bN1 HbN1. bind_inv H as mN1 HmN1.
    bind_inv H as aP1 HaP1. bind_inv H as bP1 HbP1. bind_inv H as mP1 HmP1.
    pose proof (esched_point_balance _ _ _ _ _ _ _ _ HaN2 HbN2 HmN2).
    pose proof (esched_point_balance _ _ _ _ _ _ _ _ HaP2 HbP2 HmP2).
    pose proof (esched_point_balance _ _ _ _ _ _ _ _ HaN1 HbN1 HmN1).
    pose proof (esched_point_balance _ _ _ _ _ _ _ _ HaP1 HbP1 HmP1).
    inversion H as [Hd]. cbn.
    repeat split; lra.
  - inversion H. cbn. repeat split; ring.
Qed.

End DecligBalance.

Lemma declig_conserves_elements_witness :
  exists d : Forage.declig_deltas,
    Forage.declig_body 1 1 0.5 0.5 0.5 4 2 2 2 1 1 1 1 5 5 = Ret d /\
    (Forage.dl_struce_lyr_1 d + Forage.dl_minerl_1_1 d +
     Forage.dl_som2e_lyr_1 d + Forage.dl_som1e_lyr_1 d == 0)%Q.
Proof.
  eexists. split; [vm_compute; reflexivity|].
  refine (proj1 (declig_conserves_elements
                   1 1 0.5 0.5 0.5 4 2 2 2 1 1 1 1 5 5 _ _)).
  vm_compute. reflexivity.
Defined.

(** ** Nutrient limitation: demand never exceeds supply *)

Section NutrientSupply.
Import Forage.
Local Open Scope Q_scope.

Variables potenc rtsh eavail_1 eavail_2 snfxmx_1 : Q.
Variables cerat_max_above_1 cerat_max_below_1 : Q.
Variables cerat_max_above_2 cerat_max_below_2 : Q.
Variables cerat_min_above_1 cerat_min_below_1 : Q.
Variables cerat_min_above_2 cerat_min_below_2 : Q.

(** Element in new production is carbon production times [cpbe]. *)
Lemma nutrlm_body_uptake (l : nutrlm_locals) :
  nutrlm_body potenc rtsh eavail_1 eavail_2 snfxmx_1
    cerat_max_above_1 cerat_max_below_1 cerat_max_above_2
    cerat_max_below_2 cerat_min_above_1 cerat_min_below_1
    cerat_min_above_2 cerat_min_below_2 = Ret l ->
  eup_above_1 (l_result l) + eup_below_1 (l_result l) ==
    c_production (l_result l) * l_cpbe_1 l /\
  eup_above_2 (l_result l) + eup_below_2 (l_result l) ==
    c_production (l_result l) * l_cpbe_2 l /\
  l_eprodl_1 l =
    (if Qgtb (eup_above_1 (l_result l) + eup_below_1 (l_result l) -
              (eavail_1 + snfxmx_1 * c_production (l_result l))) 0.05
     then eavail_1 + snfxmx_1 * c_production (l_result l)
     else eup_above_1 (l_result l) + eup_below_1 (l_result l)).
Proof.
  unfold nutrlm_body. cbv zeta. intro H.
  do 13 (bind_inv H).
  inversion H as [Hl]. clear H Hl. cbn.
  repeat split; ring.
Qed.

Hypothesis potenc_pos : 0 < potenc.
Hypothesis cerat_max_above_1_pos : 0 < cerat_max_above_1.
Hypothesis cerat_max_below_1_pos : 0 < cerat_max_below_1.
Hypothesis cerat_max_above_2_pos : 0 < cerat_max_above_2.
Hypothesis cerat_max_below_2_pos : 0 < cerat_max_below_2.
Hypothesis cerat_min_above_1_pos : 0 < cerat_min_above_1.
Hypothesis cerat_min_below_1_pos : 0 < cerat_min_below_1.
Hypothesis cerat_min_above_2_pos : 0 < cerat_min_above_2.
Hypothesis cerat_min_below_2_pos : 0 < cerat_min_below_2.
Hypothesis rtsh_nonneg : 0 <= rtsh.
Hypothesis eavail_1_nonneg : 0 <= eavail_1.
Hypothesis eavail_2_nonneg : 0 <= eavail_2.

(** X3.  For positive potential production and C/element ratios, and [rtsh] and
    supplies not negative: production is at most the potential and not
    negative, N and P in new production are at most the N and P available,
    and, computed exactly, the N fixation returned is zero. *)
Theorem nutrient_demand_within_supply :
  exists r : nutrient_limitation,
    calc_nutrient_limitation_point potenc rtsh eavail_1 eavail_2 snfxmx_1
      cerat_max_above_1 cerat_max_below_1 cerat_max_above_2
      cerat_max_below_2 cerat_min_above_1 cerat_min_below_1
      cerat_min_above_2 cerat_min_below_2 = Ret r /\
    0 <= c_production r <= potenc /\
    eup_above_1 r + eup_below_1 r <= eavail_1 /\
    eup_above_2 r + eup_below_2 r <= eavail_2 /\
    plantNfix r == 0.
Proof.
  destruct (nutrlm_body_total potenc rtsh eavail_1 eavail_2 snfxmx_1
              cerat_max_above_1 cerat_max_below_1 cerat_max_above_2
              cerat_max_below_2 cerat_min_above_1 cerat_min_below_1
              cerat_min_above_2 cerat_min_below_2)
    as (l & Hl & Hp1 & Hp2 & _ & _); try assumption.
  destruct (nutrlm_body_result _ _ _ _ _ _ _ _ _ _ _ _ _ l Hl)
    as (Hmin & _ & Hfix & _).
  destruct (nutrlm_body_uptake l Hl) as (Hup1 & Hup2 & Hcap).
  exists (l_result l). split.
  { unfold calc_nutrient_limitation_point. now rewrite Hl. }
  set (c := c_production (l_result l)) in *.
  assert (Hc1 : c <= eavail_1 / l_cpbe_1 l).
  { rewrite Hmin. eapply Qle_trans; [apply Q.le_min_l|apply Q.le_min_r]. }
  assert (Hc2 : c <= eavail_2 / l_cpbe_2 l).
  { rewrite Hmin. apply Q.le_min_r. }
  assert (Hc0 : c <= potenc).
  { rewrite Hmin. eapply Qle_trans; [apply Q.le_min_l|apply Q.le_min_l]. }
  assert (Hq1 : 0 <= eavail_1 / l_cpbe_1 l)
    by (apply Qle_shift_div_l; lra).
  assert (Hq2 : 0 <= eavail_2 / l_cpbe_2 l)
    by (apply Qle_shift_div_l; lra).
  assert (Hcpos : 0 <= c).
  { rewrite Hmin. apply Q.min_glb; [apply Q.min_glb|]; lra. }
  assert (Hs1 : c * l_cpbe_1 l <= eavail_1).
  { setoid_replace eavail_1 with (eavail_1 / l_cpbe_1 l * l_cpbe_1 l)
      by (field; lra).
    apply Qmult_le_compat_r; lra. }
  assert (Hs2 : c * l_cpbe_2 l <= eavail_2).
  { setoid_replace eavail_2 with (eavail_2 / l_cpbe_2 l * l_cpbe_2 l)
      by (field; lra).
    apply Qmult_le_compat_r; lra. }
  split; [lra|]. split; [lra|]. split; [lra|].
  rewrite Hfix. apply Q.max_r.
  rewrite Hcap.
  destruct (Qgtb _ 0.05) eqn:E.
  - apply Qgtb_true in E. lra.
  - lra.
Qed.

End NutrientSupply.

Lemma nutrient_demand_within_supply_witness :
  exists r : Forage.nutrient_limitation,
    Forage.calc_nutrient_limitation_point 200.1 0.59 200.5 62 0.03
      8 11 7 6 3 5 2 2.5 = Ret r /\
    (0 <= Forage.c_production r <= 200.1 /\
     Forage.eup_above_1 r + Forage.eup_below_1 r <= 200.5 /\
     Forage.eup_above_2 r + Forage.eup_below_2 r <= 62 /\
     Forage.plantNfix r == 0)%Q.
Proof.
  apply (nutrient_demand_within_supply 200.1 0.59 200.5 62 0.03
           8 11 7 6 3 5 2 2.5); reflexivity || discriminate.
Defined.

(** ** Required C/element ratios: [bgdrat] and [agdrat] *)

Section Ratios.
Import Forage.
Local Open Scope Q_scope.

Lemma bgdrat_point_cases (aminrl varat_1 varat_2 varat_3 : Q) :
  (aminrl <= 0 /\ bgdrat_point aminrl varat_1 varat_2 varat_3 = Ret varat_1) \/
  (0 < aminrl /\ varat_3 < aminrl /\
   bgdrat_point aminrl varat_1 varat_2 varat_3 = Ret varat_2) \/
  (0 < aminrl /\ aminrl <= varat_3 /\
   bgdrat_point aminrl varat_1 varat_2 varat_3 =
   Ret ((1 - aminrl / varat_3) * (varat_1 - varat_2) + varat_2)).
Proof.
  unfold bgdrat_point.
  destruct (Qle_bool aminrl 0) eqn:E0.
  - apply Qle_bool_iff in E0. left. auto.
  - assert (H0 : 0 < aminrl).
    { apply Qnot_le_lt. intro H. apply Qle_bool_iff in H. congruence. }
    right. destruct (Qgtb aminrl varat_3) eqn:E3.
    + apply Qgtb_true in E3. left. auto.
    + apply Qgtb_false in E3. right.
      rewrite qdiv_ret by lra. cbn [bind]. auto.
Qed.

Lemma bgdrat_point_value_bounds (aminrl varat_1 varat_2 varat_3 r : Q) :
  bgdrat_point aminrl varat_1 varat_2 varat_3 = Ret r ->
  varat_2 <= varat_1 -> varat_2 <= r <= varat_1.
Proof.
  intros Hr H.
  destruct (bgdrat_point_cases aminrl varat_1 varat_2 varat_3)
    as [(H0 & E) | [(H0 & H3 & E) | (H0 & H3 & E)]];
    rewrite E in Hr; inversion Hr; subst r; try lra.
  assert (Ht0 : 0 <= aminrl / varat_3) by (apply Qle_shift_div_l; lra).
  assert (Ht1 : aminrl / varat_3 <= 1) by (apply Qle_shift_div_r; lra).
  set (t := aminrl / varat_3) in *. nra.
Qed.

(** X4.  [bgdrat_point] never divides by zero: the quotient by [varat_3] is only
    taken when [0 < aminrl <= varat_3].  With [varat_2 <= varat_1] the ratio
    it returns lies between the minimum [varat_2] and the maximum
    [varat_1]. *)
Theorem bgdrat_point_bounded (aminrl varat_1 varat_2 varat_3 : Q) :
  exists r : Q,
    bgdrat_point aminrl varat_1 varat_2 varat_3 = Ret r /\
    (varat_2 <= varat_1 -> varat_2 <= r <= varat_1).
Proof.
  destruct (bgdrat_point_cases aminrl varat_1 varat_2 varat_3)
    as [(H0 & E) | [(H0 & H3 & E) | (H0 & H3 & E)]];
    (eexists; split; [exact E|]);
    apply (bgdrat_point_value_bounds aminrl varat_1 varat_2 varat_3);
    exact E.
Qed.

Lemma bgdrat_point_bounded_witness :
  exists r : Q, bgdrat_point 1 15 3 2 = Ret r /\ 3 <= r <= 15.
Proof.
  destruct (bgdrat_point_bounded 1 15 3 2) as (r & Hr & Hb).
  exists r. split; [exact Hr|]. apply Hb. discriminate.
Defined.

(** X5.  More mineral element never raises the required ratio. *)
Theorem bgdrat_point_antitone
    (aminrl aminrl' varat_1 varat_2 varat_3 r r' : Q) :
  varat_2 <= varat_1 -> aminrl <= aminrl' ->
  bgdrat_point aminrl varat_1 varat_2 varat_3 = Ret r ->
  bgdrat_point aminrl' varat_1 varat_2 varat_3 = Ret r' ->
  r' <= r.
Proof.
  intros Hv Ha Hr Hr'.
  pose proof (bgdrat_point_value_bounds _ _ _ _ _ Hr Hv) as Hbx.
  pose proof (bgdrat_point_value_bounds _ _ _ _ _ Hr' Hv) as Hbx'.
  destruct (bgdrat_point_cases aminrl varat_1 varat_2 varat_3)
    as [(H0 & E) | [(H0 & H3 & E) | (H0 & H3 & E)]];
    rewrite E in Hr; inversion Hr; subst r; clear Hr E; try lra;
  destruct (bgdrat_point_cases aminrl' varat_1 varat_2 varat_3)
    as [(H0' & E') | [(H0' & H3' & E') | (H0' & H3' & E')]];
    rewrite E' in Hr'; inversion Hr'; subst r'; clear Hr' E'; try lra.
  assert (Hq : aminrl / varat_3 <= aminrl' / varat_3).
  { unfold Qdiv. apply Qmult_le_compat_r; [assumption|].
    apply Qlt_le_weak. apply Qinv_lt_0_compat. lra. }
  set (t := aminrl / varat_3) in *. set (t' := aminrl' / varat_3) in *.
  nra.
Qed.

Lemma bgdrat_point_antitone_witness :
  exists r r' : Q,
    bgdrat_point 1 15 3 2 = Ret r /\ bgdrat_point 2 15 3 2 = Ret r' /\
    r' <= r.
Proof.
  eexists _, _. split; [reflexivity|]. split; [reflexivity|].
  apply (bgdrat_point_antitone 1 2 15 3 2); reflexivity || discriminate.
Defined.

(** X6.  [agdrat_point] raises exactly when [pcemic_3 = 0] (the quotient by the
    carbon of the stock is guarded).  With [pcemic_3 > 0],
    [pcemic_2 <= pcemic_1] and [anps >= 0] the ratio it returns lies between
    the minimum [pcemic_2] and the maximum [pcemic_1], and a stock with no
    carbon gets the maximum. *)
Theorem agdrat_point_bounded (anps tca pcemic_1 pcemic_2 pcemic_3 : Q) :
  (agdrat_point anps tca pcemic_1 pcemic_2 pcemic_3 = Raise ZeroDivisionError
   <-> pcemic_3 == 0) /\
  (0 < pcemic_3 -> pcemic_2 <= pcemic_1 -> 0 <= anps ->
   exists r : Q,
     agdrat_point anps tca pcemic_1 pcemic_2 pcemic_3 = Ret r /\
     pcemic_2 <= r <= pcemic_1 /\
     (tca <= 0 -> r == pcemic_1)).
Proof.
  assert (Hdef : ~ pcemic_3 == 0 ->
            exists econt : Q,
              (tca * 2.5 <= 0.0000000001 /\ econt = 0 \/
               0.0000000001 < tca * 2.5 /\ econt = anps / (tca * 2.5)) /\
              agdrat_point anps tca pcemic_1 pcemic_2 pcemic_3 =
              if Qgtb econt pcemic_3 then Ret pcemic_2
              else Ret (pcemic_1 + econt * ((pcemic_2 - pcemic_1) / pcemic_3))).
  { intro H3. unfold agdrat_point. rewrite (qdiv_ret _ _ H3). cbn [bind].
    destruct (Qle_bool (tca * 2.5) 0.0000000001) eqn:E.
    - apply Qle_bool_iff in E. exists 0. split; [left; auto|reflexivity].
    - assert (Ht : 0.0000000001 < tca * 2.5).
      { apply Qnot_le_lt. intro H. apply Qle_bool_iff in H. congruence. }
      rewrite qdiv_ret by lra. cbn [bind].
      eexists. split; [right; split; [exact Ht|reflexivity]|reflexivity]. }
  split.
  - split.
    + intro H. destruct (Qeq_dec pcemic_3 0) as [H0|H0]; [assumption|].
      destruct (Hdef H0) as (econt & _ & E). rewrite E in H.
      destruct (Qgtb econt pcemic_3); discriminate.
    + intro H. unfold agdrat_point. now rewrite (qdiv_raise _ _ H).
  - intros H3 H21 Ha.
    destruct Hdef as (econt & Hecont & E); [lra|]. rewrite E.
    assert (He0 : 0 <= econt).
    { destruct Hecont as [(_ & ->) | (Ht & ->)]; [lra|].
      apply Qle_shift_div_l; lra. }
    destruct (Qgtb econt pcemic_3) eqn:Eg.
    + apply Qgtb_true in Eg. eexists. split; [reflexivity|].
      split; [lra|]. intro Ht.
      destruct Hecont as [(_ & ->) | (Ht' & _)]; lra.
    + apply Qgtb_false in Eg. eexists. split; [reflexivity|].
      assert (Heq : pcemic_1 + econt * ((pcemic_2 - pcemic_1) / pcemic_3) ==
                    pcemic_1 + (pcemic_2 - pcemic_1) * (econt / pcemic_3))
        by (field; lra).
      assert (Ht0 : 0 <= econt / pcemic_3) by (apply Qle_shift_div_l; lra).
      assert (Ht1 : econt / pcemic_3 <= 1) by (apply Qle_shift_div_r; lra).
      split.
      * rewrite Heq. set (t := econt / pcemic_3) in *. nra.
      * intro Ht. destruct Hecont as [(_ & ->) | (Ht' & _)]; [|lra].
        unfold Qdiv. ring.
Qed.

Lemma agdrat_point_bounded_witness :
  exists r : Q, agdrat_point 0.7776 155.5253 18 8 0.02 = Ret r /\ 8 <= r <= 18.
Proof.
  destruct (agdrat_point_bounded 0.7776 155.5253 18 8 0.02) as [_ H].
  destruct H as (r & Hr & Hb & _); [reflexivity|discriminate|discriminate|].
  exists r. split; assumption.
Defined.

End Ratios.

(** ** Anaerobic effect on decomposition *)

Section Anerb.
Import Forage.
Local Open Scope Q_scope.

(** X7.  With [aneref_1 < aneref_2], [aneref_3 <= 1] and [drain <= 1] the
    function returns a factor between [aneref_3] and 1.  A fully drained
    soil ([drain = 1]) gets no reduction; an undrained one ([drain = 0],
    [pevap > 0]) gets the full reduction [aneref_3] from [rprpet >= aneref_2]
    on. *)
Theorem calc_anerb_point_range
    (rprpet pevap drain aneref_1 aneref_2 aneref_3 : Q) :
  aneref_1 < aneref_2 -> aneref_3 <= 1 -> drain <= 1 ->
  exists anerb : Q,
    calc_anerb_point rprpet pevap drain aneref_1 aneref_2 aneref_3 = Ret anerb /\
    aneref_3 <= anerb <= 1 /\
    (drain == 1 -> anerb == 1) /\
    (drain == 0 -> 0 < pevap -> aneref_2 <= rprpet -> anerb == aneref_3).
Proof.
  intros H12 H3 Hd. unfold calc_anerb_point. cbv zeta.
  destruct (Qgtb rprpet aneref_1) eqn:E1.
  - apply Qgtb_true in E1.
    destruct (Qgtb ((rprpet - aneref_1) * pevap * (1 - drain)) 0) eqn:Ex.
    + apply Qgtb_true in Ex.
      assert (Hp : ~ pevap == 0).
      { intro H0. rewrite H0 in Ex. lra. }
      rewrite (qdiv_ret _ _ Hp). cbn [bind].
      rewrite qdiv_ret by lra. cbn [bind].
      eexists. split; [reflexivity|].
      assert (Hq : (rprpet - aneref_1) * pevap * (1 - drain) / pevap ==
                   (rprpet - aneref_1) * (1 - drain)) by (field; assumption).
      assert (Heq : 1 + (1 - aneref_3) / (aneref_1 - aneref_2) *
                        (aneref_1 +
                         (rprpet - aneref_1) * pevap * (1 - drain) / pevap -
                         aneref_1) ==
                    1 - (1 - aneref_3) *
                        (((rprpet - aneref_1) * (1 - drain)) /
                         (aneref_2 - aneref_1)))
        by (field; repeat split; (assumption || lra)).
      assert (Hw : 0 <= (rprpet - aneref_1) * (1 - drain) /
                        (aneref_2 - aneref_1)).
      { apply Qle_shift_div_l; [lra|]. nra. }
      set (w := (rprpet - aneref_1) * (1 - drain) / (aneref_2 - aneref_1))
        in *.
      split; [split; [apply Q.le_max_r|]|split].
      * apply Q.max_lub; [|assumption]. rewrite Heq. nra.
      * intro H1. exfalso. rewrite H1 in Ex. lra.
      * intros H0 Hpe Hr. apply Q.max_r. rewrite Heq.
        assert (Hw1 : 1 <= w).
        { unfold w. apply Qle_shift_div_l; [lra|]. rewrite H0. lra. }
        nra.
    + apply Qgtb_false in Ex. cbn [bind].
      eexists. split; [reflexivity|].
      split; [split; [apply Q.le_max_r|apply Q.max_lub; lra]|].
      split.
      * intros _. apply Q.max_l. assumption.
      * intros H0 Hpe Hr. exfalso. rewrite H0 in Ex.
        assert (0 < (rprpet - aneref_1) * pevap) by nra. lra.
  - apply Qgtb_false in E1. eexists. split; [reflexivity|].
    split; [lra|]. split; [reflexivity|].
    intros. lra.
Qed.

Lemma calc_anerb_point_range_witness :
  exists anerb : Q,
    calc_anerb_point 2 5 0 1.5 3 0.3 = Ret anerb /\ 0.3 <= anerb <= 1.
Proof.
  destruct (calc_anerb_point_range 2 5 0 1.5 3 0.3) as (r & Hr & Hb & _);
    [reflexivity|discriminate|discriminate|].
  exists r. split; assumption.
Defined.

End Anerb.

(** ** Monthly N fixation over a year *)

Section NFixation.
Import Forage.
Local Open Scope Q_scope.

Lemma N_fixation_over_sum (months : list Q)
    (annual_precip baseNdep epnfs_2 : Q) :
  ~ annual_precip == 0 ->
  forall minerl_1_1 : Q,
  exists r : Q,
    N_fixation_over months annual_precip baseNdep epnfs_2 minerl_1_1 = Ret r /\
    r == minerl_1_1 +
         (baseNdep + epnfs_2 * Qmin annual_precip 100) *
         (Qsum months / annual_precip).
Proof.
  intro Ha. induction months as [|precip rest IH]; intro m; cbn.
  - exists m. split; [reflexivity|]. unfold Qdiv. ring.
  - unfold monthly_N_fixation_point. rewrite !(qdiv_ret _ _ Ha). cbn [bind].
    destruct (IH (m + (baseNdep * (precip / annual_precip) +
                       epnfs_2 * Qmin annual_precip 100 *
                       (precip / annual_precip))))
      as (r & Hr & Heq).
    exists r. split; [exact Hr|]. rewrite Heq.
    change (fold_right Qplus 0 rest) with (Qsum rest).
    generalize (Qsum rest) (Qmin annual_precip 100). intros sum_rest cap.
    field. assumption.
Qed.

(** X8.  Applied over months whose precipitation adds up to the annual
    precipitation, the function adds to mineral N the annual deposition
    [baseNdep + epnfs_2 * min(annual_precip, 100)], no more and no less;
    with [annual_precip = 0] every month raises. *)
Theorem N_fixation_over_year (months : list Q)
    (annual_precip baseNdep epnfs_2 minerl_1_1 : Q) :
  (~ annual_precip == 0 -> Qsum months == annual_precip ->
   exists r : Q,
     N_fixation_over months annual_precip baseNdep epnfs_2 minerl_1_1 = Ret r /\
     r == minerl_1_1 + baseNdep + epnfs_2 * Qmin annual_precip 100) /\
  (annual_precip == 0 ->
   forall precip : Q,
     monthly_N_fixation_point precip annual_precip baseNdep epnfs_2
       minerl_1_1 = Raise ZeroDivisionError).
Proof.
  split.
  - intros Ha Hs.
    destruct (N_fixation_over_sum months annual_precip baseNdep epnfs_2 Ha
                minerl_1_1) as (r & Hr & Heq).
    exists r. split; [exact Hr|]. rewrite Heq, Hs.
    generalize (Qmin annual_precip 100). intro cap. field. assumption.
  - intros Ha precip. unfold monthly_N_fixation_point.
    now rewrite (qdiv_raise _ _ Ha).
Qed.

Lemma N_fixation_over_year_witness :
  exists r : Q,
    N_fixation_over [10; 20; 30] 60 0.5 0.001 2 = Ret r /\
    r == 2 + 0.5 + 0.001 * Qmin 60 100.
Proof.
  refine (proj1 (N_fixation_over_year [10; 20; 30] 60 0.5 0.001 2) _ _);
    reflexivity || discriminate.
Defined.

End NFixation.

(** ** Snow *)

Section Snow.
Import Forage.
Local Open Scope Q_scope.

(** Shares of a positive total. *)
Lemma share_facts (S L E : Q) :
  0 <= S -> 0 <= L -> 0 < S + L -> 0 <= E -> E <= S + L ->
  E * (S / (S + L)) + E * (L / (S + L)) == E /\
  0 <= E * (S / (S + L)) <= S /\
  0 <= E * (L / (S + L)) <= L.
Proof.
  intros HS HL HT HE HET.
  assert (H1 : E * (S / (S + L)) == S * (E / (S + L))) by (field; lra).
  assert (H2 : E * (L / (S + L)) == L * (E / (S + L))) by (field; lra).
  assert (Hq0 : 0 <= E / (S + L)) by (apply Qle_shift_div_l; lra).
  assert (Hq1 : E / (S + L) <= 1) by (apply Qle_shift_div_r; lra).
  assert (Hsum : S * (E / (S + L)) + L * (E / (S + L)) == E)
    by (field; lra).
  rewrite H1, H2. set (q := E / (S + L)) in *.
  split; [exact Hsum|]. split; split; nra.
Qed.

(** Snow pack after evaporation and melt. *)
Lemma snow_block (S L pet tmelt_1 tmelt_2 shwave tave : Q) :
  0 < S -> 0 <= L -> 0 <= pet ->
  exists s : snow_result,
    (let snowtot := S + L in
     let evsnow := Qmin snowtot (pet * 0.87) in
     fsnow <- S // snowtot ;;
     let snow := Qmax (S - evsnow * fsnow) 0 in
     fsnlq <- L // snowtot ;;
     let snlq := Qmax (L - evsnow * fsnlq) 0 in
     let pet' := Qmax (pet - evsnow / 0.87) 0 in
     if Qle_bool tmelt_1 tave then
       let snowmelt := tmelt_2 * (tave - tmelt_1) * shwave in
       let snowmelt := Qmax snowmelt 0 in
       let snowmelt := Qmin snowmelt snow in
       let snow := snow - snowmelt in
       let snlq := snlq + snowmelt in
       if Qgtb snlq (0.5 * snow) then
         let add := snlq - 0.5 * snow in
         let snlq := snlq - add in
         Ret (mk_snow snowmelt snow snlq pet' add)
       else Ret (mk_snow snowmelt snow snlq pet' 0)
     else Ret (mk_snow 0 snow snlq pet' 0)) = Ret s /\
    0 <= sn_snowmelt s /\ 0 <= sn_snow s /\ 0 <= sn_snlq s /\
    0 <= sn_pet s <= pet /\ 0 <= sn_inputs_after_snow s /\
    sn_snow s + sn_snlq s + sn_inputs_after_snow s + 0.87 * (pet - sn_pet s)
      == S + L /\
    (tmelt_1 <= tave -> sn_snlq s <= 0.5 * sn_snow s).
Proof.
  intros HS HL Hpet. cbv zeta.
  assert (HT : ~ S + L == 0) by lra.
  rewrite !(qdiv_ret _ _ HT). cbn [bind].
  set (E := Qmin (S + L) (pet * 0.87)).
  assert (HE0 : 0 <= E) by (apply Q.min_glb; lra).
  assert (HE1 : E <= S + L) by apply Q.le_min_l.
  assert (HE2 : E <= pet * 0.87) by apply Q.le_min_r.
  destruct (share_facts S L E) as (Hsum & [Ha0 Ha1] & [Hb0 Hb1]); try lra.
  set (a := E * (S / (S + L))) in *. set (b := E * (L / (S + L))) in *.
  assert (Hs1 : Qmax (S - a) 0 == S - a) by (apply Q.max_l; lra).
  assert (Hl1 : Qmax (L - b) 0 == L - b) by (apply Q.max_l; lra).
  assert (Hp1 : Qmax (pet - E / 0.87) 0 == pet - E / 0.87).
  { apply Q.max_l. assert (E / 0.87 <= pet); [|lra].
    apply Qle_shift_div_r; lra. }
  assert (Hp2 : 0.87 * (E / 0.87) == E) by (field; discriminate).
  assert (Hp3 : 0 <= E / 0.87) by (apply Qle_shift_div_l; lra).
  set (snow1 := Qmax (S - a) 0) in *. set (snlq1 := Qmax (L - b) 0) in *.
  set (pet1 := Qmax (pet - E / 0.87) 0) in *.
  destruct (Qle_bool tmelt_1 tave) eqn:Et.
  - apply Qle_bool_iff in Et.
    set (tm := Qmax (tmelt_2 * (tave - tmelt_1) * shwave) 0).
    assert (Htm : 0 <= tm) by apply Q.le_max_r.
    assert (Hsm0 : 0 <= Qmin tm snow1) by (apply Q.min_glb; lra).
    assert (Hsm1 : Qmin tm snow1 <= snow1) by apply Q.le_min_r.
    set (sm := Qmin tm snow1) in *.
    destruct (Qgtb (snlq1 + sm) (0.5 * (snow1 - sm))) eqn:Eg.
    + apply Qgtb_true in Eg. eexists. split; [reflexivity|]. cbn.
      repeat split; try lra.
    + apply Qgtb_false in Eg. eexists. split; [reflexivity|]. cbn.
      repeat split; try lra.
  - eexists. split; [reflexivity|]. cbn.
    assert (Hf : ~ tmelt_1 <= tave).
    { intro H. apply Qle_bool_iff in H. congruence. }
    repeat split; lra.
Qed.

(** X9.  With precipitation, snow, liquid in snow and evapotranspiration not
    negative, [snow_point] returns (the total of snow and liquid it divides
    by is positive), none of its outputs is negative, the remaining
    evapotranspiration is not raised, and water is conserved: snow, liquid in
    snow and the inputs passed on, plus what evaporated (0.87 times the
    evapotranspiration used up), add up to the snow, liquid and precipitation
    that came in.  When there was snow and it is warm enough to melt, the
    liquid left in the pack is at most half the snow. *)
Theorem snow_point_water_balance
    (precip max_temp min_temp snow snlq pet tmelt_1 tmelt_2 shwave : Q) :
  0 <= precip -> 0 <= snow -> 0 <= snlq -> 0 <= pet ->
  exists s : snow_result,
    snow_point precip max_temp min_temp snow snlq pet tmelt_1 tmelt_2 shwave
      = Ret s /\
    0 <= sn_snowmelt s /\ 0 <= sn_snow s /\ 0 <= sn_snlq s /\
    0 <= sn_pet s <= pet /\ 0 <= sn_inputs_after_snow s /\
    sn_snow s + sn_snlq s + sn_inputs_after_snow s + 0.87 * (pet - sn_pet s)
      == snow + snlq + precip /\
    (0 < snow -> tmelt_1 <= (max_temp + min_temp) / 2 ->
     sn_snlq s <= 0.5 * sn_snow s).
Proof.
  intros Hp Hs Hl Hpet. unfold snow_point. cbv zeta.
  set (tave := (max_temp + min_temp) / 2).
  destruct (Qle_bool tave 0) eqn:Et; cbv iota beta.
  - destruct (Qgtb (snow + precip) 0) eqn:Eg.
    + apply Qgtb_true in Eg.
      destruct (snow_block (snow + precip) snlq pet tmelt_1 tmelt_2 shwave
                  tave Eg Hl Hpet)
        as (s & Hs' & H1 & H2 & H3 & H4 & H5 & H6 & H7).
      cbv zeta in Hs'. exists s. split; [exact Hs'|].
      repeat split; try tauto; try lra.
    + apply Qgtb_false in Eg. eexists. split; [reflexivity|]. cbn.
      repeat split; lra.
  - destruct (Qgtb snow 0) eqn:Eg; cbv iota beta; rewrite Eg.
    + apply Qgtb_true in Eg.
      assert (Hl' : 0 <= snlq + precip) by lra.
      destruct (snow_block snow (snlq + precip) pet tmelt_1 tmelt_2 shwave
                  tave Eg Hl' Hpet)
        as (s & Hs' & H1 & H2 & H3 & H4 & H5 & H6 & H7).
      cbv zeta in Hs'. exists s. split; [exact Hs'|].
      repeat split; try tauto; try lra.
    + apply Qgtb_false in Eg. eexists. split; [reflexivity|]. cbn.
      repeat split; lra.
Qed.

Lemma snow_point_water_balance_witness :
  exists s : snow_result,
    snow_point 15 23 (-2) 8 4 4.967985 0 0.002 437.04 = Ret s /\
    sn_snow s + sn_snlq s + sn_inputs_after_snow s +
      0.87 * (4.967985 - sn_pet s) == 8 + 4 + 15.
Proof.
  destruct (snow_point_water_balance 15 23 (-2) 8 4 4.967985 0 0.002 437.04)
    as (s & Hs & _ & _ & _ & _ & _ & Hb & _);
    [discriminate | discriminate | discriminate | discriminate |].
  exists s. split; assumption.
Defined.

End Snow.

(** ** Partition of incoming material into structural and metabolic *)

Section Partit.
Import Forage.
Local Open Scope Q_scope.

Variables cpart epart_1 epart_2 damr_lyr_1 damr_lyr_2 : Q.
Variables minerl_1_1 minerl_1_2 damrmn_1 damrmn_2 pabres frlign : Q.
Variables spl_1 spl_2 rcestr_1 rcestr_2 strlig_lyr strucc_lyr : Q.
Variables metabc_lyr struce_lyr_1 metabe_lyr_1 struce_lyr_2 metabe_lyr_2 : Q.

(** X10.  Whatever [partit_point] returns conserves carbon, N and P: the incoming
    carbon is split between the structural and the metabolic pool, and the
    incoming N (P) together with what is absorbed from mineral N (P) ends in
    structural and metabolic N (P).  With [cpart > 0] and [frlign > 0] all
    incoming lignin ends in the structural pool.  With [cpart = 0] the
    function raises. *)
Theorem partit_point_conserves :
  (forall r : partit_result,
     partit_point cpart epart_1 epart_2 damr_lyr_1 damr_lyr_2 minerl_1_1
       minerl_1_2 damrmn_1 damrmn_2 pabres frlign spl_1 spl_2 rcestr_1
       rcestr_2 strlig_lyr strucc_lyr metabc_lyr struce_lyr_1 metabe_lyr_1
       struce_lyr_2 metabe_lyr_2 = Ret r ->
     mod_metabc_lyr r + mod_strucc_lyr r == metabc_lyr + strucc_lyr + cpart /\
     mod_minerl_1_1 r + mod_struce_lyr_1 r + mod_metabe_lyr_1 r ==
       minerl_1_1 + struce_lyr_1 + metabe_lyr_1 + epart_1 /\
     mod_minerl_1_2 r + mod_struce_lyr_2 r + mod_metabe_lyr_2 r ==
       minerl_1_2 + struce_lyr_2 + metabe_lyr_2 + epart_2 /\
     (0 < cpart -> 0 < frlign ->
      mod_strlig_lyr r * mod_strucc_lyr r ==
        strlig_lyr * strucc_lyr + frlign * cpart)) /\
  (cpart == 0 ->
   partit_point cpart epart_1 epart_2 damr_lyr_1 damr_lyr_2 minerl_1_1
     minerl_1_2 damrmn_1 damrmn_2 pabres frlign spl_1 spl_2 rcestr_1
     rcestr_2 strlig_lyr strucc_lyr metabc_lyr struce_lyr_1 metabe_lyr_1
     struce_lyr_2 metabe_lyr_2 = Raise ZeroDivisionError).
Proof.
  split.
  - intros r H. unfold partit_point in H. cbv zeta in H.
    bind_inv H as d1 Hd1. bind_inv H as d2 Hd2.
    bind_inv H as econc Hec. bind_inv H as rlnres Hrl.
    bind_inv H as ds1 Hds1. bind_inv H as ds2 Hds2.
    bind_inv H as sfrac Hsf. bind_inv H as lfrac Hlf.
    bind_inv H as smod Hsm.
    apply qdiv_inv in Hsf as [Hc0 Hsf]. apply qdiv_inv in Hlf as [Hs0 Hlf].
    apply qdiv_inv in Hsm as [Hden Hsm].
    inversion H as [Hr]. clear H Hr. cbn.
    split; [ring|]. split; [ring|]. split; [ring|].
    intros Hc Hf.
    set (frmet := if Qgtb frlign (1 - (spl_1 - spl_2 * rlnres))
                  then 1 - frlign else spl_1 - spl_2 * rlnres) in *.
    assert (Hfr : frmet <= 1 - frlign).
    { unfold frmet. destruct (Qgtb _ _) eqn:E.
      - lra.
      - apply Qgtb_false in E. lra. }
    set (d := cpart - cpart * frmet) in *.
    assert (Hd : frlign * cpart <= d) by (unfold d; nra).
    assert (Hdpos : 0 < d) by nra.
    assert (Hl1 : lfrac <= 1).
    { rewrite Hlf, Hsf.
      setoid_replace (frlign / (d / cpart)) with (frlign * cpart / d)
        by (field; split; lra).
      apply Qle_shift_div_r; lra. }
    assert (Hld : lfrac * d == frlign * cpart).
    { rewrite Hlf, Hsf. field. split; lra. }
    rewrite Hsm. rewrite (Q.min_l _ _ Hl1).
    setoid_replace
      ((strlig_lyr +
        ((strlig_lyr * strucc_lyr + lfrac * d) / (strucc_lyr + d) -
         strlig_lyr)) * (strucc_lyr + d))
      with (strlig_lyr * strucc_lyr + lfrac * d)
      by (field; assumption).
    rewrite Hld. reflexivity.
  - intro Hc. unfold partit_point.
    destruct (dirabs_block minerl_1_1 damr_lyr_1 cpart pabres epart_1
                damrmn_1) as [d1|[]]; [|reflexivity]. cbn [bind].
    destruct (dirabs_block minerl_1_2 damr_lyr_2 cpart pabres epart_2
                damrmn_2) as [d2|[]]; [|reflexivity]. cbn [bind].
    rewrite qdiv_raise; [reflexivity|]. rewrite Hc. reflexivity.
Qed.

End Partit.

Lemma partit_point_conserves_witness :
  exists r : Forage.partit_result,
    Forage.partit_point 10.1 0.03131 0.004242 0.02 0.02 40.45 24.19 15 150
      100 0.3 0.85 0.013 200 500 0.224 157.976 7.7447 0.8046 0.4243
      0.3152 0.0555 = Ret r /\
    (Forage.mod_strlig_lyr r * Forage.mod_strucc_lyr r ==
       0.224 * 157.976 + 0.3 * 10.1)%Q.
Proof.
  eexists. split; [vm_compute; reflexivity|].
  refine (proj2 (proj2 (proj2 (proj1 (partit_point_conserves
    10.1 0.03131 0.004242 0.02 0.02 40.45 24.19 15 150
    100 0.3 0.85 0.013 200 500 0.224 157.976 7.7447 0.8046 0.4243
    0.3152 0.0555) _ _))) _ _); vm_compute; reflexivity.
Defined.

(** ** Carbon flow out of the metabolic pools *)

Section Tcflow.
Import Forage.
Local Open Scope Q_scope.

Lemma clip_within (a hi : Q) : 0 <= hi -> 0 <= clip a 0 hi <= hi.
Proof.
  intro H. unfold clip. split.
  - apply Q.min_glb; [assumption|apply Q.le_max_r].
  - apply Q.le_min_l.
Qed.

Lemma decompose_mask_raises
    (aminrl_1 aminrl_2 c e_1 e_2 r_1 r_2 : Q) :
  e_1 == 0 \/ e_2 == 0 ->
  decompose_mask aminrl_1 aminrl_2 c e_1 e_2 r_1 r_2 =
  Raise ZeroDivisionError.
Proof.
  intro H. unfold decompose_mask.
  destruct (Qeq_dec e_1 0) as [H1|H1].
  - now rewrite (qdiv_raise _ _ H1).
  - rewrite (qdiv_ret _ _ H1). cbn [bind].
    destruct H as [H|H]; [contradiction|]. now rewrite (qdiv_raise _ _ H).
Qed.

(** X11.  The carbon that [calc_tcflow_surface_point] and [calc_tcflow_soil_point]
    let flow out of a metabolic pool that is not negative is never negative
    and never more than the pool holds, whatever the rate factors.  With no
    N or no P in the pool both raise, also when mineral N and P alone would
    allow decomposition. *)
Theorem tcflow_within_pool
    (aminrl_1 aminrl_2 metabc metabe_1 metabe_2 rceto1_1 rceto1_2
     defac dec2 pheff_metab anerb : Q) :
  (0 <= metabc ->
   forall r : Q,
     calc_tcflow_surface_point aminrl_1 aminrl_2 metabc metabe_1 metabe_2
       rceto1_1 rceto1_2 defac dec2 pheff_metab = Ret r \/
     calc_tcflow_soil_point aminrl_1 aminrl_2 metabc metabe_1 metabe_2
       rceto1_1 rceto1_2 defac dec2 pheff_metab anerb = Ret r ->
     0 <= r <= metabc) /\
  (metabe_1 == 0 \/ metabe_2 == 0 ->
   calc_tcflow_surface_point aminrl_1 aminrl_2 metabc metabe_1 metabe_2
     rceto1_1 rceto1_2 defac dec2 pheff_metab = Raise ZeroDivisionError /\
   calc_tcflow_soil_point aminrl_1 aminrl_2 metabc metabe_1 metabe_2
     rceto1_1 rceto1_2 defac dec2 pheff_metab anerb = Raise ZeroDivisionError).
Proof.
  split.
  - intros Hm r [H|H];
      [unfold calc_tcflow_surface_point in H
      |unfold calc_tcflow_soil_point in H];
      bind_inv H as mask Hmask; destruct mask; inversion H;
      try (apply clip_within; assumption); lra.
  - intro H. unfold calc_tcflow_surface_point, calc_tcflow_soil_point.
    rewrite (decompose_mask_raises _ _ _ _ _ _ _ H). split; reflexivity.
Qed.

Lemma tcflow_within_pool_witness :
  exists r : Q,
    calc_tcflow_surface_point 5.8821 0.04781 169.22 0.7776 0.3111 5.29 2.92
      0.822 3.9 0.9917 = Ret r /\ 0 <= r <= 169.22.
Proof.
  eexists. split; [vm_compute; reflexivity|].
  refine (proj1 (tcflow_within_pool 5.8821 0.04781 169.22 0.7776 0.3111
                   5.29 2.92 0.822 3.9 0.9917 1) _ _ (or_introl _));
    [discriminate | vm_compute; reflexivity].
Defined.

End Tcflow.

(** ** The range assertion of the tests *)

Section RangeAssertion.
Import Forage.
Local Open Scope Q_scope.

Lemma amin_ge (lo : Q) (l : list Q) :
  forall x : Q, lo <= amin x l <-> lo <= x /\ Forall (fun v => lo <= v) l.
Proof.
  unfold amin. induction l as [|y l IH]; intro x; cbn.
  - split; [intro H; split; [assumption|constructor]|tauto].
  - rewrite IH. rewrite Q.min_glb_iff. split.
    + intros [[H1 H2] H3]. split; [assumption|]. constructor; assumption.
    + intros [H1 H2]. inversion H2; subst. tauto.
Qed.

Lemma amax_le (hi : Q) (l : list Q) :
  forall x : Q, amax x l <= hi <-> x <= hi /\ Forall (fun v => v <= hi) l.
Proof.
  unfold amax. induction l as [|y l IH]; intro x; cbn.
  - split; [intro H; split; [assumption|constructor]|tauto].
  - rewrite IH. rewrite Q.max_lub_iff. split.
    + intros [[H1 H2] H3]. split; [assumption|]. constructor; assumption.
    + intros [H1 H2]. inversion H2; subst. tauto.
Qed.

Lemma Forall_filter_valid (P : Q -> Prop) (nodata : Q) (l : list Q) :
  Forall P (filter (fun v => negb (Qeq_bool v nodata)) l) <->
  Forall (fun v => v == nodata \/ P v) l.
Proof.
  induction l as [|x l IH]; cbn.
  - split; constructor.
  - destruct (Qeq_bool x nodata) eqn:E; cbn.
    + apply Qeq_bool_iff in E. rewrite IH. split.
      * intro H. constructor; [left; assumption|assumption].
      * intro H. inversion H; assumption.
    + assert (Hne : ~ x == nodata).
      { intro H. apply Qeq_bool_iff in H. congruence. }
      split.
      * intro H. inversion H; subst. constructor; [right; assumption|].
        apply IH. assumption.
      * intro H. inversion H as [|? ? [Hx|Hx] Hl]; subst; [contradiction|].
        constructor; [assumption|]. apply IH. assumption.
Qed.

(** X12.  [assert_all_values_in_array_within_range] passes exactly when every
    value that differs from the nodata value lies within the range; so an
    array holding nothing but nodata passes whatever the range, and a value
    that equals the nodata value is never checked. *)
Theorem range_assertion_passes_iff (array_to_test : list Q)
    (minimum maximum nodata : Q) :
  (assert_all_values_in_array_within_range array_to_test minimum maximum
     nodata = true <->
   Forall (fun v => v == nodata \/ minimum <= v <= maximum) array_to_test) /\
  (Forall (fun v => v == nodata) array_to_test ->
   assert_all_values_in_array_within_range array_to_test minimum maximum
     nodata = true).
Proof.
  assert (Hiff :
    assert_all_values_in_array_within_range array_to_test minimum maximum
      nodata = true <->
    Forall (fun v => v == nodata \/ minimum <= v <= maximum) array_to_test).
  { rewrite <- Forall_filter_valid.
    unfold assert_all_values_in_array_within_range.
    destruct (filter _ array_to_test) as [|v valid].
    - split; [constructor|reflexivity].
    - rewrite andb_true_iff, !Qle_bool_iff, amin_ge, amax_le. split.
      + intros [[H1 H2] [H3 H4]]. constructor; [tauto|].
        rewrite Forall_forall in *. intros x Hx. split; auto.
      + intro H. inversion H as [|? ? [H1 H3] Hl]; subst.
        rewrite Forall_forall in Hl.
        repeat split; try assumption;
          rewrite Forall_forall; intros x Hx; apply (Hl x Hx). }
  split; [exact Hiff|].
  intro H. apply Hiff. rewrite Forall_forall in *. intros x Hx. left. auto.
Qed.

Lemma range_assertion_passes_iff_witness :
  assert_all_values_in_array_within_range [-1; -1; -1] 122.8159 122.8161 (-1)
    = true.
Proof.
  apply (range_assertion_passes_iff [-1; -1; -1] 122.8159 122.8161 (-1)).
  repeat constructor.
Defined.

End RangeAssertion.

(** ** RouteDEM: validation and the task graph *)

Section RouteDEMValidate.
Import RouteDEM.
Local Open Scope string_scope.

Lemma get_cons_other (a : args) (k k' : string) (v : value) :
  k <> k' -> get ((k', v) :: a) k = get a k.
Proof.
  intro H. cbn. apply String.eqb_neq in H. now rewrite H.
Qed.

Lemma required_keys_not_algorithm (a : args) (k : string) :
  In k (required_keys a) -> k <> "algorithm".
Proof.
  unfold required_keys. intro H. apply in_app_or in H.
  destruct H as [[<-|[<-|[]]]|H]; try discriminate.
  destruct (flag a "calculate_stream_threshold");
    [destruct H as [<-|[]]; discriminate | destruct H].
Qed.

(** X13.  [validate] never looks at the routing algorithm: its verdict is the
    same whatever value [args] holds under ['algorithm'], so an algorithm
    that [execute] rejects passes validation. *)
Theorem validate_ignores_algorithm (fs : filesystem) (a : args) (v : value)
    (limit_to : option string) :
  validate fs (("algorithm", v) :: a) limit_to = validate fs a limit_to.
Proof.
  assert (Hflag : flag (("algorithm", v) :: a) "calculate_stream_threshold" =
                  flag a "calculate_stream_threshold").
  { unfold flag. rewrite get_cons_other by discriminate. reflexivity. }
  assert (Hreq : required_keys (("algorithm", v) :: a) = required_keys a).
  { unfold required_keys. now rewrite Hflag. }
  assert (Hmiss : missing_key_list (("algorithm", v) :: a) limit_to =
                  missing_key_list a limit_to).
  { unfold missing_key_list. rewrite Hreq. apply filter_ext_in.
    intros k Hk. unfold has_key.
    rewrite get_cons_other by (apply (required_keys_not_algorithm a k Hk)).
    reflexivity. }
  assert (Hnov : no_value_list (("algorithm", v) :: a) limit_to =
                 no_value_list a limit_to).
  { unfold no_value_list. rewrite Hreq. apply filter_ext_in.
    intros k Hk. unfold has_key, has_no_value.
    rewrite get_cons_other by (apply (required_keys_not_algorithm a k Hk)).
    reflexivity. }
  unfold validate. rewrite Hmiss, Hnov.
  rewrite (get_cons_other a "dem_path" "algorithm" v) by discriminate.
  reflexivity.
Qed.

Lemma missing_key_list_spec (a : args) (k : string) :
  In k (missing_key_list a None) <->
  In k (required_keys a) /\ get a k = None.
Proof.
  unfold missing_key_list. rewrite filter_In. cbn. unfold has_key.
  destruct (get a k); cbn; intuition discriminate.
Qed.

(** X14.  Without [limit_to], [validate] raises a [KeyError] exactly when a
    required key is missing from [args], and its message lists every
    missing required key, in the order [workspace_dir], [dem_path],
    [threshold_flow_accumulation] (the last is required only when
    [calculate_stream_threshold] is set). *)
Theorem validate_reports_missing_keys (fs : filesystem) (a : args) :
  ((exists k, In k (required_keys a) /\ get a k = None) <->
   exists msg, validate fs a None = inl (KeyError msg)) /\
  (forall msg, validate fs a None = inl (KeyError msg) ->
   msg = "The following keys were expected in `args` but were missing " ++
         String.concat ", " (missing_key_list a None) /\
   forall k, In k (missing_key_list a None) <->
             In k (required_keys a) /\ get a k = None).
Proof.
  assert (Hempty : missing_key_list a None = [] ->
            forall msg, validate fs a None <> inl (KeyError msg)).
  { intros He msg. unfold validate. rewrite He. cbn.
    destruct (get a "dem_path") as [[p| | |]|] eqn:Ed; try discriminate.
    - destruct (path_exists fs p); cbn; [|discriminate].
      destruct (gdal_opens fs p); discriminate.
    - exfalso.
      assert (Hin : In "dem_path" (missing_key_list a None)).
      { apply missing_key_list_spec. split; [|assumption].
        unfold required_keys. apply in_or_app. left. cbn. auto. }
      rewrite He in Hin. destruct Hin. }
  split.
  - split.
    + intros (k & Hk & Hg).
      assert (Hin : In k (missing_key_list a None))
        by (apply missing_key_list_spec; auto).
      unfold validate. destruct (missing_key_list a None) as [|m ms];
        [destruct Hin|]. cbn. eauto.
    + intros (msg & H).
      destruct (missing_key_list a None) as [|m ms] eqn:E.
      * exfalso. exact (Hempty eq_refl msg H).
      * exists m. apply missing_key_list_spec. rewrite E. cbn. auto.
  - intros msg H. split; [|apply missing_key_list_spec].
    destruct (missing_key_list a None) as [|m ms] eqn:E.
    + exfalso. exact (Hempty eq_refl msg H).
    + unfold validate in H. rewrite E in H. cbn in H. inversion H.
      reflexivity.
Qed.

Lemma validate_reports_missing_keys_witness :
  validate (mk_fs (fun _ => true) (fun _ => true))
    [("calculate_stream_threshold", VBool true); ("dem_path", VStr "dem.tif")]
    None =
  inl (KeyError
         ("The following keys were expected in `args` but were missing " ++
          "workspace_dir, threshold_flow_accumulation")).
Proof.
  destruct (proj1 (proj1 (validate_reports_missing_keys
              (mk_fs (fun _ => true) (fun _ => true))
              [("calculate_stream_threshold", VBool true);
               ("dem_path", VStr "dem.tif")]))) as (msg & Hmsg).
  - exists "workspace_dir". split; [cbn; auto|reflexivity].
  - rewrite Hmsg. f_equal. f_equal.
    apply (proj2 (validate_reports_missing_keys _ _) msg Hmsg).
Defined.

End RouteDEMValidate.

Section RouteDEMKeys.
Import RouteDEM.
Local Open Scope string_scope.

Lemma nke_ret {A : Type} (a : A) : no_key_error (mret a).
Proof. intros tr tr' k. unfold mret. congruence. Qed.

Lemma nke_emit (ev : event) : no_key_error (emit ev).
Proof. intros tr tr' k. unfold emit. congruence. Qed.

Lemma nke_raise {A : Type} (e : py_exn) :
  (forall k, e <> KeyError k) -> no_key_error (@mraise A e).
Proof. intros H tr tr' k. unfold mraise. specialize (H k). congruence. Qed.

Lemma nke_bind_post {A B : Type} (P : A -> Prop) (m : M A) (k : A -> M B) :
  no_key_error m ->
  (forall tr tr' a, m tr = (inr a, tr') -> P a) ->
  (forall a, P a -> no_key_error (k a)) ->
  no_key_error (mbind m k).
Proof.
  intros Hm HP Hk tr tr' key. unfold mbind.
  destruct (m tr) as [[e|a] tr1] eqn:E.
  - intro H. inversion H; subst. exact (Hm tr tr' key E).
  - apply Hk. exact (HP _ _ _ E).
Qed.

Lemma nke_bind {A B : Type} (m : M A) (k : A -> M B) :
  no_key_error m -> (forall a, no_key_error (k a)) ->
  no_key_error (mbind m k).
Proof.
  intros Hm Hk. apply (nke_bind_post (fun _ => True)); auto.
Qed.

Lemma getitem_nke (a : args) (k : string) :
  (exists v, get a k = Some v) -> no_key_error (getitem a k).
Proof.
  intros [v Hv]. unfold getitem. rewrite Hv. apply nke_ret.
Qed.

Ltac nke_step :=
  first
    [ apply nke_bind; [|intros ?]
    | apply nke_ret
    | apply nke_emit
    | apply nke_raise; intros ?; discriminate
    | apply getitem_nke; assumption
    | match goal with
      | |- no_key_error (if ?b then _ else _) => destruct b eqn:?
      | |- no_key_error (match ?x with _ => _ end) => destruct x
      end ].

Lemma check_algorithm_returns (a : args) (tr tr' : list event)
    (af : string * routing_funcs) :
  check_algorithm a tr = (inr af, tr') ->
  exists s, get a "algorithm" = Some (VStr s) /\ fst af = upper s /\
            find_funcs _ROUTING_FUNCS (upper s) = Some (snd af) /\ tr' = tr.
Proof.
  unfold check_algorithm, getitem, mbind, mret, mraise.
  destruct (get a "algorithm") as [[s| | |]|]; try discriminate.
  destruct (find_funcs _ROUTING_FUNCS (upper s)) as [f|] eqn:Ef;
    [|discriminate].
  intro H. inversion H; subst. exists s. auto.
Qed.

Lemma validate_ok_keys (fs : filesystem) (a : args)
    (errs : list (list string * string)) (k : string) :
  validate fs a None = inr errs -> In k (required_keys a) ->
  exists v, get a k = Some v.
Proof.
  intros Hv Hk. destruct (get a k) as [v|] eqn:Eg; [eauto|exfalso].
  assert (Hin : In k (missing_key_list a None))
    by (apply missing_key_list_spec; auto).
  unfold validate in Hv.
  destruct (missing_key_list a None); [destruct Hin | discriminate].
Qed.

(** X15.  Arguments that pass [validate] hold every key a D8 run of [execute]
    reads: with ['algorithm'] naming D8 (in any letter case), [execute]
    never ends in a [KeyError], whatever the library calls answer. *)
Theorem validated_d8_no_key_error (fs : filesystem) (e : environment)
    (a : args) (errs : list (list string * string)) (alg : string) :
  validate fs a None = inr errs ->
  get a "algorithm" = Some (VStr alg) ->
  upper alg = "D8" ->
  forall (tr : list event) (k : string),
    execute e a [] <> (inl (KeyError k), tr).
Proof.
  intros Hval Halg Hup tr k. revert tr k. generalize (@nil event).
  change (no_key_error (execute e a)).
  assert (Hw : exists v, get a "workspace_dir" = Some v).
  { apply (validate_ok_keys fs a errs _ Hval). unfold required_keys.
    apply in_or_app. left. cbn. auto. }
  assert (Hd : exists v, get a "dem_path" = Some v).
  { apply (validate_ok_keys fs a errs _ Hval). unfold required_keys.
    apply in_or_app. left. cbn. auto. }
  assert (Ht : flag a "calculate_stream_threshold" = true ->
               exists v, get a "threshold_flow_accumulation" = Some v).
  { intro Hf. apply (validate_ok_keys fs a errs _ Hval).
    unfold required_keys. rewrite Hf. apply in_or_app. right. cbn. auto. }
  unfold execute. apply nke_bind.
  { unfold set_up, as_path. repeat nke_step. }
  intros su.
  apply (nke_bind_post (fun af => fst af = "D8")).
  - unfold check_algorithm, getitem. rewrite Halg. repeat nke_step.
  - intros tr tr' af Haf.
    destruct (check_algorithm_returns _ _ _ _ Haf) as (s & Hs & Hf & _).
    rewrite Halg in Hs. inversion Hs; subst s. congruence.
  - intros [algorithm funcs] Ha. cbn in Ha. subst algorithm. cbn [fst snd].
    unfold schedule, add_task, as_path, float.
    change ("D8" =? "D8") with true. cbv iota.
    repeat first
      [nke_step | apply getitem_nke; apply Ht; (assumption || reflexivity)].
Qed.

Lemma validated_d8_no_key_error_witness :
  validate (mk_fs (fun _ => true) (fun _ => true)) (sample_args "d8") None =
    inr [] /\
  forall (tr : list event) (k : string),
    execute sample_env (sample_args "d8") [] <> (inl (KeyError k), tr).
Proof.
  split; [reflexivity|].
  exact (validated_d8_no_key_error (mk_fs (fun _ => true) (fun _ => true))
           sample_env (sample_args "d8") [] "d8" eq_refl eq_refl eq_refl).
Defined.

End RouteDEMKeys.

Section RouteDEMGraph.
Import RouteDEM.
Local Open Scope string_scope.

Lemma set_up_returns (e : environment) (a : args) (tr tr' : list event)
    (su : string * string) :
  set_up e a tr = (inr su, tr') ->
  exists w d, get a "workspace_dir" = Some (VStr w) /\
              get a "dem_path" = Some (VStr d).
Proof.
  unfold set_up, getitem, as_path, mbind, mret, mraise, emit.
  destruct (get a "workspace_dir") as [[w| | |]|]; try discriminate.
  destruct (make_directories e _); try discriminate.
  destruct (get a "dem_path") as [[d| | |]|]; try discriminate.
  intros _. eauto.
Qed.

(** X16.  The MFD branch reads ['stream_threshold'], a key [validate] does not
    ask for (it asks for ['threshold_flow_accumulation']).  When the set-up
    completes, the algorithm is MFD in any letter case, flow accumulation
    and stream thresholding are both requested and [args] has no
    ['stream_threshold'], [execute] ends in [KeyError('stream_threshold')]
    after the flow-accumulation task was added, and the graph is not
    joined. *)
Theorem mfd_needs_stream_threshold (e : environment) (a : args)
    (alg : string) (su : string * string) (tr0 : list event) :
  get a "algorithm" = Some (VStr alg) ->
  upper alg = "MFD" ->
  flag a "calculate_flow_accumulation" = true ->
  flag a "calculate_stream_threshold" = true ->
  get a "stream_threshold" = None ->
  set_up e a [] = (inr su, tr0) ->
  exists tr t,
    execute e a [] = (inl (KeyError "stream_threshold"), tr) /\
    In (AddTask t) tr /\ task_name t = ["flow_accumulation_MFD"] /\
    ~ In JoinGraph tr.
Proof.
  intros Halg Hup Hacc Hthr Hst Hsu.
  destruct (set_up_returns _ _ _ _ _ Hsu) as (w & d & Hw & Hd).
  assert (Htr0 : ~ In JoinGraph tr0).
  { destruct (set_up_trace e a _ _ _ Hsu) as (evs & -> & Hevs).
    cbn. intro Hin. rewrite Forall_forall in Hevs.
    specialize (Hevs _ Hin). discriminate. }
  unfold execute, mbind. rewrite Hsu.
  unfold check_algorithm, getitem, mbind. rewrite Halg. cbn [mret].
  rewrite Hup. cbn [find_funcs _ROUTING_FUNCS].
  change ("MFD" =? "D8") with false. change ("MFD" =? "MFD") with true.
  cbv iota. unfold mret at 1. cbn [fst snd].
  unfold schedule, add_task, getitem, as_path, mbind, emit, mret, mraise.
  rewrite Hacc, Hthr, Hw, Hst.
  change ("MFD" =? "D8") with false. cbv iota.
  destruct (flag a "calculate_slope");
    (eexists; eexists; split; [reflexivity|];
     split; [apply in_or_app; right; left; reflexivity|];
     split; [reflexivity|];
     intro Hin; repeat (apply in_app_or in Hin; destruct Hin as [Hin|Hin]);
     try contradiction; cbn in Hin; intuition discriminate).
Qed.

Lemma mfd_needs_stream_threshold_witness :
  validate (mk_fs (fun _ => true) (fun _ => true)) (sample_args "mfd") None =
    inr [] /\
  exists tr t,
    execute sample_env (sample_args "mfd") [] =
      (inl (KeyError "stream_threshold"), tr) /\
    In (AddTask t) tr /\ task_name t = ["flow_accumulation_MFD"] /\
    ~ In JoinGraph tr.
Proof.
  split; [reflexivity|].
  refine (mfd_needs_stream_threshold sample_env (sample_args "mfd") "mfd"
            _ _ eq_refl eq_refl eq_refl eq_refl eq_refl _).
  vm_compute. reflexivity.
Defined.

End RouteDEMGraph.

Section RouteDEMTrace.
Import RouteDEM.
Local Open Scope string_scope.

Lemma not_join_app (evs1 evs2 : list event) :
  ~ In JoinGraph evs1 -> ~ In JoinGraph evs2 ->
  ~ In JoinGraph (evs1 ++ evs2).
Proof.
  intros H1 H2 H. apply in_app_or in H. tauto.
Qed.

Lemma eij_bind {A B : Type} (m : M A) (k : A -> M B) :
  emits_only (fun ev => ev <> JoinGraph) m ->
  (forall a, ends_in_join (k a)) ->
  ends_in_join (mbind m k).
Proof.
  intros Hm Hk tr tr' r. unfold mbind.
  destruct (m tr) as [[ex|x] tr1] eqn:E; intro H.
  - inversion H; subst. destruct (Hm _ _ _ E) as (evs & -> & Hevs).
    exists evs. split; [reflexivity|]. rewrite Forall_forall in Hevs.
    intro Hin. exact (Hevs _ Hin eq_refl).
  - destruct (Hm _ _ _ E) as (evs1 & -> & H1).
    assert (H1' : ~ In JoinGraph evs1).
    { rewrite Forall_forall in H1. intro Hin. exact (H1 _ Hin eq_refl). }
    destruct (Hk x _ _ _ H) as (evs2 & -> & H2).
    exists (evs1 ++ evs2)%list. rewrite app_assoc. split; [reflexivity|].
    destruct r as [ex|y].
    + apply not_join_app; assumption.
    + destruct H2 as (evs0 & -> & H0). exists (evs1 ++ evs0)%list.
      rewrite app_assoc. split; [reflexivity|].
      apply not_join_app; assumption.
Qed.

Lemma eij_join : ends_in_join (emit JoinGraph).
Proof.
  intros tr tr' r H. unfold emit in H. inversion H; subst.
  exists [JoinGraph]. split; [reflexivity|]. exists []. split; [reflexivity|].
  intros [].
Qed.

Ltac eo_step :=
  first
    [ apply eo_bind; [|intros ?]
    | apply eo_ret
    | apply eo_raise
    | apply eo_emit; discriminate
    | match goal with
      | |- emits_only _ (if ?b then _ else _) => destruct b
      | |- emits_only _ (match ?x with _ => _ end) => destruct x
      end ].

Lemma schedule_ends_in_join (e : environment) (a : args)
    (file_suffix task_cache_dir algorithm : string) (funcs : routing_funcs) :
  ends_in_join (schedule e a file_suffix task_cache_dir algorithm funcs).
Proof.
  unfold schedule, add_task, getitem, as_path, float.
  repeat (apply eij_bind; [repeat eo_step | intros ?]).
  apply eij_join.
Qed.

(** X17.  [execute] calls [graph.join()] exactly when it is about to return:
    a run that returns has the join as the last event of its trace and
    nowhere before, and a run that ends in any exception never joined the
    graph, whatever tasks it had added by then. *)
Theorem execute_joins_graph_last (e : environment) (a : args)
    (r : py_exn + unit) (tr : list event) :
  execute e a [] = (r, tr) ->
  match r with
  | inr _ => exists tr0, tr = (tr0 ++ [JoinGraph])%list /\
                         ~ In JoinGraph tr0
  | inl _ => ~ In JoinGraph tr
  end.
Proof.
  assert (H : ends_in_join (execute e a)).
  { unfold execute. apply eij_bind.
    { unfold set_up, getitem, as_path. repeat eo_step. }
    intros su. apply eij_bind.
    { unfold check_algorithm, getitem. repeat eo_step. }
    intros af. apply schedule_ends_in_join. }
  intro Hex. destruct (H _ _ _ Hex) as (evs & -> & Hevs). exact Hevs.
Qed.

Lemma execute_joins_graph_last_witness :
  (exists tr0,
     snd (execute sample_env (sample_args "d8") []) =
       (tr0 ++ [JoinGraph])%list /\ ~ In JoinGraph tr0) /\
  ~ In JoinGraph (snd (execute sample_env (sample_args "mfd") [])).
Proof.
  split.
  - exact (execute_joins_graph_last sample_env (sample_args "d8")
             (inr tt) _ eq_refl).
  - exact (execute_joins_graph_last sample_env (sample_args "mfd")
             (inl (KeyError "stream_threshold")) _ eq_refl).
Defined.

End RouteDEMTrace.

Section RouteDEMDependencies.
Import RouteDEM.
Local Open Scope string_scope.

Lemma dependencies_after_set_up (seen : list string) (evs1 evs2 : list event) :
  Forall (fun ev => is_scheduling ev = false) evs1 ->
  dependencies_scheduled seen evs2 ->
  dependencies_scheduled seen (evs1 ++ evs2).
Proof.
  induction 1 as [|ev evs1 Hev _ IH]; intro H2; [exact H2|].
  destruct ev; try discriminate; cbn; auto.
Qed.

Lemma task_names_app (tr1 tr2 : list event) :
  task_names (tr1 ++ tr2) = (task_names tr1 ++ task_names tr2)%list.
Proof. unfold task_names. apply flat_map_app. Qed.

Lemma task_names_set_up (evs : list event) :
  Forall (fun ev => is_scheduling ev = false) evs -> task_names evs = [].
Proof.
  induction 1 as [|ev evs Hev _ IH]; [reflexivity|].
  destruct ev; try discriminate; cbn; auto.
Qed.

Lemma check_algorithm_trace (a : args) (tr : list event) :
  snd (check_algorithm a tr) = tr.
Proof.
  unfold check_algorithm, getitem, mbind, mret, mraise.
  destruct (get a "algorithm") as [[s| | |]|]; try reflexivity.
  destruct (find_funcs _ROUTING_FUNCS (upper s)); reflexivity.
Qed.

Ltac schedule_case :=
  match goal with
  | |- context [flag ?a "calculate_slope"] =>
      destruct (flag a "calculate_slope")
  | |- context [get ?a "workspace_dir"] =>
      destruct (get a "workspace_dir") as [[?| | |]|]
  | |- context [flag ?a "calculate_flow_accumulation"] =>
      destruct (flag a "calculate_flow_accumulation")
  | |- context [flag ?a "calculate_stream_threshold"] =>
      destruct (flag a "calculate_stream_threshold")
  | |- context [String.eqb ?alg "D8"] => destruct (String.eqb alg "D8")
  | |- context [raster_n_bands ?e ?p] => destruct (raster_n_bands e p)
  | |- context [get ?a "threshold_flow_accumulation"] =>
      destruct (get a "threshold_flow_accumulation") as [[?| | |]|]
  | |- context [get ?a "stream_threshold"] =>
      destruct (get a "stream_threshold") as [[?| | |]|]
  | |- context [parse_float ?e ?s] => destruct (parse_float e s)
  | |- context [flag ?a "calculate_downstream_distance"] =>
      destruct (flag a "calculate_downstream_distance")
  end.

Lemma schedule_dependencies (e : environment) (a : args)
    (file_suffix task_cache_dir algorithm : string) (funcs : routing_funcs)
    (tr : list event) :
  exists evs,
    snd (schedule e a file_suffix task_cache_dir algorithm funcs tr) =
      (tr ++ evs)%list /\
    dependencies_scheduled [] evs.
Proof.
  unfold schedule, add_task, getitem, as_path, float, mbind, emit, mret,
    mraise.
  repeat (cbv beta iota; cbn [snd fst];
          first
            [ solve [ eexists; split;
                      [ rewrite <- ?app_assoc; reflexivity
                      | cbn; intuition ] ]
            | schedule_case ]).
Qed.

(** X18.  In every run of [execute], whatever [args] holds and whatever the
    library calls answer, a task that names tasks in its
    [dependent_task_list] names only tasks that were added to the graph
    before it. *)
Theorem execute_dependencies_scheduled (e : environment) (a : args) :
  dependencies_scheduled [] (snd (execute e a [])).
Proof.
  unfold execute, mbind.
  destruct (set_up e a []) as [[ex|su] tr1] eqn:Hsu;
    destruct (set_up_trace e a _ _ _ Hsu) as (evs1 & -> & H1); cbn [app].
  - cbn. rewrite <- (app_nil_r evs1).
    apply dependencies_after_set_up; [assumption|exact I].
  - pose proof (check_algorithm_trace a evs1) as Hc.
    destruct (check_algorithm a evs1) as [[ex|af] tr2]; cbn in Hc; subst tr2.
    + cbn. rewrite <- (app_nil_r evs1).
      apply dependencies_after_set_up; [assumption|exact I].
    + destruct (schedule_dependencies e a (fst su) (snd su) (fst af) (snd af)
                  evs1) as (evs & -> & Hevs).
      apply dependencies_after_set_up; assumption.
Qed.

End RouteDEMDependencies.

Section RouteDEMOutputs.
Import RouteDEM.
Local Open Scope string_scope.

(** X19.  Stream thresholding is nested under flow accumulation, and downstream
    distance under both.  When the set-up completes, the algorithm is D8 or
    MFD (in any letter case) and flow accumulation or stream thresholding is
    not requested, [execute] returns normally whatever else [args] holds:
    it always adds the pit-filling and flow-direction tasks, and no stream
    or downstream-distance task, so a request for downstream distance is
    dropped without a message. *)
Theorem execute_returns_without_streams (e : environment) (a : args)
    (alg : string) (su : string * string) (tr0 : list event) :
  set_up e a [] = (inr su, tr0) ->
  get a "algorithm" = Some (VStr alg) ->
  upper alg = "D8" \/ upper alg = "MFD" ->
  flag a "calculate_flow_accumulation" = false \/
  flag a "calculate_stream_threshold" = false ->
  exists tr,
    execute e a [] = (inr tt, tr) /\
    In "fill_pits" (task_names tr) /\
    In ("flow_dir_" ++ upper alg) (task_names tr) /\
    forall n, In n (task_names tr) ->
      In n ["calculate_slope"; "fill_pits"; "flow_dir_" ++ upper alg;
            "flow_accumulation_" ++ upper alg].
Proof.
  intros Hsu Halg Hup Hflags.
  destruct (set_up_returns _ _ _ _ _ Hsu) as (w & d & Hw & Hd).
  destruct (set_up_trace e a _ _ _ Hsu) as (evs0 & -> & Hevs0).
  pose proof (task_names_set_up _ Hevs0) as Hn0. cbn [app] in *.
  unfold execute, mbind. rewrite Hsu.
  unfold check_algorithm, getitem, mbind. rewrite Halg. cbn [mret].
  destruct Hup as [-> | ->]; cbn [find_funcs _ROUTING_FUNCS];
    [ change ("D8" =? "D8") with true
    | change ("MFD" =? "D8") with false;
      change ("MFD" =? "MFD") with true ];
    cbv iota; unfold mret at 1; cbn [fst snd];
    unfold schedule, add_task, getitem, as_path, mbind, emit, mret, mraise;
    rewrite Hw;
    destruct (flag a "calculate_slope");
    destruct (flag a "calculate_flow_accumulation");
    destruct (flag a "calculate_stream_threshold");
    try (destruct Hflags; discriminate);
    (eexists; split; [reflexivity|];
     rewrite !task_names_app, Hn0; cbn; intuition).
Qed.

Lemma execute_returns_without_streams_witness :
  exists tr,
    execute sample_env
      [("workspace_dir", VStr "ws"); ("dem_path", VStr "dem.tif");
       ("algorithm", VStr "mfd");
       ("calculate_flow_accumulation", VBool true);
       ("calculate_downstream_distance", VBool true)] [] = (inr tt, tr) /\
    In "fill_pits" (task_names tr) /\
    In ("flow_dir_" ++ upper "mfd") (task_names tr) /\
    forall n, In n (task_names tr) ->
      In n ["calculate_slope"; "fill_pits"; "flow_dir_" ++ upper "mfd";
            "flow_accumulation_" ++ upper "mfd"].
Proof.
  refine (execute_returns_without_streams sample_env
            [("workspace_dir", VStr "ws"); ("dem_path", VStr "dem.tif");
             ("algorithm", VStr "mfd");
             ("calculate_flow_accumulation", VBool true);
             ("calculate_downstream_distance", VBool true)]
            "mfd" _ _ _ eq_refl (or_intror eq_refl) (or_intror eq_refl)).
  vm_compute. reflexivity.
Defined.

End RouteDEMOutputs.

Section ThresholdFlow.
Import RouteDEM.
Local Open Scope Q_scope.




End ThresholdFlow.

(** ** Water and phosphorus point functions over the reals *)

Section ClimateFurther.
Import Climate.
Local Open Scope R_scope.

Lemma trap_demand_pos (pet_rem evap_losses tave aliv : R) :
  0 < trap_demand pet_rem evap_losses tave aliv.
Proof.
  unfold trap_demand.
  destruct (Rle_dec (pttr pet_rem tave aliv) (pet_rem - evap_losses));
    match goal with |- context [Rle_dec ?x 0] => destruct (Rle_dec x 0) end;
    lra.
Qed.

Lemma trap_demand_within (pet_rem evap_losses tave aliv : R) :
  evap_losses + 0.01 <= pet_rem ->
  trap_demand pet_rem evap_losses tave aliv <= pet_rem - evap_losses.
Proof.
  intro H. unfold trap_demand.
  destruct (Rle_dec (pttr pet_rem tave aliv) (pet_rem - evap_losses));
    match goal with |- context [Rle_dec ?x 0] => destruct (Rle_dec x 0) end;
    lra.
Qed.

(** X21.  What [potential_transpiration_point] keeps for every input: the
    returned demand [trap] is at least its floor 0.01, the returned water
    inputs and the soil evaporation [pevp] are not negative, and either the
    demand is down at its floor or the inputs are used up.  When the surface
    evaporation leaves at least 0.01 of [pet_rem], the potential
    evapotranspiration is split without remainder into surface evaporation,
    water taken for transpiration, remaining demand and soil evaporation. *)
Theorem potential_transpiration_invariants
    (pet_rem evap_losses tave aliv current_moisture_inputs : R) :
  let r := potential_transpiration_point pet_rem evap_losses tave aliv
             current_moisture_inputs in
  0.01 <= trap r /\
  0 <= modified_moisture_inputs r /\
  0 <= pevp r /\
  (trap r = 0.01 \/ modified_moisture_inputs r = 0) /\
  (evap_losses + 0.01 <= pet_rem ->
   evap_losses + (current_moisture_inputs - modified_moisture_inputs r) +
   trap r + pevp r = pet_rem).
Proof.
  cbn zeta. unfold potential_transpiration_point, tran. cbn [trap pevp
    modified_moisture_inputs].
  pose proof (trap_demand_pos pet_rem evap_losses tave aliv) as Hpos.
  pose proof (trap_demand_within pet_rem evap_losses tave aliv) as Hin.
  set (td := trap_demand pet_rem evap_losses tave aliv) in *.
  assert (Hp : 0 <= Rmax (pet_rem - td - evap_losses) 0) by apply Rmax_r.
  repeat split.
  - unfold Rmin. destruct (Rle_dec (td - 0.01) current_moisture_inputs); lra.
  - unfold Rmin. destruct (Rle_dec (td - 0.01) current_moisture_inputs); lra.
  - exact Hp.
  - unfold Rmin. destruct (Rle_dec (td - 0.01) current_moisture_inputs);
      [left|right]; lra.
  - intro H. specialize (Hin H). rewrite Rmax_left by lra. lra.
Qed.

Lemma potential_transpiration_invariants_witness :
  1 + 0.01 <= 5 /\
  1 + (3 - modified_moisture_inputs (potential_transpiration_point 5 1 10 100 3))
    + trap (potential_transpiration_point 5 1 10 100 3)
    + pevp (potential_transpiration_point 5 1 10 100 3) = 5.
Proof.
  assert (H : 1 + 0.01 <= 5) by lra.
  split; [exact H|].
  exact (proj2 (proj2 (proj2 (proj2
           (potential_transpiration_invariants 5 1 10 100 3)))) H).
Defined.

End ClimateFurther.

Section Fsfunc.
Import Climate.
Local Open Scope R_scope.

Lemma sqrt_ge_self (b d : R) : 0 <= d -> b * b <= d -> b <= sqrt d.
Proof.
  intros Hd Hb. destruct (Rle_dec b 0) as [Hn|Hp].
  - pose proof (sqrt_pos d). lra.
  - apply Rnot_le_lt in Hp. rewrite <- (sqrt_square b) by lra.
    apply sqrt_le_1_alt. exact Hb.
Qed.

Lemma sqrt_le_self (s d : R) : 0 <= s -> d <= s * s -> sqrt d <= s.
Proof.
  intros Hs Hd. apply Rle_trans with (sqrt (s * s)).
  - apply sqrt_le_1_alt. exact Hd.
  - rewrite sqrt_square by exact Hs. lra.
Qed.

(** X22.  The fraction of mineral P in solution is a fraction: for a positive
    pool [minerl_1_2], a sorption maximum [sorpmx >= 0] and an affinity
    [pslsrb <= 2], [fsfunc_point] lies in [[0, 1]]; the labile amount
    [fsol * minerl_1_2] is the root of the sorption equation
    [l * l + b * l = c * minerl_1_2]; a soil that sorbs nothing
    ([sorpmx = 0]) leaves all P in solution; and an empty pool gives 0. *)
Theorem fsfunc_point_fraction (minerl_1_2 pslsrb sorpmx : R) :
  0 < minerl_1_2 -> 0 <= sorpmx -> pslsrb <= 2 ->
  let c := sorpmx * (2 - pslsrb) / 2 in
  let b := sorpmx - minerl_1_2 + c in
  let fsol := fsfunc_point minerl_1_2 pslsrb sorpmx in
  0 <= fsol <= 1 /\
  (fsol * minerl_1_2) * (fsol * minerl_1_2) + b * (fsol * minerl_1_2) =
    c * minerl_1_2 /\
  (sorpmx = 0 -> fsol = 1) /\
  fsfunc_point 0 pslsrb sorpmx = 0.
Proof.
  intros Hm Hs Hp. cbn zeta. unfold fsfunc_point.
  destruct (Req_dec_T minerl_1_2 0) as [E|_]; [lra|].
  destruct (Req_dec_T 0 0) as [_|E]; [|contradiction].
  set (c := sorpmx * (2 - pslsrb) / 2).
  set (b := sorpmx - minerl_1_2 + c).
  assert (Hc : 0 <= c) by (unfold c; nra).
  assert (Hd : 0 <= b * b + 4 * c * minerl_1_2) by nra.
  set (s := sqrt (b * b + 4 * c * minerl_1_2)).
  assert (Hss : s * s = b * b + 4 * c * minerl_1_2)
    by (apply sqrt_sqrt; exact Hd).
  assert (Hlo : b <= s) by (apply sqrt_ge_self; [exact Hd | nra]).
  assert (Hhi : s <= 2 * minerl_1_2 + b).
  { apply sqrt_le_self; [unfold b; lra|]. unfold b. nra. }
  assert (Hlab : (- b + s) / 2 / minerl_1_2 * minerl_1_2 = (- b + s) / 2)
    by (field; lra).
  repeat split.
  - apply Rmult_le_reg_r with minerl_1_2; [exact Hm|]. rewrite Hlab. lra.
  - apply Rmult_le_reg_r with minerl_1_2; [exact Hm|]. rewrite Hlab. lra.
  - rewrite Hlab. nra.
  - intro H0. assert (Hc0 : c = 0) by (unfold c; rewrite H0; lra).
    assert (Hb0 : b = - minerl_1_2) by (unfold b; rewrite H0, Hc0; lra).
    assert (Hs0 : s = minerl_1_2).
    { unfold s. rewrite Hb0, Hc0.
      replace (- minerl_1_2 * - minerl_1_2 + 4 * 0 * minerl_1_2)
        with (minerl_1_2 * minerl_1_2) by ring.
      apply sqrt_square. lra. }
    rewrite Hs0, Hb0. field. lra.
Qed.

Lemma fsfunc_point_fraction_witness :
  0 <= fsfunc_point 32.87 1 2 <= 1 /\ fsfunc_point 5 1 0 = 1.
Proof.
  assert (H1 : 0 < 32.87) by lra. assert (H2 : 0 <= 2) by lra.
  assert (H3 : 1 <= 2) by lra.
  assert (H4 : 0 < 5) by lra. assert (H5 : 0 <= 0) by lra.
  split.
  - exact (proj1 (fsfunc_point_fraction 32.87 1 2 H1 H2 H3)).
  - exact (proj1 (proj2 (proj2 (fsfunc_point_fraction 5 1 0 H4 H5 H3)))
             eq_refl).
Defined.

End Fsfunc.

Section SurfaceLosses.
Import Climate.
Local Open Scope R_scope.

Lemma runoff_bounds (inputs_after_snow fracro precro : R) :
  0 <= inputs_after_snow -> 0 <= fracro <= 1 -> 0 <= precro ->
  0 <= runoff inputs_after_snow fracro precro <= inputs_after_snow.
Proof.
  intros Hi Hf Hp. unfold runoff, Rmax.
  destruct (Rle_dec (fracro * (inputs_after_snow - precro)) 0); nra.
Qed.

Lemma exp_le_one (u : R) : u <= 0 -> 0 < exp u <= 1.
Proof.
  intro Hu. split; [apply exp_pos|].
  destruct (Req_dec u 0) as [->|Hne]; [rewrite exp_0; lra|].
  left. rewrite <- exp_0. apply exp_increasing. lra.
Qed.

(** X23.  Surface losses take from the water that arrives and never more than is
    there.  For non-negative inputs, parameters [fracro], [fwloss_1],
    [fwloss_2] in [[0, 1]], [precro >= 0], [pet_rem >= 0], non-negative
    biomass and an interception factor [0.0003 * alit + 0.0006 * sd] of at
    most 0.5: the bare-soil factor [absevap] lies in [[0, 0.5]], the
    evaporation lies between 0 and [0.4 * pet_rem], and the water passed on
    lies between 0 and the inputs.  Under a snowpack ([snow <> 0]) nothing
    evaporates and only the runoff is taken. *)
Theorem surface_losses_point_bounds
    (inputs_after_snow fracro precro snow alit sd fwloss_1 fwloss_2
     pet_rem : R) :
  0 <= inputs_after_snow -> 0 <= fracro <= 1 -> 0 <= precro ->
  0 <= alit -> 0 <= sd -> 0.0003 * alit + 0.0006 * sd <= 0.5 ->
  0 <= fwloss_1 <= 1 -> 0 <= fwloss_2 <= 1 -> 0 <= pet_rem ->
  let r := surface_losses_point inputs_after_snow fracro precro snow alit
             sd fwloss_1 fwloss_2 pet_rem in
  0 <= absevap r <= 0.5 /\
  0 <= evap_losses r <= 0.4 * pet_rem /\
  0 <= inputs_after_surface r <= inputs_after_snow /\
  (snow <> 0 ->
   absevap r = 0 /\ evap_losses r = 0 /\
   inputs_after_surface r =
     inputs_after_snow - runoff inputs_after_snow fracro precro).
Proof.
  intros Hi Hf Hp Ha Hs Hint H1 H2 Hpet. cbn zeta.
  pose proof (runoff_bounds _ _ _ Hi Hf Hp) as Hr.
  unfold surface_losses_point.
  set (ro := runoff inputs_after_snow fracro precro) in *.
  destruct (Req_dec_T snow 0) as [E|E];
    cbn [absevap evap_losses inputs_after_surface].
  - assert (He : 0 < exp (-0.002 * alit - 0.004 * sd) <= 1)
      by (apply exp_le_one; lra).
    set (ex := exp (-0.002 * alit - 0.004 * sd)) in *.
    set (aint := (0.0003 * alit + 0.0006 * sd) * fwloss_1).
    assert (Haint : 0 <= aint <= 0.5) by (unfold aint; nra).
    assert (Habs : 0 <= 0.5 * ex * fwloss_2 <= 0.5) by nra.
    set (ab := 0.5 * ex * fwloss_2) in *.
    assert (Hprod : 0 <= (ab + aint) * (inputs_after_snow - ro) <=
                    inputs_after_snow - ro) by nra.
    set (pr := (ab + aint) * (inputs_after_snow - ro)) in *.
    repeat split; try lra;
      try (unfold Rmin; destruct (Rle_dec pr (0.4 * pet_rem)); lra).
  - repeat split; lra.
Qed.

Lemma surface_losses_point_bounds_witness :
  0 <= inputs_after_surface
         (surface_losses_point 12 0.15 8 0 100 102 0.8 0.8 10)
    <= 12 /\
  evap_losses (surface_losses_point 12 0.15 8 1 100 102 0.8 0.8 10) = 0.
Proof.
  assert (Hi : 0 <= 12) by lra. assert (Hf : 0 <= 0.15 <= 1) by lra.
  assert (Hp : 0 <= 8) by lra. assert (Ha : 0 <= 100) by lra.
  assert (Hs : 0 <= 102) by lra.
  assert (Hint : 0.0003 * 100 + 0.0006 * 102 <= 0.5) by lra.
  assert (Hw : 0 <= 0.8 <= 1) by lra. assert (Hpet : 0 <= 10) by lra.
  assert (Hsnow : 1 <> 0) by lra.
  split.
  - exact (proj1 (proj2 (proj2 (surface_losses_point_bounds
             12 0.15 8 0 100 102 0.8 0.8 10 Hi Hf Hp Ha Hs Hint Hw Hw Hpet)))).
  - exact (proj1 (proj2 (proj2 (proj2 (proj2 (surface_losses_point_bounds
             12 0.15 8 1 100 102 0.8 0.8 10 Hi Hf Hp Ha Hs Hint Hw Hw Hpet)))
             Hsnow))).
Defined.

End SurfaceLosses.

(** ** Nutrient uptake *)

Section NutrientUptake.
Import Soil.
Local Open Scope R_scope.

Lemma rdiv_ok (x y : R) : y <> 0 -> rdiv x y = Ok (x / y).
Proof.
  intro H. unfold rdiv. destruct (Req_dec_T y 0); [contradiction|reflexivity].
Qed.

Lemma positive_part_pos (d : layer_dict) (lyr : nat) (m : R) :
  d lyr = Some m -> m > 0 -> positive_part d lyr = m.
Proof.
  intros Hd Hm. unfold positive_part. rewrite Hd.
  destruct (Rgt_dec m 0); [reflexivity|contradiction].
Qed.

Lemma positive_part_nonpos (d : layer_dict) (lyr : nat) (m : R) :
  d lyr = Some m -> ~ m > 0 -> positive_part d lyr = 0.
Proof.
  intros Hd Hm. unfold positive_part. rewrite Hd.
  destruct (Rgt_dec m 0); [contradiction|reflexivity].
Qed.

(** The loop over the layers, for an element other than P: every layer
    that is listed and holds a positive amount gives up its share of
    [uptake_soil], weighted by the cover; the plant receives the shares. *)
Lemma uptake_layers_result (iel : Z)
    (availm pft_percent_cover eup_above_iel eup_below_iel eprodl_iel
     uptake_soil pslsrb sorpmx : R) (minerl_dict : layer_dict)
    (layers : list nat) :
  Z.eqb iel 2 = false -> availm <> 0 -> eprodl_iel <> 0 ->
  (forall lyr, In lyr layers -> minerl_dict lyr <> None) ->
  forall s : uptake_state,
  exists s',
    uptake_layers
      (uptake_layer iel availm pft_percent_cover eup_above_iel
         eup_below_iel eprodl_iel uptake_soil pslsrb sorpmx minerl_dict)
      layers s = Ok s' /\
    st_delta_aglive_iel s' =
      st_delta_aglive_iel s +
      uptake_soil * positive_sum minerl_dict layers / availm *
      (eup_above_iel / eprodl_iel) /\
    st_bglive_iel s' =
      st_bglive_iel s +
      uptake_soil * positive_sum minerl_dict layers / availm *
      (eup_below_iel / eprodl_iel) /\
    forall lyr m, minerl_dict lyr = Some m ->
      st_minerl_dict_copy s' lyr =
        if existsb (Nat.eqb lyr) layers &&
           (if Rgt_dec m 0 then true else false)
        then Some (m - uptake_soil * m / availm * pft_percent_cover)
        else st_minerl_dict_copy s lyr.
Proof.
  intros Hiel Hav Hep. induction layers as [|l rest IH]; intros Hkeys s.
  - exists s. cbn. repeat split; try lra. 
  - assert (Hl : minerl_dict l <> None) by (apply Hkeys; left; reflexivity).
    destruct (minerl_dict l) as [m|] eqn:Em; [clear Hl|contradiction].
    assert (Hrest : forall lyr, In lyr rest -> minerl_dict lyr <> None)
      by (intros lyr Hin; apply Hkeys; right; exact Hin).
    cbn [uptake_layers]. unfold uptake_layer at 1, lookup. rewrite Em.
    cbn [obind]. destruct (Rgt_dec m 0) as [Hm|Hm].
    + rewrite Hiel. cbn [obind]. rewrite !rdiv_ok by assumption.
      cbn [obind].
      match goal with
      | |- context [uptake_layers _ rest ?s1] =>
          destruct (IH Hrest s1) as (s' & Hrun & Hd & Hb & Hc)
      end.
      exists s'. split; [exact Hrun|]. cbn in Hd, Hb.
      cbn [positive_sum fold_right].
      rewrite (positive_part_pos _ _ _ Em Hm).
      change (fold_right (fun lyr acc => positive_part minerl_dict lyr + acc)
                0 rest) with (positive_sum minerl_dict rest).
      split; [rewrite Hd; field; auto|].
      split; [rewrite Hb; field; auto|].
      intros lyr m' Hm'. rewrite (Hc lyr m' Hm'). cbn [existsb].
      cbn [st_minerl_dict_copy]. unfold update.
      destruct (existsb (Nat.eqb lyr) rest); cbn [orb andb];
        destruct (Nat.eqb lyr l) eqn:El; cbn [orb andb]; try reflexivity;
        destruct (Rgt_dec m' 0) as [Hp|Hp]; cbn [orb andb]; try reflexivity.
      all: apply Nat.eqb_eq in El; subst lyr; rewrite Em in Hm';
        inversion Hm'; subst m'; try contradiction; f_equal; field;
        assumption.
    + destruct (IH Hrest s) as (s' & Hrun & Hd & Hb & Hc).
      exists s'. split; [exact Hrun|].
      cbn [positive_sum fold_right].
      rewrite (positive_part_nonpos _ _ _ Em Hm).
      change (fold_right (fun lyr acc => positive_part minerl_dict lyr + acc)
                0 rest) with (positive_sum minerl_dict rest).
      split; [rewrite Hd; field; auto|].
      split; [rewrite Hb; field; auto|].
      intros lyr m' Hm'. rewrite (Hc lyr m' Hm'). cbn [existsb].
      destruct (existsb (Nat.eqb lyr) rest); cbn [orb andb];
        destruct (Nat.eqb lyr l) eqn:El; cbn [orb andb]; try reflexivity.
      apply Nat.eqb_eq in El. subst lyr. rewrite Em in Hm'.
      inversion Hm'; subst m'.
      destruct (Rgt_dec m 0); [contradiction|reflexivity].
Qed.

End NutrientUptake.

Section NutrientUptakeBalance.
Import Soil.
Local Open Scope R_scope.

Lemma uptake_layers_from_dict (iel : Z)
    (availm pft_percent_cover eup_above_iel eup_below_iel eprodl_iel
     uptake_soil pslsrb sorpmx delta bglive : R) (minerl_dict : layer_dict)
    (layers : list nat) :
  Z.eqb iel 2 = false -> availm <> 0 -> eprodl_iel <> 0 ->
  (forall lyr, In lyr layers -> minerl_dict lyr <> None) ->
  exists s',
    uptake_layers
      (uptake_layer iel availm pft_percent_cover eup_above_iel
         eup_below_iel eprodl_iel uptake_soil pslsrb sorpmx minerl_dict)
      layers (mk_ustate delta bglive minerl_dict) = Ok s' /\
    st_delta_aglive_iel s' =
      delta + uptake_soil * positive_sum minerl_dict layers / availm *
              (eup_above_iel / eprodl_iel) /\
    st_bglive_iel s' =
      bglive + uptake_soil * positive_sum minerl_dict layers / availm *
               (eup_below_iel / eprodl_iel) /\
    forall lyr m, minerl_dict lyr = Some m ->
      st_minerl_dict_copy s' lyr =
        Some (m - uptake_soil / availm * pft_percent_cover *
                  (if existsb (Nat.eqb lyr) layers
                   then positive_part minerl_dict lyr else 0)).
Proof.
  intros Hiel Hav Hep Hkeys.
  destruct (uptake_layers_result iel availm pft_percent_cover eup_above_iel
              eup_below_iel eprodl_iel uptake_soil pslsrb sorpmx minerl_dict
              layers Hiel Hav Hep Hkeys (mk_ustate delta bglive minerl_dict))
    as (s' & Hrun & Hd & Hb & Hc).
  exists s'. repeat split; try assumption.
  intros lyr m Hm. rewrite (Hc lyr m Hm). cbn [st_minerl_dict_copy].
  destruct (existsb (Nat.eqb lyr) layers); cbn [andb].
  - destruct (Rgt_dec m 0) as [Hp|Hp].
    + rewrite (positive_part_pos _ _ _ Hm Hp). f_equal. field. assumption.
    + rewrite (positive_part_nonpos _ _ _ Hm Hp). rewrite Hm. f_equal. lra.
  - rewrite Hm. f_equal. lra.
Qed.

Lemma positive_sum_first_layers (d : layer_dict) (nlay : nat) :
  (nlay <= 7)%nat ->
  positive_sum d (seq 1 nlay) =
    (if existsb (Nat.eqb 1) (seq 1 nlay) then positive_part d 1 else 0) +
    (if existsb (Nat.eqb 2) (seq 1 nlay) then positive_part d 2 else 0) +
    (if existsb (Nat.eqb 3) (seq 1 nlay) then positive_part d 3 else 0) +
    (if existsb (Nat.eqb 4) (seq 1 nlay) then positive_part d 4 else 0) +
    (if existsb (Nat.eqb 5) (seq 1 nlay) then positive_part d 5 else 0) +
    (if existsb (Nat.eqb 6) (seq 1 nlay) then positive_part d 6 else 0) +
    (if existsb (Nat.eqb 7) (seq 1 nlay) then positive_part d 7 else 0).
Proof.
  intro H.
  do 8 (destruct nlay as [|nlay]; [cbn; lra|]). lia.
Qed.

Lemma Rmin_minus (a b k : R) : Rmin (a - k) (b - k) = Rmin a b - k.
Proof.
  unfold Rmin. destruct (Rle_dec (a - k) (b - k)), (Rle_dec a b); lra.
Qed.

End NutrientUptakeBalance.

Section NutrientUptakeN.
Import Soil.
Local Open Scope R_scope.

Variables (nlay : nat) (minerl_dict : layer_dict).
Variables m1 m2 m3 m4 m5 m6 m7 : R.
Hypothesis Hnlay : (nlay <= 7)%nat.
Hypothesis H1 : minerl_dict 1%nat = Some m1.
Hypothesis H2 : minerl_dict 2%nat = Some m2.
Hypothesis H3 : minerl_dict 3%nat = Some m3.
Hypothesis H4 : minerl_dict 4%nat = Some m4.
Hypothesis H5 : minerl_dict 5%nat = Some m5.
Hypothesis H6 : minerl_dict 6%nat = Some m6.
Hypothesis H7 : minerl_dict 7%nat = Some m7.

Lemma layers_present (lyr : nat) :
  In lyr (seq 1 nlay) -> minerl_dict lyr <> None.
Proof.
  intro Hin. apply in_seq in Hin.
  assert (Hl : lyr = 1%nat \/ lyr = 2%nat \/ lyr = 3%nat \/ lyr = 4%nat \/
               lyr = 5%nat \/ lyr = 6%nat \/ lyr = 7%nat) by lia.
  destruct Hl as [->|[->|[->|[->|[->|[->| ->]]]]]]; congruence.
Qed.

(** X24.  Nitrogen uptake hands the plant exactly what can be had.  For N
    ([iel = 1]), a dictionary with the seven layer keys, at most seven
    accessible layers, storage between 0 and the demand
    [eprodl = eup_above + eup_below > 0], fixation [plantNfix >= 0] and
    [availm] the (non-zero) sum of the positive accessible layers, the
    function returns; storage, soil and fixation together deliver
    [min(eprodl, eavail)], split above and below ground in the proportions
    of the demand; the storage pool is emptied; the soil layers lose, in
    total, the cover-weighted soil uptake; and [aglive_iel] comes back as
    it was given. *)
Theorem nutrient_uptake_N_balance
    (availm eavail_iel pft_percent_cover eup_above_iel eup_below_iel
     storage_iel plantNfix pslsrb sorpmx aglive_iel bglive_iel : R) :
  0 <= storage_iel <= eup_above_iel + eup_below_iel ->
  0 < eup_above_iel + eup_below_iel ->
  0 <= plantNfix ->
  availm = positive_sum minerl_dict (seq 1 nlay) ->
  availm <> 0 ->
  let eprodl_iel := eup_above_iel + eup_below_iel in
  let taken := Rmin eprodl_iel eavail_iel in
  exists r,
    nutrient_uptake_point 1 nlay availm eavail_iel pft_percent_cover
      eup_above_iel eup_below_iel storage_iel plantNfix pslsrb sorpmx
      aglive_iel bglive_iel minerl_dict = Ok r /\
    up_delta_aglive_iel r = taken * (eup_above_iel / eprodl_iel) /\
    up_bglive_iel r = bglive_iel + taken * (eup_below_iel / eprodl_iel) /\
    up_storage_iel r = 0 /\
    up_aglive_iel r = aglive_iel /\
    (m1 + m2 + m3 + m4 + m5 + m6 + m7) -
    (up_minerl_1_iel r + up_minerl_2_iel r + up_minerl_3_iel r +
     up_minerl_4_iel r + up_minerl_5_iel r + up_minerl_6_iel r +
     up_minerl_7_iel r) =
    pft_percent_cover * (taken - storage_iel - plantNfix).
Proof.
  intros Hst Hep Hfix Hav Hav0. cbn zeta.
  assert (Hep0 : eup_above_iel + eup_below_iel <> 0) by lra.
  unfold nutrient_uptake_point, uptake_sources.
  destruct (Rlt_dec (eup_above_iel + eup_below_iel) storage_iel) as [Hlt|_];
    [lra|].
  change (Z.eqb 1 1) with true. cbv iota. cbn [andb].
  rewrite !Rmin_minus.
  set (taken := Rmin (eup_above_iel + eup_below_iel) eavail_iel).
  set (us := taken - storage_iel - plantNfix).
  assert (Hsum := positive_sum_first_layers minerl_dict nlay Hnlay).
  rewrite <- Hav in Hsum.
  assert (Hs0 : storage_iel > 0 \/ storage_iel = 0) by lra.
  assert (Hf0 : plantNfix > 0 \/ plantNfix = 0) by lra.
  assert (Hsoil : forall x1 x2 x3 x4 x5 x6 x7 : R,
            x1 + x2 + x3 + x4 + x5 + x6 + x7 = availm ->
            m1 + m2 + m3 + m4 + m5 + m6 + m7 -
            (m1 - us / availm * pft_percent_cover * x1 +
             (m2 - us / availm * pft_percent_cover * x2) +
             (m3 - us / availm * pft_percent_cover * x3) +
             (m4 - us / availm * pft_percent_cover * x4) +
             (m5 - us / availm * pft_percent_cover * x5) +
             (m6 - us / availm * pft_percent_cover * x6) +
             (m7 - us / availm * pft_percent_cover * x7)) =
            pft_percent_cover * us).
  { intros x1 x2 x3 x4 x5 x6 x7 Hx.
    transitivity (us / availm * pft_percent_cover *
                  (x1 + x2 + x3 + x4 + x5 + x6 + x7)); [ring|].
    rewrite Hx. field. exact Hav0. }
  destruct (Rgt_dec storage_iel 0) as [Hs|Hs];
    rewrite ?rdiv_ok by exact Hep0; cbn [obind fst snd].
  - destruct (uptake_layers_from_dict 1 availm pft_percent_cover
                eup_above_iel eup_below_iel
                (eup_above_iel + eup_below_iel) us pslsrb sorpmx
                (0 + storage_iel *
                     (eup_above_iel / (eup_above_iel + eup_below_iel)))
                (bglive_iel + storage_iel *
                     (eup_below_iel / (eup_above_iel + eup_below_iel)))
                minerl_dict (seq 1 nlay) eq_refl Hav0 Hep0 layers_present)
      as (s' & Hrun & Hd & Hb & Hc).
    rewrite Hrun. cbn [obind]. rewrite <- Hav in Hd, Hb.
    destruct (Rgt_dec plantNfix 0) as [Hf|Hf];
      rewrite ?rdiv_ok by exact Hep0; cbn [obind st_minerl_dict_copy];
      unfold lookup;
      rewrite (Hc _ _ H1), (Hc _ _ H2), (Hc _ _ H3), (Hc _ _ H4),
        (Hc _ _ H5), (Hc _ _ H6), (Hc _ _ H7);
      cbn [obind]; (eexists; split; [reflexivity|]);
      cbn [up_delta_aglive_iel up_bglive_iel up_storage_iel up_aglive_iel
           up_minerl_1_iel up_minerl_2_iel up_minerl_3_iel up_minerl_4_iel
           up_minerl_5_iel up_minerl_6_iel up_minerl_7_iel
           st_delta_aglive_iel st_bglive_iel];
      rewrite Hd, Hb;
      (split; [|split; [|split; [|split]]]);
      try reflexivity; try lra; try (apply Hsoil; symmetry; exact Hsum).
    all: destruct Hf0 as [Hf0|Hf0]; try contradiction;
      unfold us; try rewrite Hf0; field; auto.
  - destruct (uptake_layers_from_dict 1 availm pft_percent_cover
                eup_above_iel eup_below_iel
                (eup_above_iel + eup_below_iel) us pslsrb sorpmx
                0 bglive_iel
                minerl_dict (seq 1 nlay) eq_refl Hav0 Hep0 layers_present)
      as (s' & Hrun & Hd & Hb & Hc).
    rewrite Hrun. cbn [obind]. rewrite <- Hav in Hd, Hb.
    destruct Hs0 as [Hs0|Hs0]; [contradiction|].
    destruct (Rgt_dec plantNfix 0) as [Hf|Hf];
      rewrite ?rdiv_ok by exact Hep0; cbn [obind st_minerl_dict_copy];
      unfold lookup;
      rewrite (Hc _ _ H1), (Hc _ _ H2), (Hc _ _ H3), (Hc _ _ H4),
        (Hc _ _ H5), (Hc _ _ H6), (Hc _ _ H7);
      cbn [obind]; (eexists; split; [reflexivity|]);
      cbn [up_delta_aglive_iel up_bglive_iel up_storage_iel up_aglive_iel
           up_minerl_1_iel up_minerl_2_iel up_minerl_3_iel up_minerl_4_iel
           up_minerl_5_iel up_minerl_6_iel up_minerl_7_iel
           st_delta_aglive_iel st_bglive_iel];
      rewrite Hd, Hb;
      (split; [|split; [|split; [|split]]]);
      try reflexivity; try lra; try (apply Hsoil; symmetry; exact Hsum).
    all: destruct Hf0 as [Hf0|Hf0]; try contradiction;
      unfold us; try rewrite Hf0; rewrite Hs0; field; auto.
Qed.

End NutrientUptakeN.

Section NutrientUptakeEdge.
Import Soil.
Local Open Scope R_scope.

Lemma nutrient_uptake_N_balance_witness :
  exists r,
    nutrient_uptake_point 1 4 51 54.2 0.4 41.367670329147 20.632329670853
      40.48 8.048 1 2 80.8 130.6 (dict_of [10; 13; 20; 8; 30; 22; 18]) =
      Ok r /\
    up_delta_aglive_iel r =
      Rmin (41.367670329147 + 20.632329670853) 54.2 *
      (41.367670329147 / (41.367670329147 + 20.632329670853)) /\
    up_bglive_iel r =
      130.6 + Rmin (41.367670329147 + 20.632329670853) 54.2 *
              (20.632329670853 / (41.367670329147 + 20.632329670853)) /\
    up_storage_iel r = 0 /\
    up_aglive_iel r = 80.8 /\
    (10 + 13 + 20 + 8 + 30 + 22 + 18) -
    (up_minerl_1_iel r + up_minerl_2_iel r + up_minerl_3_iel r +
     up_minerl_4_iel r + up_minerl_5_iel r + up_minerl_6_iel r +
     up_minerl_7_iel r) =
    0.4 * (Rmin (41.367670329147 + 20.632329670853) 54.2 - 40.48 - 8.048).
Proof.
  assert (Hsum : 51 = positive_sum (dict_of [10; 13; 20; 8; 30; 22; 18])
                        (seq 1 4)).
  { unfold positive_sum, positive_part, dict_of.
    cbn [seq fold_right nth_error].
    repeat match goal with
           | |- context [Rgt_dec ?x 0] => destruct (Rgt_dec x 0); try lra
           end. }
  refine (nutrient_uptake_N_balance 4 (dict_of [10; 13; 20; 8; 30; 22; 18])
            10 13 20 8 30 22 18 _ eq_refl eq_refl eq_refl eq_refl eq_refl
            eq_refl eq_refl 51 54.2 0.4 41.367670329147 20.632329670853
            40.48 8.048 1 2 80.8 130.6 _ _ _ Hsum _); try lra. lia.
Defined.

(** X25.  Nitrogen with a demand below the stored amount and some symbiotic
    fixation cannot be served: the branch taken for [eprodl < storage]
    never assigns [uptake_Nfix], so when the earlier steps pass (the demand
    and [availm] are not zero, the accessible layers are in the dictionary)
    the function ends in an [UnboundLocalError] for that name. *)
Theorem nutrient_uptake_unbound_Nfix (nlay : nat) (minerl_dict : layer_dict)
    (availm eavail_iel pft_percent_cover eup_above_iel eup_below_iel
     storage_iel plantNfix pslsrb sorpmx aglive_iel bglive_iel : R) :
  eup_above_iel + eup_below_iel < storage_iel ->
  plantNfix > 0 ->
  eup_above_iel + eup_below_iel <> 0 ->
  availm <> 0 ->
  (forall lyr, In lyr (seq 1 nlay) -> minerl_dict lyr <> None) ->
  nutrient_uptake_point 1 nlay availm eavail_iel pft_percent_cover
    eup_above_iel eup_below_iel storage_iel plantNfix pslsrb sorpmx
    aglive_iel bglive_iel minerl_dict =
  Err (UnboundLocalError "uptake_Nfix").
Proof.
  intros Hlt Hfix Hep0 Hav0 Hkeys.
  unfold nutrient_uptake_point, uptake_sources.
  destruct (Rlt_dec (eup_above_iel + eup_below_iel) storage_iel) as [_|Hn];
    [|contradiction].
  change (Z.eqb 1 1) with true. cbv iota. cbn [andb].
  destruct (Rgt_dec plantNfix 0) as [_|Hn]; [|contradiction].
  destruct (Rgt_dec storage_iel 0) as [Hs|Hs];
    rewrite ?rdiv_ok by exact Hep0; cbn [obind fst snd];
    match goal with
    | |- context [uptake_layers ?step ?ls ?s] =>
        destruct (uptake_layers_result 1 availm pft_percent_cover
                    eup_above_iel eup_below_iel
                    (eup_above_iel + eup_below_iel) 0 pslsrb sorpmx
                    minerl_dict (seq 1 nlay) eq_refl Hav0 Hep0 Hkeys s)
          as (s' & Hrun & _)
    end;
    rewrite Hrun; reflexivity.
Qed.

Lemma nutrient_uptake_unbound_Nfix_witness :
  nutrient_uptake_point 1 4 51 54.2 0.4 20 10 40.48 8.048 1 2 80.8 130.6
    (dict_of [10; 13; 20; 8; 30; 22; 18]) =
  Err (UnboundLocalError "uptake_Nfix").
Proof.
  refine (nutrient_uptake_unbound_Nfix 4
            (dict_of [10; 13; 20; 8; 30; 22; 18])
            51 54.2 0.4 20 10 40.48 8.048 1 2 80.8 130.6 _ _ _ _ _);
    try lra.
  intros lyr Hin. cbn in Hin.
  destruct Hin as [<-|[<-|[<-|[<-|[]]]]]; discriminate.
Defined.

End NutrientUptakeEdge.

(** ** Leaching through the soil layers *)

Section Leaching4.
Import Soil.
Local Open Scope R_scope.

Lemma clip01_bounds (x : R) : 0 <= clip01 x <= 1.
Proof.
  unfold clip01, Rmin, Rmax.
  destruct (Rle_dec x 0); destruct (Rle_dec 1 _); lra.
Qed.

Lemma clip01_zero : clip01 0 = 0.
Proof.
  unfold clip01, Rmin, Rmax.
  destruct (Rle_dec 0 0); destruct (Rle_dec 1 _); lra.
Qed.

Lemma update2_same (d : minerl_dict) (lyr iel : nat) (x : R) :
  update2 d lyr iel x lyr iel = Some x.
Proof. unfold update2. now rewrite !Nat.eqb_refl. Qed.

Lemma update2_other (d : minerl_dict) (lyr iel l i : nat) (x : R) :
  l <> lyr \/ i <> iel -> update2 d lyr iel x l i = d l i.
Proof.
  intro H. unfold update2.
  destruct (Nat.eqb_spec l lyr); destruct (Nat.eqb_spec i iel);
    cbn [andb]; try reflexivity.
  exfalso. tauto.
Qed.

(** A layer with a layer below it passes what it leaches on. *)
Lemma leach_layer_inner (amov_dict : layer_dict) (minlch frlech : R)
    (iel : nat) (d : minerl_dict) (lyr : nat) (v cur below : R) :
  minlch <> 0 -> amov_dict lyr = Some v ->
  d lyr iel = Some cur -> d (S lyr) iel = Some below ->
  let a := frlech * cur * clip01 (1 - (minlch - v) / minlch) in
  exists d',
    leach_layer amov_dict minlch frlech iel d lyr = Ok d' /\
    d' lyr iel = Some (cur - a) /\
    d' (S lyr) iel = Some (below + a) /\
    forall l i, (l <> lyr /\ l <> S lyr) \/ i <> iel -> d' l i = d l i.
Proof.
  intros Hm Hv Hc Hb. cbn zeta. unfold leach_layer, lookup, lookup2.
  rewrite Hv. cbn [obind]. rewrite (rdiv_ok _ _ Hm). cbn [obind].
  rewrite Hc. cbn [obind].
  rewrite update2_other by (left; apply Nat.neq_succ_diag_l).
  rewrite Hb. eexists. split; [reflexivity|]. split; [|split].
  - rewrite update2_other by (left; apply Nat.neq_succ_diag_r).
    apply update2_same.
  - apply update2_same.
  - intros l i H. rewrite !update2_other by tauto. reflexivity.
Qed.

(** The bottom layer leaches out of the dictionary. *)
Lemma leach_layer_bottom (amov_dict : layer_dict) (minlch frlech : R)
    (iel : nat) (d : minerl_dict) (lyr : nat) (v cur : R) :
  minlch <> 0 -> amov_dict lyr = Some v ->
  d lyr iel = Some cur -> d (S lyr) iel = None ->
  let a := frlech * cur * clip01 (1 - (minlch - v) / minlch) in
  exists d',
    leach_layer amov_dict minlch frlech iel d lyr = Ok d' /\
    d' lyr iel = Some (cur - a) /\
    forall l i, l <> lyr \/ i <> iel -> d' l i = d l i.
Proof.
  intros Hm Hv Hc Hb. cbn zeta. unfold leach_layer, lookup, lookup2.
  rewrite Hv. cbn [obind]. rewrite (rdiv_ok _ _ Hm). cbn [obind].
  rewrite Hc. cbn [obind].
  rewrite update2_other by (left; apply Nat.neq_succ_diag_l).
  rewrite Hb. eexists. split; [reflexivity|]. split.
  - apply update2_same.
  - intros l i H. apply update2_other. exact H.
Qed.

(** One pass of the inner loop over a column of four layers with no fifth
    layer below: what each layer holds afterwards. *)
Lemma leach_column (iel : nat) (d : minerl_dict) (amov_dict : layer_dict)
    (minlch frlech x1 x2 x3 x4 v1 v2 v3 v4 : R) :
  minlch <> 0 ->
  amov_dict 1%nat = Some v1 -> amov_dict 2%nat = Some v2 ->
  amov_dict 3%nat = Some v3 -> amov_dict 4%nat = Some v4 ->
  d 1%nat iel = Some x1 -> d 2%nat iel = Some x2 ->
  d 3%nat iel = Some x3 -> d 4%nat iel = Some x4 ->
  d 5%nat iel = None ->
  let a1 := frlech * x1 * clip01 (1 - (minlch - v1) / minlch) in
  let a2 := frlech * (x2 + a1) * clip01 (1 - (minlch - v2) / minlch) in
  let a3 := frlech * (x3 + a2) * clip01 (1 - (minlch - v3) / minlch) in
  let a4 := frlech * (x4 + a3) * clip01 (1 - (minlch - v4) / minlch) in
  exists e,
    leach_layers (leach_layer amov_dict minlch frlech iel)
      [1; 2; 3; 4]%nat d = Ok e /\
    e 1%nat iel = Some (x1 - a1) /\
    e 2%nat iel = Some (x2 + a1 - a2) /\
    e 3%nat iel = Some (x3 + a2 - a3) /\
    e 4%nat iel = Some (x4 + a3 - a4) /\
    forall l i, i <> iel -> e l i = d l i.
Proof.
  intros Hm Hv1 Hv2 Hv3 Hv4 Hd1 Hd2 Hd3 Hd4 Hd5. cbn zeta.
  destruct (leach_layer_inner amov_dict minlch frlech iel d 1 v1 x1 x2
              Hm Hv1 Hd1 Hd2) as (d1 & R1 & E11 & E12 & O1).
  assert (E13 : d1 3%nat iel = Some x3) by (rewrite O1 by lia; exact Hd3).
  assert (E14 : d1 4%nat iel = Some x4) by (rewrite O1 by lia; exact Hd4).
  assert (E15 : d1 5%nat iel = None) by (rewrite O1 by lia; exact Hd5).
  destruct (leach_layer_inner amov_dict minlch frlech iel d1 2 v2 _ x3
              Hm Hv2 E12 E13) as (d2 & R2 & E22 & E23 & O2).
  assert (E21 : d2 1%nat iel = Some _) by (rewrite O2 by lia; exact E11).
  assert (E24 : d2 4%nat iel = Some x4) by (rewrite O2 by lia; exact E14).
  assert (E25 : d2 5%nat iel = None) by (rewrite O2 by lia; exact E15).
  destruct (leach_layer_inner amov_dict minlch frlech iel d2 3 v3 _ x4
              Hm Hv3 E23 E24) as (d3 & R3 & E33 & E34 & O3).
  assert (E31 : d3 1%nat iel = Some _) by (rewrite O3 by lia; exact E21).
  assert (E32 : d3 2%nat iel = Some _) by (rewrite O3 by lia; exact E22).
  assert (E35 : d3 5%nat iel = None) by (rewrite O3 by lia; exact E25).
  destruct (leach_layer_bottom amov_dict minlch frlech iel d3 4 v4 _
              Hm Hv4 E34 E35) as (d4 & R4 & E44 & O4).
  exists d4. cbn [leach_layers obind].
  rewrite R1. cbn [obind]. rewrite R2. cbn [obind]. rewrite R3.
  cbn [obind]. rewrite R4. cbn [obind].
  split; [reflexivity|].
  split; [rewrite O4 by lia; exact E31|].
  split; [rewrite O4 by lia; exact E32|].
  split; [rewrite O4 by lia; exact E33|].
  split; [exact E44|].
  intros l i Hi. rewrite O4, O3, O2, O1 by tauto. reflexivity.
Qed.

End Leaching4.

Section LeachPoint.
Import Soil.
Local Open Scope R_scope.

Lemma leach_amount_bounds (frlech x linten : R) :
  0 <= frlech <= 1 -> 0 <= linten <= 1 -> 0 <= x ->
  0 <= frlech * x * linten <= x.
Proof.
  intros Hf Hl Hx.
  assert (Hc : 0 <= frlech * linten <= 1) by nra.
  replace (frlech * x * linten) with (frlech * linten * x) by ring.
  nra.
Qed.

Lemma fsfunc_point_unit (minerl_1_2 pslsrb sorpmx : R) :
  0 <= minerl_1_2 -> 0 <= sorpmx -> pslsrb <= 2 ->
  0 <= Climate.fsfunc_point minerl_1_2 pslsrb sorpmx <= 1.
Proof.
  intros Hm Hs Hp. unfold Climate.fsfunc_point.
  destruct (Req_dec_T minerl_1_2 0) as [E|E]; [lra|].
  assert (Hm' : 0 < minerl_1_2) by lra.
  set (c := sorpmx * (2 - pslsrb) / 2).
  set (b := sorpmx - minerl_1_2 + c).
  assert (Hc : 0 <= c) by (unfold c; nra).
  assert (Hd : 0 <= b * b + 4 * c * minerl_1_2) by nra.
  set (s := sqrt (b * b + 4 * c * minerl_1_2)).
  assert (Hlo : b <= s) by (apply sqrt_ge_self; [exact Hd | nra]).
  assert (Hhi : s <= 2 * minerl_1_2 + b).
  { apply sqrt_le_self; [unfold b; lra|]. unfold b. nra. }
  assert (Hlab : (- b + s) / 2 / minerl_1_2 * minerl_1_2 = (- b + s) / 2)
    by (field; lra).
  split; apply Rmult_le_reg_r with minerl_1_2; try exact Hm';
    rewrite Hlab; lra.
Qed.

(** The cascade of four layers: amounts that stay within what each layer
    holds leave every layer non-negative and every sum over the top [k]
    layers no larger than before. *)
Lemma cascade_bounds (frlech x1 x2 x3 x4 l1 l2 l3 l4 : R) :
  0 <= frlech <= 1 ->
  0 <= l1 <= 1 -> 0 <= l2 <= 1 -> 0 <= l3 <= 1 -> 0 <= l4 <= 1 ->
  0 <= x1 -> 0 <= x2 -> 0 <= x3 -> 0 <= x4 ->
  let a1 := frlech * x1 * l1 in
  let a2 := frlech * (x2 + a1) * l2 in
  let a3 := frlech * (x3 + a2) * l3 in
  let a4 := frlech * (x4 + a3) * l4 in
  (0 <= x1 - a1 /\ 0 <= x2 + a1 - a2 /\ 0 <= x3 + a2 - a3 /\
   0 <= x4 + a3 - a4) /\
  (0 <= a1 /\ 0 <= a2 /\ 0 <= a3 /\ 0 <= a4).
Proof.
  intros Hf H1 H2 H3 H4 Hx1 Hx2 Hx3 Hx4. cbn zeta.
  pose proof (leach_amount_bounds frlech x1 l1 Hf H1 Hx1) as B1.
  set (a1 := frlech * x1 * l1) in *.
  assert (Hy2 : 0 <= x2 + a1) by lra.
  pose proof (leach_amount_bounds frlech _ l2 Hf H2 Hy2) as B2.
  set (a2 := frlech * (x2 + a1) * l2) in *.
  assert (Hy3 : 0 <= x3 + a2) by lra.
  pose proof (leach_amount_bounds frlech _ l3 Hf H3 Hy3) as B3.
  set (a3 := frlech * (x3 + a2) * l3) in *.
  assert (Hy4 : 0 <= x4 + a3) by lra.
  pose proof (leach_amount_bounds frlech _ l4 Hf H4 Hy4) as B4.
  set (a4 := frlech * (x4 + a3) * l4) in *.
  repeat split; lra.
Qed.

Variables (starting_minerl_dict : minerl_dict) (amov_dict : layer_dict).
Variables n1 n2 n3 n4 p1 p2 p3 p4 v1 v2 v3 v4 : R.
Hypothesis HN1 : starting_minerl_dict 1%nat 1%nat = Some n1.
Hypothesis HN2 : starting_minerl_dict 2%nat 1%nat = Some n2.
Hypothesis HN3 : starting_minerl_dict 3%nat 1%nat = Some n3.
Hypothesis HN4 : starting_minerl_dict 4%nat 1%nat = Some n4.
Hypothesis HN5 : starting_minerl_dict 5%nat 1%nat = None.
Hypothesis HP1 : starting_minerl_dict 1%nat 2%nat = Some p1.
Hypothesis HP2 : starting_minerl_dict 2%nat 2%nat = Some p2.
Hypothesis HP3 : starting_minerl_dict 3%nat 2%nat = Some p3.
Hypothesis HP4 : starting_minerl_dict 4%nat 2%nat = Some p4.
Hypothesis HP5 : starting_minerl_dict 5%nat 2%nat = None.
Hypothesis HV1 : amov_dict 1%nat = Some v1.
Hypothesis HV2 : amov_dict 2%nat = Some v2.
Hypothesis HV3 : amov_dict 3%nat = Some v3.
Hypothesis HV4 : amov_dict 4%nat = Some v4.

(** What [leach_point] returns on a column of four layers, both elements
    spelled out. *)
Lemma leach_point_result (starting_mineral_dict : minerl_dict)
    (sand minlch fleach_1 fleach_2 fleach_3 fleach_4 pslsrb sorpmx : R) :
  minlch <> 0 ->
  let fsol := Climate.fsfunc_point p1 pslsrb sorpmx in
  let fN := (fleach_1 + fleach_2 * sand) * fleach_3 in
  let fP := (fleach_1 + fleach_2 * sand) * fleach_4 * fsol in
  let l1 := clip01 (1 - (minlch - v1) / minlch) in
  let l2 := clip01 (1 - (minlch - v2) / minlch) in
  let l3 := clip01 (1 - (minlch - v3) / minlch) in
  let l4 := clip01 (1 - (minlch - v4) / minlch) in
  let a1 := fN * n1 * l1 in
  let a2 := fN * (n2 + a1) * l2 in
  let a3 := fN * (n3 + a2) * l3 in
  let a4 := fN * (n4 + a3) * l4 in
  let b1 := fP * p1 * l1 in
  let b2 := fP * (p2 + b1) * l2 in
  let b3 := fP * (p3 + b2) * l3 in
  let b4 := fP * (p4 + b3) * l4 in
  exists e,
    leach_point starting_minerl_dict starting_mineral_dict amov_dict sand
      minlch fleach_1 fleach_2 fleach_3 fleach_4 pslsrb sorpmx = Ok e /\
    (e 1%nat 1%nat = Some (n1 - a1) /\ e 2%nat 1%nat = Some (n2 + a1 - a2) /\
     e 3%nat 1%nat = Some (n3 + a2 - a3) /\
     e 4%nat 1%nat = Some (n4 + a3 - a4)) /\
    (e 1%nat 2%nat = Some (p1 - b1) /\ e 2%nat 2%nat = Some (p2 + b1 - b2) /\
     e 3%nat 2%nat = Some (p3 + b2 - b3) /\
     e 4%nat 2%nat = Some (p4 + b3 - b4)).
Proof.
  intros Hm. cbn zeta. unfold leach_point, lookup2. rewrite HP1.
  cbn [obind].
  destruct (leach_column 1 starting_minerl_dict amov_dict minlch
              ((fleach_1 + fleach_2 * sand) * fleach_3)
              n1 n2 n3 n4 v1 v2 v3 v4 Hm HV1 HV2 HV3 HV4 HN1 HN2 HN3 HN4
              HN5) as (e1 & R1 & E1 & E2 & E3 & E4 & O1).
  rewrite R1. cbn [obind].
  assert (Q1 : e1 1%nat 2%nat = Some p1) by (rewrite O1 by lia; exact HP1).
  assert (Q2 : e1 2%nat 2%nat = Some p2) by (rewrite O1 by lia; exact HP2).
  assert (Q3 : e1 3%nat 2%nat = Some p3) by (rewrite O1 by lia; exact HP3).
  assert (Q4 : e1 4%nat 2%nat = Some p4) by (rewrite O1 by lia; exact HP4).
  assert (Q5 : e1 5%nat 2%nat = None) by (rewrite O1 by lia; exact HP5).
  destruct (leach_column 2 e1 amov_dict minlch
              ((fleach_1 + fleach_2 * sand) * fleach_4 *
               Climate.fsfunc_point p1 pslsrb sorpmx)
              p1 p2 p3 p4 v1 v2 v3 v4 Hm HV1 HV2 HV3 HV4 Q1 Q2 Q3 Q4 Q5)
    as (e2 & R2 & F1 & F2 & F3 & F4 & O2).
  rewrite R2. cbn [obind]. exists e2. split; [reflexivity|].
  split.
  - rewrite !O2 by lia. auto.
  - auto.
Qed.

Lemma linten_no_flow (minlch v : R) :
  0 < minlch -> v <= 0 -> clip01 (1 - (minlch - v) / minlch) = 0.
Proof.
  intros Hm Hv.
  assert (H : 1 - (minlch - v) / minlch <= 0).
  { replace (1 - (minlch - v) / minlch) with (v * / minlch)
      by (field; lra).
    pose proof (Rinv_0_lt_compat _ Hm). nra. }
  unfold clip01. rewrite Rmax_right by exact H. apply Rmin_right. lra.
Qed.

(** X26.  Leaching only moves nutrient downward.  On a column of four layers
    (no fifth key), with water flows for the four layers, [minlch <> 0],
    leaching fractions in [[0, 1]], [sorpmx >= 0], [pslsrb <= 2] and
    non-negative pools, [leach_point] returns; for N and for P every layer
    stays non-negative, and the content of the top [k] layers together
    never grows, for [k] from 1 to 4: nothing moves upward and the column
    gains nothing. *)
Theorem leach_point_moves_down (starting_mineral_dict : minerl_dict)
    (sand minlch fleach_1 fleach_2 fleach_3 fleach_4 pslsrb sorpmx : R) :
  minlch <> 0 ->
  0 <= (fleach_1 + fleach_2 * sand) * fleach_3 <= 1 ->
  0 <= (fleach_1 + fleach_2 * sand) * fleach_4 <= 1 ->
  0 <= sorpmx -> pslsrb <= 2 ->
  0 <= n1 -> 0 <= n2 -> 0 <= n3 -> 0 <= n4 ->
  0 <= p1 -> 0 <= p2 -> 0 <= p3 -> 0 <= p4 ->
  exists e y1 y2 y3 y4 z1 z2 z3 z4,
    leach_point starting_minerl_dict starting_mineral_dict amov_dict sand
      minlch fleach_1 fleach_2 fleach_3 fleach_4 pslsrb sorpmx = Ok e /\
    (e 1%nat 1%nat = Some y1 /\ e 2%nat 1%nat = Some y2 /\
     e 3%nat 1%nat = Some y3 /\ e 4%nat 1%nat = Some y4) /\
    (e 1%nat 2%nat = Some z1 /\ e 2%nat 2%nat = Some z2 /\
     e 3%nat 2%nat = Some z3 /\ e 4%nat 2%nat = Some z4) /\
    (0 <= y1 /\ 0 <= y2 /\ 0 <= y3 /\ 0 <= y4) /\
    (0 <= z1 /\ 0 <= z2 /\ 0 <= z3 /\ 0 <= z4) /\
    (y1 <= n1 /\ y1 + y2 <= n1 + n2 /\ y1 + y2 + y3 <= n1 + n2 + n3 /\
     y1 + y2 + y3 + y4 <= n1 + n2 + n3 + n4) /\
    (z1 <= p1 /\ z1 + z2 <= p1 + p2 /\ z1 + z2 + z3 <= p1 + p2 + p3 /\
     z1 + z2 + z3 + z4 <= p1 + p2 + p3 + p4).
Proof.
  intros Hm HfN HfP Hs Hps Hn1 Hn2 Hn3 Hn4 Hp1 Hp2 Hp3 Hp4.
  destruct (leach_point_result starting_mineral_dict sand minlch fleach_1
              fleach_2 fleach_3 fleach_4 pslsrb sorpmx Hm)
    as (e & Hrun & HN & HP).
  pose proof (fsfunc_point_unit p1 pslsrb sorpmx Hp1 Hs Hps) as Hfsol.
  set (fsol := Climate.fsfunc_point p1 pslsrb sorpmx) in *.
  assert (HfP' : 0 <= (fleach_1 + fleach_2 * sand) * fleach_4 * fsol <= 1)
    by nra.
  pose proof (clip01_bounds (1 - (minlch - v1) / minlch)) as L1.
  pose proof (clip01_bounds (1 - (minlch - v2) / minlch)) as L2.
  pose proof (clip01_bounds (1 - (minlch - v3) / minlch)) as L3.
  pose proof (clip01_bounds (1 - (minlch - v4) / minlch)) as L4.
  destruct (cascade_bounds _ n1 n2 n3 n4 _ _ _ _ HfN L1 L2 L3 L4
              Hn1 Hn2 Hn3 Hn4) as [BN AN].
  destruct (cascade_bounds _ p1 p2 p3 p4 _ _ _ _ HfP' L1 L2 L3 L4
              Hp1 Hp2 Hp3 Hp4) as [BP AP].
  do 9 eexists. split; [exact Hrun|].
  split; [exact HN|]. split; [exact HP|].
  split; [exact BN|]. split; [exact BP|].
  split; repeat split; lra.
Qed.

(** X27.  Where nothing is leached, nothing changes: with [fleach_4 = 0] the P
    entries come back as they were, and with no downward water flow
    ([amov <= 0] in every layer, [minlch > 0]) so do all eight entries.
    Surface P, [sorpmx] and [pslsrb] are taken in the range where the
    square root of [fsfunc_point] is that of a non-negative number. *)
Theorem leach_point_unchanged (starting_mineral_dict : minerl_dict)
    (sand minlch fleach_1 fleach_2 fleach_3 fleach_4 pslsrb sorpmx : R) :
  minlch <> 0 -> 0 <= p1 -> 0 <= sorpmx -> pslsrb <= 2 ->
  exists e,
    leach_point starting_minerl_dict starting_mineral_dict amov_dict sand
      minlch fleach_1 fleach_2 fleach_3 fleach_4 pslsrb sorpmx = Ok e /\
    (fleach_4 = 0 ->
     e 1%nat 2%nat = Some p1 /\ e 2%nat 2%nat = Some p2 /\
     e 3%nat 2%nat = Some p3 /\ e 4%nat 2%nat = Some p4) /\
    (0 < minlch -> v1 <= 0 -> v2 <= 0 -> v3 <= 0 -> v4 <= 0 ->
     (e 1%nat 1%nat = Some n1 /\ e 2%nat 1%nat = Some n2 /\
      e 3%nat 1%nat = Some n3 /\ e 4%nat 1%nat = Some n4) /\
     (e 1%nat 2%nat = Some p1 /\ e 2%nat 2%nat = Some p2 /\
      e 3%nat 2%nat = Some p3 /\ e 4%nat 2%nat = Some p4)).
Proof.
  intros Hm _ _ _.
  destruct (leach_point_result starting_mineral_dict sand minlch fleach_1
              fleach_2 fleach_3 fleach_4 pslsrb sorpmx Hm)
    as (e & Hrun & (N1 & N2 & N3 & N4) & (P1 & P2 & P3 & P4)).
  exists e. split; [exact Hrun|]. split.
  - intros H0. rewrite P1, P2, P3, P4. rewrite H0.
    repeat split; f_equal; ring.
  - intros Hpos Hv1 Hv2 Hv3 Hv4.
    rewrite N1, N2, N3, N4, P1, P2, P3, P4.
    rewrite !(linten_no_flow minlch) by assumption.
    repeat split; f_equal; ring.
Qed.

End LeachPoint.

Section LeachPointExamples.
Import Soil.
Local Open Scope R_scope.

Lemma leach_point_moves_down_witness :
  exists e y1 y2 y3 y4 z1 z2 z3 z4,
    leach_point (minerl_dict_of [13; 10; 8; 9.5] [12.3; 10; 7.2; 2.1])
      (minerl_dict_of [13; 10; 8; 9.5] [12.3; 10; 7.2; 2.1])
      (dict_of [12; 20; 23; 19]) 0.48375 18 0.2 0.7 0.2 0.7 1 2 = Ok e /\
    (e 1%nat 1%nat = Some y1 /\ e 2%nat 1%nat = Some y2 /\
     e 3%nat 1%nat = Some y3 /\ e 4%nat 1%nat = Some y4) /\
    (e 1%nat 2%nat = Some z1 /\ e 2%nat 2%nat = Some z2 /\
     e 3%nat 2%nat = Some z3 /\ e 4%nat 2%nat = Some z4) /\
    (0 <= y1 /\ 0 <= y2 /\ 0 <= y3 /\ 0 <= y4) /\
    (0 <= z1 /\ 0 <= z2 /\ 0 <= z3 /\ 0 <= z4) /\
    (y1 <= 13 /\ y1 + y2 <= 13 + 10 /\ y1 + y2 + y3 <= 13 + 10 + 8 /\
     y1 + y2 + y3 + y4 <= 13 + 10 + 8 + 9.5) /\
    (z1 <= 12.3 /\ z1 + z2 <= 12.3 + 10 /\
     z1 + z2 + z3 <= 12.3 + 10 + 7.2 /\
     z1 + z2 + z3 + z4 <= 12.3 + 10 + 7.2 + 2.1).
Proof.
  refine (leach_point_moves_down
            (minerl_dict_of [13; 10; 8; 9.5] [12.3; 10; 7.2; 2.1])
            (dict_of [12; 20; 23; 19])
            13 10 8 9.5 12.3 10 7.2 2.1 12 20 23 19
            eq_refl eq_refl eq_refl eq_refl eq_refl
            eq_refl eq_refl eq_refl eq_refl eq_refl
            eq_refl eq_refl eq_refl eq_refl
            (minerl_dict_of [13; 10; 8; 9.5] [12.3; 10; 7.2; 2.1])
            0.48375 18 0.2 0.7 0.2 0.7 1 2 _ _ _ _ _ _ _ _ _ _ _ _ _); lra.
Defined.

Lemma leach_point_unchanged_witness :
  exists e,
    leach_point (minerl_dict_of [10; 10; 10; 10] [10; 10; 10; 10])
      (minerl_dict_of [10; 10; 10; 10] [10; 10; 10; 10])
      (dict_of [19; 10; 23; 19]) 0.48375 18 0.2 0.7 1 0 1 2 = Ok e /\
    e 1%nat 2%nat = Some 10 /\ e 2%nat 2%nat = Some 10 /\
    e 3%nat 2%nat = Some 10 /\ e 4%nat 2%nat = Some 10.
Proof.
  assert (Hm : 18 <> 0) by lra.
  assert (Hp1 : 0 <= 10) by lra.
  assert (Hs : 0 <= 2) by lra.
  assert (Hps : 1 <= 2) by lra.
  destruct (leach_point_unchanged
              (minerl_dict_of [10; 10; 10; 10] [10; 10; 10; 10])
              (dict_of [19; 10; 23; 19])
              10 10 10 10 10 10 10 10 19 10 23 19
              eq_refl eq_refl eq_refl eq_refl eq_refl
              eq_refl eq_refl eq_refl eq_refl eq_refl
              eq_refl eq_refl eq_refl eq_refl
              (minerl_dict_of [10; 10; 10; 10] [10; 10; 10; 10])
              0.48375 18 0.2 0.7 1 0 1 2 Hm Hp1 Hs Hps)
    as (e & Hrun & HP & _).
  exists e. split; [exact Hrun | exact (HP eq_refl)].
Defined.

End LeachPointExamples.

(** ** Soil water *)

Section SoilWaterLayers.
Import Soil.
Local Open Scope R_scope.

Lemma fold_left_Rplus_acc (l : list R) (a : R) :
  fold_left Rplus l a = a + fold_left Rplus l 0.
Proof.
  revert a. induction l as [|x l IH]; intro a; cbn.
  - lra.
  - rewrite (IH (a + x)), (IH (0 + x)). lra.
Qed.

Lemma fold_left_Rplus_nonneg (l : list R) :
  Forall (fun x => 0 <= x) l -> 0 <= fold_left Rplus l 0.
Proof.
  induction 1 as [|x l Hx _ IH]; cbn; [lra|].
  rewrite fold_left_Rplus_acc. lra.
Qed.

Lemma fold_left_Rplus_zero (l : list R) :
  Forall (fun x => x = 0) l -> fold_left Rplus l 0 = 0.
Proof.
  induction 1 as [|x l Hx _ IH]; cbn; [reflexivity|].
  rewrite fold_left_Rplus_acc, IH, Hx. lra.
Qed.

Lemma distribute_spec (afl lo : R) (asmos_dict : list R) :
  0 <= afl -> lo <= afl ->
  Forall (fun a => lo <= a) asmos_dict ->
  forall current, 0 <= current ->
  Forall (fun a => lo <= a <= afl) (fst (distribute afl current asmos_dict)) /\
  Forall (fun m => m = 0 \/ afl < m)
    (snd (distribute afl current asmos_dict)) /\
  List.length (fst (distribute afl current asmos_dict)) = List.length asmos_dict /\
  List.length (snd (distribute afl current asmos_dict)) = List.length asmos_dict.
Proof.
  intros Hafl Hlo. induction 1 as [|a rest Ha _ IH]; intros current Hc.
  - cbn. auto.
  - cbn [distribute]. destruct (Rgt_dec (a + current) afl) as [Hgt|Hle].
    + destruct (IH (a + current)) as (I1 & I2 & I3 & I4); [lra|].
      destruct (distribute afl (a + current) rest) as [as' am] eqn:E.
      cbn [fst snd] in *. repeat split.
      * constructor; [lra|exact I1].
      * constructor; [right; lra|exact I2].
      * cbn. now rewrite I3.
      * cbn. now rewrite I4.
    + destruct (IH 0) as (I1 & I2 & I3 & I4); [lra|].
      destruct (distribute afl 0 rest) as [as' am] eqn:E.
      cbn [fst snd] in *. repeat split.
      * constructor; [lra|exact I1].
      * constructor; [left; reflexivity|exact I2].
      * cbn. now rewrite I3.
      * cbn. now rewrite I4.
Qed.

(** Without inputs that lift a layer over [afl], the layers keep their
    content and nothing is handed down. *)
Lemma distribute_dry (afl hi : R) (asmos_dict : list R) :
  hi <= afl ->
  Forall (fun a => a <= hi) asmos_dict ->
  forall current, 0 <= current ->
  match asmos_dict with
  | [] => True
  | a :: _ => a + current <= hi
  end ->
  Forall (fun a => a <= hi) (fst (distribute afl current asmos_dict)).
Proof.
  intros Hhi. induction 1 as [|a rest Ha Hrest IH]; intros current Hc H1.
  - cbn. constructor.
  - cbn [distribute]. destruct (Rgt_dec (a + current) afl) as [Hgt|Hle];
      [lra|].
    assert (Hih := IH 0 (Rle_refl 0)).
    destruct (distribute afl 0 rest) as [as' am] eqn:E. cbn [fst] in *.
    constructor; [exact H1|]. apply Hih.
    destruct rest as [|b rest']; [exact Logic.I|].
    inversion Hrest; subst. lra.
Qed.

Lemma transpire_spec (trap tot2 awilt adep awtl : R) (asmos_dict : list R) :
  0 <= trap -> 0 < tot2 -> 0 <= awtl ->
  exists avinj_dict asmos_dict',
    transpire trap tot2 awilt adep awtl asmos_dict =
      Ok (avinj_dict, asmos_dict') /\
    Forall2 (fun a a' => Rmin a (awilt * adep) <= a' <= a)
      asmos_dict asmos_dict' /\
    Forall (fun v => 0 <= v) avinj_dict /\
    List.length avinj_dict = List.length asmos_dict.
Proof.
  intros Ht Htot Hw. induction asmos_dict as [|a rest IH].
  - exists [], []. cbn. repeat split; constructor.
  - destruct IH as (av & as' & Hrun & H2 & Hav & Hlen).
    cbn [transpire]. rewrite rdiv_ok by lra. cbn [obind]. rewrite Hrun.
    cbn [obind fst snd]. eexists. eexists. split; [reflexivity|].
    set (avinj := Rmax (a - awilt * adep) 0).
    assert (Havinj : 0 <= avinj) by apply Rmax_r.
    assert (Hq : 0 <= trap * (avinj * awtl) / tot2).
    { apply Rmult_le_pos.
      - apply Rmult_le_pos; [exact Ht|]. apply Rmult_le_pos; assumption.
      - left. apply Rinv_0_lt_compat. exact Htot. }
    set (q := trap * (avinj * awtl) / tot2) in *.
    assert (Htrl : 0 <= Rmin q avinj <= avinj).
    { unfold Rmin. destruct (Rle_dec q avinj); lra. }
    set (trl := Rmin q avinj) in *.
    assert (Hcase : avinj = a - awilt * adep /\ awilt * adep <= a \/
                    avinj = 0 /\ a <= awilt * adep).
    { unfold avinj, Rmax. destruct (Rle_dec (a - awilt * adep) 0);
        [right|left]; lra. }
    repeat split.
    + constructor; [|exact H2].
      unfold Rmin. destruct (Rle_dec a (awilt * adep));
        destruct Hcase as [[E1 E2]|[E1 E2]]; lra.
    + constructor; [lra|exact Hav].
    + cbn. now rewrite Hlen.
Qed.

(** With nothing above the wilting point the weights sum to zero and the
    first layer divides by it. *)
Lemma transpire_dry (trap awilt adep awtl : R) (a : R) (rest : list R) :
  transpire trap 0 awilt adep awtl (a :: rest) = Err ZeroDivision.
Proof.
  cbn [transpire]. unfold rdiv.
  destruct (Req_dec_T 0 0) as [_|H]; [reflexivity|contradiction].
Qed.

End SoilWaterLayers.

Section SoilWaterPhases.
Import Soil.
Local Open Scope R_scope.

Lemma fold_left_Rplus_pos (l : list R) :
  l <> [] -> Forall (fun x => 0 < x) l -> 0 < fold_left Rplus l 0.
Proof.
  intros Hne H. destruct H as [|x l Hx Hl]; [contradiction|].
  cbn. rewrite fold_left_Rplus_acc.
  assert (0 <= fold_left Rplus l 0).
  { apply fold_left_Rplus_nonneg. eapply Forall_impl; [|exact Hl].
    cbn. intros. lra. }
  lra.
Qed.

Lemma tran_split (trap current_moisture_inputs : R) :
  0.01 <= trap - Rmin (trap - 0.01) current_moisture_inputs /\
  0 <= current_moisture_inputs -
       Rmin (trap - 0.01) current_moisture_inputs.
Proof.
  unfold Rmin. destruct (Rle_dec (trap - 0.01) current_moisture_inputs); lra.
Qed.

(** The snow phase returns for non-negative inputs, with non-negative
    results. *)
Lemma soil_water_snow_ok
    (precip max_temp min_temp snow snlq pet tmelt_1 tmelt_2 shwave : R) :
  0 <= precip -> 0 <= snow -> 0 <= snlq -> 0 <= pet ->
  exists s q i p,
    soil_water_snow precip max_temp min_temp snow snlq pet tmelt_1 tmelt_2
      shwave = Ok (s, q, i, p) /\
    0 <= s /\ 0 <= q /\ 0 <= i /\ 0 <= p.
Proof.
  intros Hp Hs Hq Hpet.
  assert (Hblock : forall s0 q0 i0, 0 < s0 -> 0 <= q0 -> 0 <= i0 ->
    exists s q i p,
      (let snowtot := s0 + q0 in
       let evsnow := Rmin snowtot (pet * 0.87) in
       share <-- rdiv s0 snowtot ;;
       let snow := Rmax (s0 - evsnow * share) 0 in
       share <-- rdiv q0 snowtot ;;
       let snlq := Rmax (q0 - evsnow * share) 0 in
       let pet_rem := Rmax (pet - evsnow / 0.87) 0 in
       if Rge_dec ((max_temp + min_temp) / 2) tmelt_1 then
         let snowmelt := tmelt_2 * ((max_temp + min_temp) / 2 - tmelt_1) *
                         shwave in
         let snowmelt := Rmax snowmelt 0 in
         let snowmelt := Rmin snowmelt snow in
         let snow := snow - snowmelt in
         let snlq := snlq + snowmelt in
         if Rgt_dec snlq (0.5 * snow) then
           let add := snlq - 0.5 * snow in
           let snlq := snlq - add in
           let inputs_after_snow := add in
           Ok (snow, snlq, inputs_after_snow, pet_rem)
         else Ok (snow, snlq, i0, pet_rem)
       else Ok (snow, snlq, i0, pet_rem)) = Ok (s, q, i, p) /\
      0 <= s /\ 0 <= q /\ 0 <= i /\ 0 <= p).
  { intros s0 q0 i0 Hs0 Hq0 Hi0. cbn zeta.
    rewrite !rdiv_ok by lra. cbn [obind].
    set (evsnow := Rmin (s0 + q0) (pet * 0.87)).
    assert (H1 : 0 <= Rmax (s0 - evsnow * (s0 / (s0 + q0))) 0)
      by apply Rmax_r.
    set (s1 := Rmax (s0 - evsnow * (s0 / (s0 + q0))) 0) in *.
    assert (H2 : 0 <= Rmax (q0 - evsnow * (q0 / (s0 + q0))) 0)
      by apply Rmax_r.
    set (q1 := Rmax (q0 - evsnow * (q0 / (s0 + q0))) 0) in *.
    assert (H3 : 0 <= Rmax (pet - evsnow / 0.87) 0) by apply Rmax_r.
    set (p1 := Rmax (pet - evsnow / 0.87) 0) in *.
    destruct (Rge_dec ((max_temp + min_temp) / 2) tmelt_1).
    - set (sm0 := tmelt_2 * ((max_temp + min_temp) / 2 - tmelt_1) * shwave).
      assert (H4 : 0 <= Rmax sm0 0) by apply Rmax_r.
      assert (H5 : 0 <= Rmin (Rmax sm0 0) s1 <= s1).
      { unfold Rmin. destruct (Rle_dec (Rmax sm0 0) s1); lra. }
      set (sm := Rmin (Rmax sm0 0) s1) in *.
      destruct (Rgt_dec (q1 + sm) (0.5 * (s1 - sm))).
      + do 4 eexists. split; [reflexivity|]. repeat split; lra.
      + do 4 eexists. split; [reflexivity|]. repeat split; lra.
    - do 4 eexists. split; [reflexivity|]. repeat split; lra. }
  unfold soil_water_snow.
  destruct (Rle_dec ((max_temp + min_temp) / 2) 0) as [Hc|Hc]; cbv iota beta.
  - destruct (Rgt_dec (snow + precip) 0) as [Hg|Hg].
    + apply Hblock; lra.
    + do 4 eexists. split; [reflexivity|]. repeat split; lra.
  - destruct (Rgt_dec snow 0) as [Hg|Hg]; cbv iota beta.
    + destruct (Rgt_dec snow 0) as [_|Hn]; [|contradiction].
      apply Hblock; lra.
    + destruct (Rgt_dec snow 0) as [Hn|_]; [contradiction|].
      do 4 eexists. split; [reflexivity|]. repeat split; lra.
Qed.

(** Without snow and without precipitation the snow phase passes nothing
    on. *)
Lemma soil_water_snow_dry
    (max_temp min_temp snlq pet tmelt_1 tmelt_2 shwave : R) :
  exists s i,
    soil_water_snow 0 max_temp min_temp 0 snlq pet tmelt_1 tmelt_2 shwave =
      Ok (s, snlq, i, pet) /\ s = 0 /\ i = 0.
Proof.
  unfold soil_water_snow.
  destruct (Rle_dec ((max_temp + min_temp) / 2) 0) as [Hc|Hc]; cbv iota beta.
  - destruct (Rgt_dec (0 + 0) 0) as [Hg|Hg]; [lra|].
    do 2 eexists. split; [reflexivity|]. split; lra.
  - destruct (Rgt_dec 0 0) as [Hg|Hg]; [lra|]. cbv iota beta.
    destruct (Rgt_dec 0 0) as [Hg'|_]; [lra|].
    do 2 eexists. split; [reflexivity|]. split; lra.
Qed.

Lemma soil_water_surface_bounds
    (tave snow inputs_after_snow pet_rem strucc_1 metabc_1 fracro precro
     fwloss_1 fwloss_2 : R) (d : pft_dict) :
  let '(trap, pevp, absevap, modified_moisture_inputs) :=
    soil_water_surface tave snow inputs_after_snow pet_rem strucc_1
      metabc_1 fracro precro fwloss_1 fwloss_2 d in
  0.01 <= trap /\ 0 <= pevp /\ (0 <= fwloss_2 -> 0 <= absevap) /\
  0 <= modified_moisture_inputs.
Proof.
  unfold soil_water_surface.
  destruct (Req_dec_T snow 0); cbv beta iota zeta;
    (split; [apply tran_split|]); (split; [apply Rmax_r|]);
    (split; [|apply tran_split]); intro Hf.
  - pose proof (exp_pos (-0.002 * Rmin ((strucc_1 + metabc_1) * 2.5) 400 -
        0.004 * Rmin (cover_weighted aglivc d * 2.5 +
                      0.25 * cover_weighted tgprod d +
                      cover_weighted stdedc d * 2.5) 800)).
    nra.
  - lra.
Qed.

(** In a month without water at the surface the soil receives at most the
    0.01 by which the transpiration demand is kept off zero. *)
Lemma soil_water_surface_dry
    (tave pet_rem strucc_1 metabc_1 fracro precro fwloss_1 fwloss_2 : R)
    (d : pft_dict) (snow inputs_after_snow : R) :
  snow = 0 -> inputs_after_snow = 0 ->
  0 <= pet_rem -> 0 <= fracro -> 0 <= precro ->
  let '(trap, pevp, absevap, modified_moisture_inputs) :=
    soil_water_surface tave snow inputs_after_snow pet_rem strucc_1
      metabc_1 fracro precro fwloss_1 fwloss_2 d in
  0 <= modified_moisture_inputs <= 0.01.
Proof.
  intros -> -> Hpet Hf Hp. unfold soil_water_surface.
  destruct (Req_dec_T 0 0) as [_|H]; [|contradiction].
  cbv beta iota zeta.
  assert (Hro : Rmax (fracro * (0 - precro)) 0 = 0)
    by (apply Rmax_right; nra).
  rewrite !Hro.
  replace (0 - 0) with 0 by ring. rewrite !Rmult_0_r.
  assert (Hev : Rmin 0 (0.4 * pet_rem) = 0) by (apply Rmin_left; lra).
  rewrite !Hev. replace (0 - 0) with 0 by ring.
  match goal with
  | |- context [Rmin (?t - 0.01) 0] =>
      assert (Ht : 0 <= t)
        by (destruct (Rlt_dec tave 2); [lra | apply Rmax_r]);
      generalize dependent t
  end.
  intros trap0 Ht. unfold Rmin. destruct (Rle_dec (trap0 - 0.01) 0); lra.
Qed.

End SoilWaterPhases.

Section SoilWaterPoint.
Import Soil.
Local Open Scope R_scope.

Lemma distribute_length (afl : R) (asmos_dict : list R) (current : R) :
  List.length (fst (distribute afl current asmos_dict)) =
    List.length asmos_dict /\
  List.length (snd (distribute afl current asmos_dict)) =
    List.length asmos_dict.
Proof.
  revert current. induction asmos_dict as [|a rest IH]; intro current.
  - cbn. auto.
  - cbn [distribute].
    destruct (Rgt_dec (a + current) afl);
      match goal with
      | |- context [distribute afl ?c rest] =>
          destruct (IH c) as [I1 I2];
          destruct (distribute afl c rest) as [as' am]
      end; cbn [fst snd List.length] in *; auto.
Qed.

Lemma Forall_repeat {A : Type} (P : A -> Prop) (x : A) (n : nat) :
  P x -> Forall P (repeat x n).
Proof. intro H. induction n; cbn; constructor; auto. Qed.

(** X28.  A rainless month on soil at the wilting point cannot be computed.
    With no precipitation and no snow, and every layer starting at least
    0.01 below the wilting point [awilt * adep] (which lies at or below
    field capacity), no layer holds water for transpiration, the weights
    [awwt] sum to zero, and [soil_water_point] ends in a
    [ZeroDivisionError] at the first layer. *)
Theorem soil_water_dry_soil_fails (asmos : R)
    (max_temp min_temp snlq pet tmelt_1 tmelt_2 shwave strucc_1 metabc_1
     fracro precro fwloss_1 fwloss_2 : R) (d : pft_dict) (n : nat)
    (adep afiel awilt awtl : R) :
  0 <= pet -> 0 <= fracro -> 0 <= precro ->
  nlaypg_max d = Ok n -> (1 <= n)%nat ->
  asmos + 0.01 <= awilt * adep ->
  awilt * adep <= adep * afiel ->
  soil_water_point asmos 0 max_temp min_temp 0 snlq pet tmelt_1 tmelt_2
    shwave strucc_1 metabc_1 fracro precro fwloss_1 fwloss_2 d adep afiel
    awilt awtl = Err ZeroDivision.
Proof.
  intros Hpet Hf Hp Hn Hn1 Hdry Hcap. unfold soil_water_point.
  destruct (soil_water_snow_dry max_temp min_temp snlq pet tmelt_1 tmelt_2
              shwave) as (s & i & Hrun & Hs & Hi).
  rewrite Hrun. cbn [obind]. cbv iota beta.
  pose proof (soil_water_surface_dry ((max_temp + min_temp) / 2) pet
                strucc_1 metabc_1 fracro precro fwloss_1 fwloss_2 d s i
                Hs Hi Hpet Hf Hp) as Hsurf.
  destruct (soil_water_surface _ s i pet strucc_1 metabc_1 fracro precro
              fwloss_1 fwloss_2 d) as [[[trap pevp] absevap] mmi].
  rewrite Hn. cbn [obind].
  destruct n as [|n']; [lia|].
  assert (Hall : Forall (fun a => a <= awilt * adep)
                   (fst (distribute (adep * afiel) mmi
                           (repeat asmos (S n'))))).
  { apply distribute_dry; try lra.
    - apply Forall_repeat. lra.
    - cbn. lra. }
  destruct (distribute_length (adep * afiel) (repeat asmos (S n')) mmi)
    as [Hlen _].
  destruct (distribute (adep * afiel) mmi (repeat asmos (S n')))
    as [asd amd]. cbn [fst] in *.
  rewrite repeat_length in Hlen.
  destruct asd as [|a rest]; [discriminate|].
  assert (Htot2 : fold_left Rplus
                    (map (fun w => w * awtl)
                       (map (fun a => Rmax (a - awilt * adep) 0)
                          (a :: rest))) 0 = 0).
  { apply fold_left_Rplus_zero. rewrite map_map. apply Forall_map.
    eapply Forall_impl; [|exact Hall]. cbn. intros x Hx.
    rewrite Rmax_right by lra. ring. }
  rewrite Htot2. rewrite transpire_dry. reflexivity.
Qed.

Lemma soil_water_dry_soil_fails_witness :
  soil_water_point 0.01 0 24 10 0 0 12 0 0.002 900 46.1 33.1 0.15 8 0.8
    0.779 [(1%nat, mk_pft 0.4 35.9 49.874 371 5)] 15 0.67 0.168 0.5 =
  Err ZeroDivision.
Proof.
  refine (soil_water_dry_soil_fails 0.01 24 10 0 12 0 0.002 900 46.1 33.1
            0.15 8 0.8 0.779 [(1%nat, mk_pft 0.4 35.9 49.874 371 5)] 5
            15 0.67 0.168 0.5 _ _ _ eq_refl _ _ _); try lra. lia.
Defined.

(** X29.  With water above the wilting point the month can be computed, and the
    layers stay between wilting point and field capacity.  For non-negative
    precipitation, snow, snow liquid and [pet], [fwloss_2 >= 0],
    [awtl > 0], [adep > 0], [0 <= awilt < afiel], at least two layers and
    every layer starting above the wilting point, [soil_water_point]
    returns; every layer of [asmos] ends between [awilt * adep] and
    [adep * afiel]; [amov_2] is zero or more than field capacity (an
    overflowing layer hands down all it holds, not the excess); snow, snow
    liquid and [avh2o_3] are not negative. *)
Theorem soil_water_point_layers_bounded (asmos : R)
    (precip max_temp min_temp snow snlq pet tmelt_1 tmelt_2 shwave strucc_1
     metabc_1 fracro precro fwloss_1 fwloss_2 : R) (d : pft_dict) (n : nat)
    (adep afiel awilt awtl : R) :
  0 <= precip -> 0 <= snow -> 0 <= snlq -> 0 <= pet ->
  0 <= fwloss_2 -> 0 < awtl -> 0 < adep -> 0 <= awilt < afiel ->
  nlaypg_max d = Ok n -> (2 <= n)%nat ->
  awilt * adep < asmos ->
  exists r,
    soil_water_point asmos precip max_temp min_temp snow snlq pet tmelt_1
      tmelt_2 shwave strucc_1 metabc_1 fracro precro fwloss_1 fwloss_2 d
      adep afiel awilt awtl = Ok r /\
    List.length (sw_asmos r) = n /\
    Forall (fun a => awilt * adep <= a <= adep * afiel) (sw_asmos r) /\
    (sw_amov_2 r = 0 \/ adep * afiel < sw_amov_2 r) /\
    0 <= sw_snow r /\ 0 <= sw_snlq r /\ 0 <= sw_avh2o_3 r.
Proof.
  intros Hp Hs Hq Hpet Hfw Hawtl Hadep Haw Hn Hn2 Hwet.
  assert (Hcap : awilt * adep < adep * afiel) by nra.
  assert (Hafl : 0 <= adep * afiel) by nra.
  unfold soil_water_point.
  destruct (soil_water_snow_ok precip max_temp min_temp snow snlq pet
              tmelt_1 tmelt_2 shwave Hp Hs Hq Hpet)
    as (s & q & i & p & Hrun & Hs' & Hq' & Hi' & Hp').
  rewrite Hrun. cbn [obind]. cbv iota beta.
  pose proof (soil_water_surface_bounds ((max_temp + min_temp) / 2) s i p
                strucc_1 metabc_1 fracro precro fwloss_1 fwloss_2 d)
    as Hsurf.
  destruct (soil_water_surface _ s i p strucc_1 metabc_1 fracro precro
              fwloss_1 fwloss_2 d) as [[[trap pevp] absevap] mmi].
  destruct Hsurf as (Htrap & Hpevp & Habs & Hmmi).
  specialize (Habs Hfw).
  rewrite Hn. cbn [obind].
  set (lo := Rmin asmos (adep * afiel)).
  assert (Hlo : awilt * adep < lo).
  { unfold lo, Rmin. destruct (Rle_dec asmos (adep * afiel)); lra. }
  assert (Hlo' : lo <= adep * afiel) by apply Rmin_r.
  destruct (distribute_spec (adep * afiel) lo (repeat asmos n) Hafl Hlo'
              (Forall_repeat _ asmos n (Rmin_l asmos (adep * afiel)))
              mmi Hmmi) as (Das & Dam & Dl1 & Dl2).
  destruct (distribute (adep * afiel) mmi (repeat asmos n)) as [asd amd].
  cbn [fst snd] in *. rewrite repeat_length in Dl1, Dl2.
  set (avw := map (fun a => Rmax (a - awilt * adep) 0) asd).
  assert (Havw : Forall (fun x => 0 < x) avw).
  { unfold avw. apply Forall_map. eapply Forall_impl; [|exact Das].
    cbn. intros x Hx. unfold Rmax.
    destruct (Rle_dec (x - awilt * adep) 0); lra. }
  assert (Hne : asd <> []).
  { intro E. rewrite E in Dl1. cbn in Dl1. lia. }
  assert (Htot : 0 < fold_left Rplus avw 0).
  { apply fold_left_Rplus_pos; [|exact Havw].
    unfold avw. destruct asd; [contradiction|discriminate]. }
  assert (Htot2 : 0 < fold_left Rplus (map (fun w => w * awtl) avw) 0).
  { apply fold_left_Rplus_pos.
    - unfold avw. destruct asd; [contradiction|discriminate].
    - apply Forall_map. eapply Forall_impl; [|exact Havw].
      cbn. intros x Hx. nra. }
  assert (Htrap' : 0 <= Rmin trap (fold_left Rplus avw 0)).
  { unfold Rmin. destruct (Rle_dec trap (fold_left Rplus avw 0)); lra. }
  destruct (transpire_spec (Rmin trap (fold_left Rplus avw 0))
              (fold_left Rplus (map (fun w => w * awtl) avw) 0)
              awilt adep awtl asd Htrap' Htot2 (Rlt_le _ _ Hawtl))
    as (av & as2 & Htr & T2 & Tav & Tl).
  rewrite Htr. cbn [obind]. cbv iota beta.
  assert (Tl2 : List.length as2 = n).
  { rewrite <- (Forall2_length T2). exact Dl1. }
  destruct asd as [|a1 [|a2 asd']]; try (cbn in Dl1; lia).
  destruct as2 as [|b1 [|b2 as2']]; try (cbn in Tl2; lia).
  destruct av as [|v1 [|v2 av']]; try (cbn in Tl; lia).
  destruct amd as [|m1 [|m2 amd']]; try (cbn in Dl2; lia).
  cbn [layer nth_error obind tl].
  rewrite rdiv_ok by lra. cbn [obind].
  rewrite rdiv_ok by lra. cbn [obind].
  eexists. split; [reflexivity|].
  cbn [sw_asmos sw_amov_2 sw_snow sw_snlq sw_avh2o_3].
  inversion Das as [|? ? Ha1 Das1]; subst.
  inversion T2 as [|? ? ? ? Hb1 T2']; subst.
  inversion Tav as [|? ? Hv1 Tav1]; subst.
  inversion Tav1 as [|? ? Hv2 _]; subst.
  inversion Dam as [|? ? _ Dam1]; subst.
  inversion Dam1 as [|? ? Hm2 _]; subst.
  assert (Hb1' : awilt * adep <= b1 <= a1).
  { rewrite Rmin_right in Hb1 by lra. exact Hb1. }
  split; [exact Tl2|]. split; [|split; [exact Hm2|repeat split; lra]].
  constructor.
  - set (evmt := Rmax _ 0.01).
    assert (Hevmt : 0.01 <= evmt) by apply Rmax_r.
    assert (He : 0 <= evmt * pevp * absevap * 0.1).
    { apply Rmult_le_pos; [|lra]. apply Rmult_le_pos; [|exact Habs].
      apply Rmult_le_pos; lra. }
    rewrite (Rmax_left (b1 - awilt * adep) 0) by lra.
    unfold Rmin.
    destruct (Rle_dec (evmt * pevp * absevap * 0.1) (b1 - awilt * adep));
      lra.
  - clear - T2' Das1 Hlo Hlo'. revert T2'. generalize (b2 :: as2').
    induction Das1 as [|a rest Ha _ IH]; intros l T; inversion T; subst;
      constructor.
    + rewrite Rmin_right in * by lra. lra.
    + apply IH. assumption.
Qed.

End SoilWaterPoint.

Section SoilWaterExamples.
Import Soil.
Local Open Scope R_scope.

Lemma soil_water_point_layers_bounded_witness :
  exists r,
    soil_water_point 3.1 10.9 23 (-2) 0 0 4.9680004 0 0.002 457.95056 46.1
      33.1 0.15 8 0.8 0.779
      [(1%nat, mk_pft 0.4 35.9 49.874 371 5);
       (2%nat, mk_pft 0.2 52.1 31.4 300.2 3);
       (3%nat, mk_pft 0.3 20.77 17.03 200.8 6)]
      15 0.67 0.168 0.5 = Ok r /\
    List.length (sw_asmos r) = 6%nat /\
    Forall (fun a => 0.168 * 15 <= a <= 15 * 0.67) (sw_asmos r) /\
    (sw_amov_2 r = 0 \/ 15 * 0.67 < sw_amov_2 r) /\
    0 <= sw_snow r /\ 0 <= sw_snlq r /\ 0 <= sw_avh2o_3 r.
Proof.
  refine (soil_water_point_layers_bounded 3.1 10.9 23 (-2) 0 0 4.9680004 0
            0.002 457.95056 46.1 33.1 0.15 8 0.8 0.779
            [(1%nat, mk_pft 0.4 35.9 49.874 371 5);
             (2%nat, mk_pft 0.2 52.1 31.4 300.2 3);
             (3%nat, mk_pft 0.3 20.77 17.03 200.8 6)]
            6 15 0.67 0.168 0.5 _ _ _ _ _ _ _ _ eq_refl _ _); try lra.
  lia.
Defined.

End SoilWaterExamples.
